(** * Event-processing engine of the Telegram Automation Framework

    A shallow embedding of [HookManager], [ErrorHandler], [ActionHandler],
    [Pipeline] and [BotManager] (src/core/*.js), followed by the
    properties of the engine's specification and by further properties
    of the code.

    Modelling conventions, used throughout:
    - an object used as a table ([errorHandlers], [recoveryStrategies],
      [handlers], the statistics tables) is the finite map of what was
      assigned under each key, read the way JavaScript reads a plain
      object: a key that was not assigned finds the member of
      [Object.prototype] of that name when there is one, and an
      assignment under [__proto__] installs the assigned object as
      prototype ([JS.get]); [hooks] and [bots] are [Map]s and have no
      such keys;
    - user code (stages, hook listeners, error-kind handlers, action
      handlers, bots) is a terminating transformer of a store that holds
      everything it can reach, the objects the engine hands to it
      included: the message, the object a stage returned and the result
      of the run; it returns or throws, and what it throws may be [null]
      or [undefined].  A value is not changed after it was thrown, and
      user code does not call the pipeline, its hook manager or its
      error handler while they run; whatever else it holds on to, an
      [ActionHandler] for one, is part of its own world;
    - [process] is given a message object and a context object;
    - asynchronous calls are all awaited in the source, so they are
      sequential calls here; [setTimeout] delays are recorded, not waited;
    - calls to the optional logger return normally and leave the modelled
      state alone; they are left out where evaluating their arguments
      cannot throw ([console.error] is recorded);
    - numbers are integers of any size;
    - every engine operation also yields the list of observable events it
      produced, in order.  That list is instrumentation: no operation
      reads it. *)

From stdpp Require Import gmap strings list.
From Stdlib Require Import ZArith Lia.

#[local] Set Warnings "-clear-no-such-hyp".

(** ** JavaScript values *)
Module JS.

#[local] Unset Elimination Schemes.
Inductive JSVal : Type :=
| VUndefined
| VNull
| VBool (b : bool)
| VNum (n : Z)
| VStr (s : string)
| VObj (fields : list (string * JSVal)).
#[local] Set Elimination Schemes.

(** ToBoolean, as used by [if (x)], [!x] and [x || y]. *)
Definition truthy (v : JSVal) : bool :=
  match v with
  | VUndefined | VNull => false
  | VBool b => b
  | VNum n => negb (n =? 0)%Z
  | VStr s => negb (String.eqb s "")
  | VObj _ => true
  end.

Definition is_object (v : JSVal) : bool :=
  match v with
  | VObj _ => true
  | _ => false
  end.

(** An object seen through its own properties. *)
Abbreviation JSObj := (gmap string JSVal).

(** [o.k] *)
Definition prop (o : JSObj) (k : string) : JSVal := default VUndefined (o !! k).

(** [o?.k] on a value that is [undefined] or an object. *)
Definition opt_prop (o : option JSObj) (k : string) : JSVal :=
  match o with
  | Some o => prop o k
  | None => VUndefined
  end.

(** [a || b] *)
Definition or_else (a b : JSVal) : JSVal := if truthy a then a else b.

(** [n || d] on an optional number: [undefined] and [0] give [d]. *)
Definition num_or (n : option Z) (d : Z) : Z :=
  match n with
  | Some n => if (n =? 0)%Z then d else n
  | None => d
  end.

(** [n ?? d] on an optional number: only [undefined] gives [d]. *)
Definition num_nullish (n : option Z) (d : Z) : Z := default d n.

(** [{ ...a, ...b }]: the properties of [b] win. *)
Definition spread (a b : JSObj) : JSObj := b ∪ a.

(** *** Plain objects used as tables *)

(** The names of the members of [Object.prototype]. *)
Definition object_prototype : list string :=
  ["constructor"; "__defineGetter__"; "__defineSetter__"; "hasOwnProperty";
   "__lookupGetter__"; "__lookupSetter__"; "isPrototypeOf";
   "propertyIsEnumerable"; "toString"; "valueOf"; "__proto__";
   "toLocaleString"].

Definition inherited (k : string) : bool := existsb (String.eqb k) object_prototype.

(** What [table[k]] finds in an object that started as [{}] and was only
    changed by assignments [table[key] = object]. *)
Inductive Slot (A : Type) : Type :=
| Own (a : A)     (* what was assigned under [k] *)
| Inherited       (* the member [k] of [Object.prototype], a truthy value *)
| Absent          (* [undefined] *)
| Beyond.         (* the search goes through a prototype installed by an
                     assignment under [__proto__]: not determined here *)
Arguments Own {A} a.
Arguments Inherited {A}.
Arguments Absent {A}.
Arguments Beyond {A}.

(** An entry under [__proto__] is the prototype an assignment under
    that key installed; reading [table.__proto__] gives it back. *)
Definition get {A : Type} (table : gmap string A) (k : string) : Slot A :=
  match table !! k with
  | Some a => Own a
  | None =>
      match table !! "__proto__" with
      | Some _ => Beyond
      | None => if inherited k then Inherited else Absent
      end
  end.

(** Whether the member [k] of [Object.prototype] returns when it is
    called as a plain function (no receiver) with [v] as first
    argument: [Object(v)] and [toString()] return, [isPrototypeOf(v)]
    returns for a [v] that is not an object, and every other member
    throws a [TypeError] ([__proto__] is not a function, the others
    need a receiver). *)
Definition member_returns (k : string) (v_is_object : bool) : bool :=
  String.eqb k "constructor" || String.eqb k "toString" ||
  (String.eqb k "isPrototypeOf" && negb v_is_object).

(** *** Thrown values *)

(** A thrown value that has a constructor, seen through
    [error.constructor.name], [error.code] when it is a string, and
    [error.message]. *)
Record Error : Type := mkError {
  ctor_name : string;
  code : option string;
  message : string
}.

(** Any thrown value: [null] or [undefined], an object without
    constructor, or a value with one. *)
Inductive Exn : Type :=
| Nullish
| Bare
| Raised (e : Error).
Coercion Raised : Error >-> Exn.


(** The [TypeError] the engine raises itself.  The message is the
    engine's and plays no part. *)
Definition type_error (what : string) : Error :=
  {| ctor_name := "TypeError"; code := None; message := what |}.

(** What a call to user code comes back with. *)
Inductive Outcome (A : Type) : Type :=
| Returned (a : A)
| Thrown (e : Exn).
Arguments Returned {A} a.
Arguments Thrown {A} e.

End JS.
Export JS.

(** ** Data exchanged between the components *)
Module Data.

(** The record built at Pipeline.js, [const action = { ... }]. *)
Record ActionRecord : Type := mkAction {
  action : JSVal;
  data : JSVal;
  stage : string;
  timestamp : Z
}.

(** The object [process] returns; [error] and [errorStage] start absent. *)
Record RunResult : Type := mkResult {
  stop : bool;
  metadata : JSObj;
  actions : list ActionRecord;
  error : option Exn;
  errorStage : option string
}.

(** The [data] argument of [emit] at each of the pipeline's call sites,
    as it is when [emit] is called (the [message] member and the live
    objects are part of the store). *)
Inductive Payload : Type :=
| PMessage
| PStage (stageName : string)
| PStageResult (stageName : string) (result : option JSObj)
| PStageError (stageName : string) (error : Exn)
| PPipelineResult (result : RunResult).

(** Observable events. *)
Inductive Event : Type :=
| EvEmit (hookName : string) (payload : Payload)
| EvConsoleError (hookName : string) (error : Exn)
| EvInvoke (idx : nat) (stageName : string)
| EvReturned (idx : nat) (stageResult : option JSObj)
| EvThrew (idx : nat) (error : Exn)
| EvHandle (stageName : string) (error : Exn) (attempt : option Z)
| EvDispatch (errorType : string)
| EvSleep (ms : Z).

End Data.
Export Data.

(** ** The effect monad: state, exceptions, event log *)
Module Eff.

(** Why the model gives no answer. *)
Inductive Why : Type :=
| NoFuel              (* the loop was given too few passes *)
| InstalledPrototype  (* a table lookup ended [Beyond] *)
| ErrorAsAnswer.      (* the handler found is [Object]: what it answers
                         is the error itself, whose [action] is not
                         modelled *)

Inductive Res (A : Type) : Type :=
| Ok (a : A)
| Throw (e : Exn)
| Undetermined (why : Why).
Arguments Ok {A} a.
Arguments Throw {A} e.
Arguments Undetermined {A} why.

Section Monad.
Context {S : Type}.

Definition M (A : Type) : Type := S -> Res A * S * list Event.

Definition ret {A} (a : A) : M A := fun s => (Ok a, s, []).

Definition bind {A B} (c : M A) (k : A -> M B) : M B :=
  fun s =>
    match c s with
    | (Ok a, s1, t1) =>
        let '(r, s2, t2) := k a s1 in (r, s2, t1 ++ t2)
    | (Throw e, s1, t1) => (Throw e, s1, t1)
    | (Undetermined why, s1, t1) => (Undetermined why, s1, t1)
    end.

Definition throw {A} (e : Exn) : M A := fun s => (Throw e, s, []).

Definition undetermined {A} (why : Why) : M A := fun s => (Undetermined why, s, []).

(** [try { c } catch (e) { h e }]: the state reached when the
    exception was raised is the one the handler starts from. *)
Definition try_catch {A} (c : M A) (h : Exn -> M A) : M A :=
  fun s =>
    match c s with
    | (Throw e, s1, t1) =>
        let '(r, s2, t2) := h e s1 in (r, s2, t1 ++ t2)
    | other => other
    end.

Definition get_state : M S := fun s => (Ok s, s, []).

Definition modify (f : S -> S) : M unit := fun s => (Ok tt, f s, []).

Definition log (e : Event) : M unit := fun s => (Ok tt, s, [e]).

(** An outcome that is already known. *)
Definition settle {A} (r : Res A) : M A := fun s => (r, s, []).

End Monad.

Arguments M S A : clear implicits.

Declare Scope eff_scope.
Delimit Scope eff_scope with eff.
Notation "'let*' x ':=' c 'in' k" := (bind c (fun x => k))
  (at level 10, x pattern, c at level 100, k at level 200) : eff_scope.
Notation "c '>>' k" := (bind c (fun _ => k))
  (at level 100, k at level 200, right associativity) : eff_scope.

End Eff.
Export Eff.
Local Open Scope eff_scope.

(** ** The state the components run on *)
Module State.

(** A cell of a statistics table: a count, or the text that
    [(member || 0) + 1] makes of a member of [Object.prototype] (and of
    such a text). *)
Inductive Counter : Type :=
| Count (n : nat)
| Text.

(** [table[k] = (table[k] || 0) + 1].  Assigning a number or a string
    under [__proto__] changes nothing. *)
Definition bump (table : gmap string Counter) (k : string) : gmap string Counter :=
  if String.eqb k "__proto__" then table
  else
    <[k := match table !! k with
            | Some (Count n) => Count (S n)
            | Some Text => Text
            | None => if inherited k then Text else Count 1
            end]> table.

(** [ErrorHandler.errorStats] *)
Record ErrorStats : Type := mkErrorStats {
  total : nat;
  byType : gmap string Counter;
  byStage : gmap string Counter
}.

(** [ActionHandler.stats]; its member [total] is [handled] here. *)
Record ActionStats : Type := mkActionStats {
  handled : nat;
  byAction : gmap string Counter;
  failed : nat
}.

Section State.
Context {W : Type}.

(** What user code can reach: its own world (message fields, context,
    closures), the list [message._actions] (absent is empty), the
    clock read by [Date.now()], and the two objects the pipeline hands
    to hook listeners by reference: the object the current stage call
    returned ([returned]) and the result of the run ([handed]). *)
Record Store : Type := mkStore {
  world : W;
  msg_actions : list ActionRecord;
  now : Z;
  returned : JSObj;
  handed : RunResult
}.

(** The store together with the counters the handlers own. *)
Record Machine : Type := mkMachine {
  store : Store;
  errorStats : ErrorStats;
  stats : ActionStats
}.

Definition set_store (s : Store) (m : Machine) : Machine :=
  {| store := s; errorStats := errorStats m; stats := stats m |}.

Definition set_errorStats (e : ErrorStats) (m : Machine) : Machine :=
  {| store := store m; errorStats := e; stats := stats m |}.

Definition set_stats (a : ActionStats) (m : Machine) : Machine :=
  {| store := store m; errorStats := errorStats m; stats := a |}.

Definition set_returned (o : JSObj) (s : Store) : Store :=
  {| world := world s; msg_actions := msg_actions s; now := now s;
     returned := o; handed := handed s |}.

Definition set_handed (r : RunResult) (s : Store) : Store :=
  {| world := world s; msg_actions := msg_actions s; now := now s;
     returned := returned s; handed := r |}.

(** A call into user code. *)
Definition call {A} (f : Store -> Outcome A * Store) : M Machine A :=
  fun m =>
    match f (store m) with
    | (Returned a, s) => (Ok a, set_store s m, [])
    | (Thrown e, s) => (Throw e, set_store s m, [])
    end.

End State.

Arguments Store W : clear implicits.
Arguments Machine W : clear implicits.

End State.
Export State.

(** ** HookManager.js *)
Module HookManager.
Section HookManager.
Context {W : Type}.

Definition Listener : Type := Payload -> Store W -> Outcome unit * Store W.

(** [this.hooks], a [Map] from hook names to arrays of callbacks. *)
Record t : Type := mk { hooks : gmap string (list Listener) }.

Definition new : t := {| hooks := ∅ |}.

Definition on (this : t) (hookName : string) (callback : Listener) : t :=
  let hooks1 :=
    match hooks this !! hookName with
    | Some _ => hooks this
    | None => <[hookName := []]> (hooks this)
    end in
  {| hooks := alter (fun callbacks => callbacks ++ [callback]) hookName hooks1 |}.

(** [this.hooks.get(hookName) || []] *)
Definition listeners (this : t) (hookName : string) : list Listener :=
  default [] (hooks this !! hookName).

(** The body of [for (const callback of callbacks)]. *)
Fixpoint emit_loop (hookName : string) (data : Payload)
    (callbacks : list Listener) : M (Machine W) unit :=
  match callbacks with
  | [] => ret tt
  | callback :: rest =>
      try_catch (call (callback data))
                (fun error => log (EvConsoleError hookName error)) >>
      emit_loop hookName data rest
  end.

Definition emit (this : t) (hookName : string) (data : Payload)
    : M (Machine W) unit :=
  log (EvEmit hookName data) >>
  emit_loop hookName data (listeners this hookName).

(** [getStatus()]: the own properties of the object it builds with
    [status[hookName] = callbacks.length]; assigning a number under
    [__proto__] changes nothing. *)
Definition getStatus (this : t) : gmap string nat :=
  length <$> delete "__proto__" (hooks this).

Definition clear (this : t) : t := {| hooks := ∅ |}.

End HookManager.
Arguments t W : clear implicits.
Arguments Listener W : clear implicits.
End HookManager.

(** ** ErrorHandler.js *)
Module ErrorHandler.

(** What a handler resolves to, as far as [process] reads it:
    [NoAnswer] is [undefined] or [null], [Opaque] any other value
    without a string under [action]. *)
Inductive Recovery : Type :=
| NoAnswer
| Opaque
| mkRecovery (action : string) (reason : option string)
    (fallbackValue : option JSVal).

(** [recovery.action], when reading it gives a string. *)
Definition action (r : Recovery) : option string :=
  match r with
  | mkRecovery a _ _ => Some a
  | _ => None
  end.

Definition reason (r : Recovery) : option string :=
  match r with
  | mkRecovery _ x _ => x
  | _ => None
  end.

(** The third argument of [handle]; only [attempt] is read. *)
Record Context : Type := mkContext { attempt : option Z }.

(** An entry of [recoveryStrategies]: [{ strategy, ...options }]. *)
Record Strategy : Type := mkStrategy {
  strategy : string;
  maxRetries : option Z;
  backoffMs : option Z
}.

Section ErrorHandler.
Context {W : Type}.

(** An entry of [errorHandlers]: one of the three methods bound in the
    constructor, or a function registered by the user. *)
Inductive Handler : Type :=
| HStageError
| HDatabaseError
| HValidationError
| HCustom (f : Error -> string -> Context -> Store W -> Outcome Recovery * Store W).

Record t : Type := mk {
  errorHandlers : gmap string Handler;
  recoveryStrategies : gmap string Strategy
}.

Definition registerErrorHandler (this : t) (errorType : string)
    (handler : Handler) : t :=
  {| errorHandlers := <[errorType := handler]> (errorHandlers this);
     recoveryStrategies := recoveryStrategies this |}.

Definition registerRecoveryStrategy (this : t) (stageName strategy : string)
    (maxRetries backoffMs : option Z) : t :=
  {| errorHandlers := errorHandlers this;
     recoveryStrategies :=
       <[stageName := mkStrategy strategy maxRetries backoffMs]>
         (recoveryStrategies this) |}.

(** The constructor. *)
Definition new : t :=
  registerErrorHandler
    (registerErrorHandler
       (registerErrorHandler {| errorHandlers := ∅; recoveryStrategies := ∅ |}
          "StageError" HStageError)
       "DatabaseError" HDatabaseError)
    "ValidationError" HValidationError.

(** What reading [error.constructor.name] throws when there is no
    constructor. *)
Definition no_constructor : Error := type_error "Cannot read properties of undefined".

(** [updateStats]: [total] is raised before the kind of the error is
    read. *)
Definition updateStats (error : Exn) (stageName : string)
    : M (Machine W) unit :=
  modify (fun m =>
    let st := errorStats m in
    set_errorStats
      {| total := S (total st); byType := byType st; byStage := byStage st |} m) >>
  match error with
  | Raised e =>
      modify (fun m =>
        let st := errorStats m in
        set_errorStats
          {| total := total st;
             byType := bump (byType st) (ctor_name e);
             byStage := bump (byStage st) stageName |} m)
  | _ => throw no_constructor
  end.

Definition handleStageError (this : t) (error : Exn) (stageName : string)
    (context : Context) : M (Machine W) Recovery :=
  match get (recoveryStrategies this) stageName with
  | Absent => ret (mkRecovery "stop" (Some "no_strategy") None)
  | Beyond => undetermined InstalledPrototype
  | Inherited => ret (mkRecovery "stop" (Some "unknown_strategy") None)
  | Own strategy =>
      if String.eqb strategy.(ErrorHandler.strategy) "stop" then
        ret (mkRecovery "stop" (Some "stage_error") None)
      else if String.eqb strategy.(ErrorHandler.strategy) "skip" then
        ret (mkRecovery "skip" (Some "stage_error") None)
      else if String.eqb strategy.(ErrorHandler.strategy) "retry" then
        let attempt := num_or (attempt context) 1 in
        if (attempt <? num_or (maxRetries strategy) 3)%Z then
          let backoff := num_or (backoffMs strategy) 100 in
          log (EvSleep (backoff * attempt)) >>
          ret (mkRecovery "retry" (Some "stage_error") None)
        else
          ret (mkRecovery "stop" (Some "max_retries") None)
      else if String.eqb strategy.(ErrorHandler.strategy) "fallback" then
        ret (mkRecovery "fallback" (Some "stage_error") (Some VNull))
      else
        ret (mkRecovery "stop" (Some "unknown_strategy") None)
  end.

Definition handleDatabaseError (error : Error) (stageName : string)
    (context : Context) : M (Machine W) Recovery :=
  if decide (code error = Some "ECONNREFUSED") then
    ret (mkRecovery "stop" (Some "db_connection_failed") None)
  else if decide (code error = Some "QUERY_CANCELLED") then
    ret (mkRecovery "skip" (Some "db_timeout") None)
  else
    ret (mkRecovery "skip" (Some "db_error") None).

Definition handleValidationError (error : Error) (stageName : string)
    (context : Context) : M (Machine W) Recovery :=
  ret (mkRecovery "skip" (Some "validation_failed") None).

Definition handleUnknownError (error : Error) (stageName : string)
    (context : Context) : M (Machine W) Recovery :=
  ret (mkRecovery "stop" (Some "unknown_error") None).

(** Calling an entry of [errorHandlers]. *)
Definition run_handler (this : t) (handler : Handler) (error : Error)
    (stageName : string) (context : Context) : M (Machine W) Recovery :=
  match handler with
  | HStageError => handleStageError this error stageName context
  | HDatabaseError => handleDatabaseError error stageName context
  | HValidationError => handleValidationError error stageName context
  | HCustom f => call (f error stageName context)
  end.

(** Calling the member of [Object.prototype] found under the kind of
    the error.  A value whose constructor bears such a name is an
    object: [Object(error)] is the error itself, [toString()] a string,
    and the other members throw. *)
Definition run_member (errorType : string) : M (Machine W) Recovery :=
  if String.eqb errorType "constructor" then undetermined ErrorAsAnswer
  else if member_returns errorType true then ret Opaque
  else throw (type_error "not a function, or called without receiver").

(** [handle(error, stageName, context)], with the call and the use of
    the kind dispatch recorded in the event log. *)
Definition handle (this : t) (error : Exn) (stageName : string)
    (context : Context) : M (Machine W) Recovery :=
  log (EvHandle stageName error (attempt context)) >>
  updateStats error stageName >>
  match get (recoveryStrategies this) stageName with
  | Own _ | Inherited => handleStageError this error stageName context
  | Beyond => undetermined InstalledPrototype
  | Absent =>
      match error with
      | Raised e =>
          let errorType := ctor_name e in
          log (EvDispatch errorType) >>
          let rethrow := fun handlerError : Exn => throw handlerError in
          match get (errorHandlers this) errorType with
          | Own h => try_catch (run_handler this h e stageName context) rethrow
          | Inherited => try_catch (run_member errorType) rethrow
          | Absent => try_catch (handleUnknownError e stageName context) rethrow
          | Beyond => undetermined InstalledPrototype
          end
      | _ => throw no_constructor
      end
  end.

End ErrorHandler.
Arguments t W : clear implicits.
Arguments Handler W : clear implicits.
End ErrorHandler.

(** ** ActionHandler.js *)
Module ActionHandler.
Section ActionHandler.
Context {W : Type}.

(** [async (data, context) => void]; the context is part of the store.
    An action name is [None] when it is [null] or [undefined]; the
    guard [!actionType] also catches the empty string. *)
Definition Handler : Type := JSVal -> Store W -> Outcome unit * Store W.

(** [this.handlers], and whether a logger was given. *)
Record t : Type := mk {
  handlers : gmap string Handler;
  logger : bool
}.

Definition new (logger : bool) : t := {| handlers := ∅; logger := logger |}.

(** [register]; its [typeof handler !== 'function'] guard cannot fire
    on a [Handler]. *)
Definition register (this : t) (actionType : string) (handler : Handler) : t :=
  {| handlers := <[actionType := handler]> (handlers this); logger := logger this |}.

Definition updateStats (actionType : string) : M (Machine W) unit :=
  modify (fun m =>
    let st := stats m in
    set_stats
      {| handled := S (handled st);
         byAction := bump (byAction st) actionType;
         failed := failed st |}
      m).

Definition count_failed : M (Machine W) unit :=
  modify (fun m =>
    let st := stats m in
    set_stats
      {| handled := handled st; byAction := byAction st; failed := S (failed st) |}
      m).

(** [await handler(data, context)] for what [this.handlers[actionType]]
    found. *)
Definition run_found (actionType : string) (found : Slot Handler) (data : JSVal)
    : M (Machine W) unit :=
  match found with
  | Own handler => call (handler data)
  | Inherited =>
      if member_returns actionType (is_object data) then ret tt
      else throw (type_error "not a function, or called without receiver")
  | _ => ret tt
  end.

Definition handle (this : t) (actionType : option string) (data : JSVal)
    : M (Machine W) bool :=
  let data := match data with VUndefined => VObj [] | _ => data end in
  match actionType with
  | None => ret false
  | Some actionType =>
      if String.eqb actionType "" then ret false
      else
        match get (handlers this) actionType with
        | Absent => ret false
        | Beyond => undetermined InstalledPrototype
        | found =>
            try_catch
              (run_found actionType found data >>
               updateStats actionType >>
               ret true)
              (fun error => count_failed >> throw error)
        end
  end.

(** The [catch] block of [handleAll]: with a logger, [error.message]
    is read. *)
Definition log_failure (this : t) (error : Exn) : M (Machine W) unit :=
  if logger this then
    match error with
    | Nullish => throw (type_error "Cannot read properties of undefined")
    | _ => ret tt
    end
  else ret tt.

(** [handleAll] over an array of [{ action, data }] objects. *)
Fixpoint handleAll (this : t) (actions : list (option string * JSVal))
    : M (Machine W) unit :=
  match actions with
  | [] => ret tt
  | (action, data) :: rest =>
      try_catch (handle this action data >> ret tt) (log_failure this) >>
      handleAll this rest
  end.

(** [Object.keys(this.handlers)], in some order: an installed
    prototype is not a key. *)
Definition getRegistered (this : t) : list string :=
  (map_to_list (delete "__proto__" (handlers this))).*1.

Definition clear (this : t) : t := {| handlers := ∅; logger := logger this |}.

End ActionHandler.
Arguments t W : clear implicits.
Arguments Handler W : clear implicits.
End ActionHandler.

(** ** Pipeline.js *)
Module Pipeline.
Section Pipeline.
Context {W : Type}.

(** A stage: the function's [name] property and its behaviour when
    called with [(message, context)].  It resolves to a plain object,
    or to a value without properties of its own ([None]). *)
Record Stage : Type := mkStage {
  name : string;
  run : Store W -> Outcome (option JSObj) * Store W
}.

Record t : Type := mk {
  stages : list Stage;
  hooks : option (HookManager.t W);
  errorHandler : option (ErrorHandler.t W)
}.

Definition new (stages : list Stage) : t :=
  {| stages := stages; hooks := None; errorHandler := None |}.

Definition use (this : t) (stage : Stage) : t :=
  {| stages := stages this ++ [stage];
     hooks := hooks this; errorHandler := errorHandler this |}.

Definition setHooks (this : t) (hookManager : HookManager.t W) : t :=
  {| stages := stages this;
     hooks := Some hookManager; errorHandler := errorHandler this |}.

Definition setErrorHandler (this : t) (eh : ErrorHandler.t W) : t :=
  {| stages := stages this;
     hooks := hooks this; errorHandler := Some eh |}.

(** [stage.name || 'anonymous'] *)
Definition stage_name (stage : Stage) : string :=
  if String.eqb (name stage) "" then "anonymous" else name stage.

(** [this.errorHandler?.recoveryStrategies[stageName]?.maxRetries ?? 3];
    [None] when the lookup ends [Beyond]. *)
Definition max_attempts (this : t) (stageName : string) : option Z :=
  match errorHandler this with
  | Some eh =>
      match get (ErrorHandler.recoveryStrategies eh) stageName with
      | Own s => Some (num_nullish (ErrorHandler.maxRetries s) 3)
      | Inherited | Absent => Some 3%Z
      | Beyond => None
      end
  | None => Some 3%Z
  end.

(** [if (this.hooks) await this.hooks.emit(hookName, data)] *)
Definition emit_hook (this : t) (hookName : string) (data : Payload)
    : M (Machine W) unit :=
  match hooks this with
  | Some h => HookManager.emit h hookName data
  | None => ret tt
  end.

(** [await stage(message, context)], with the call and its outcome
    recorded in the event log. *)
Definition invoke (idx : nat) (stageName : string) (stage : Stage)
    : M (Machine W) (option JSObj) :=
  log (EvInvoke idx stageName) >>
  try_catch
    (let* stageResult := call (run stage) in
     log (EvReturned idx stageResult) >>
     ret stageResult)
    (fun error => log (EvThrew idx error) >> throw error).

(** [message._actions.push(action); result.actions.push(action)] *)
Definition push_action (a : ActionRecord) (result : RunResult)
    : M (Machine W) RunResult :=
  modify (fun m =>
    set_store
      {| world := world (store m);
         msg_actions := msg_actions (store m) ++ [a];
         now := now (store m);
         returned := returned (store m);
         handed := handed (store m) |} m) >>
  ret {| stop := stop result; metadata := metadata result;
         actions := actions result ++ [a];
         error := error result; errorStage := errorStage result |}.

(** [result.stop = true; result.metadata = {...result.metadata, ...stageResult}] *)
Definition halted (stageResult : JSObj) (result : RunResult) : RunResult :=
  {| stop := true; metadata := spread (metadata result) stageResult;
     actions := actions result;
     error := error result; errorStage := errorStage result |}.

(** [result.stop = true; result.error = error; result.errorStage = stageName] *)
Definition failed_at (e : Exn) (stageName : string) (result : RunResult)
    : RunResult :=
  {| stop := true; metadata := metadata result; actions := actions result;
     error := Some e; errorStage := Some stageName |}.

(** [if (stageResult?.action) { const action = { ... }; ... }] *)
Definition collect_action (stageName : string) (stageResult : option JSObj)
    (result : RunResult) : M (Machine W) RunResult :=
  if truthy (opt_prop stageResult "action") then
    let* m := get_state in
    push_action
      {| action := opt_prop stageResult "action";
         data := or_else (opt_prop stageResult "data") (VObj []);
         stage := stageName;
         timestamp := now (store m) |}
      result
  else ret result.

(** The [after:stage] emission.  The listeners are handed the object
    the stage returned itself: it is in the store while they run, and
    what it has become is what [process] goes on with. *)
Definition show_returned (this : t) (stageName : string)
    (stageResult : option JSObj) : M (Machine W) (option JSObj) :=
  match hooks this, stageResult with
  | Some h, Some o =>
      modify (fun m => set_store (set_returned o (store m)) m) >>
      HookManager.emit h "after:stage" (PStageResult stageName stageResult) >>
      let* m := get_state in
      ret (Some (returned (store m)))
  | Some h, None =>
      HookManager.emit h "after:stage" (PStageResult stageName stageResult) >>
      ret None
  | None, _ => ret stageResult
  end.

(** [if (stageResult?.stop) { ... }] *)
Definition heed_stop (stageResult : option JSObj) (result : RunResult) : RunResult :=
  match stageResult with
  | Some o => if truthy (prop o "stop") then halted o result else result
  | None => result
  end.

(** The [try] block of one pass of the [while] loop.  It yields the
    new values of [stageComplete], [attempt] and [result]. *)
Definition try_stage (this : t) (idx : nat) (stage : Stage)
    (stageName : string) (attempt : Z) (result : RunResult)
    : M (Machine W) (bool * Z * RunResult) :=
  emit_hook this "before:stage" (PStage stageName) >>
  let* stageResult := invoke idx stageName stage in
  let* result := collect_action stageName stageResult result in
  let* stageResult := show_returned this stageName stageResult in
  ret (true, attempt, heed_stop stageResult result).

(** What reading [recovery.action] throws on [undefined] or [null]. *)
Definition no_recovery : Error := type_error "Cannot read properties of undefined".

(** The branches on [recovery.action] of the [catch] block;
    [maxAttempts] is [None] when its lookup ended [Beyond]. *)
Definition recovered (maxAttempts : option Z) (attempt : Z) (result : RunResult)
    (error : Exn) (stageName : string) (recovery : ErrorHandler.Recovery)
    : Res (bool * Z * RunResult) :=
  match recovery with
  | ErrorHandler.NoAnswer => Throw no_recovery
  | _ =>
      if bool_decide (ErrorHandler.action recovery = Some "stop") then
        Ok (true, attempt, failed_at error stageName result)
      else if bool_decide (ErrorHandler.action recovery = Some "skip") then
        Ok (true, attempt, result)
      else if bool_decide (ErrorHandler.action recovery = Some "retry") then
        match maxAttempts with
        | Some maxAttempts =>
            if (attempt >=? maxAttempts)%Z then
              Ok (true, attempt, failed_at error stageName result)
            else
              Ok (false, attempt, result)
        | None => Undetermined InstalledPrototype
        end
      else
        Ok (true, attempt, result)
  end.

(** The [catch (error)] block. *)
Definition catch_stage (this : t) (stageName : string) (maxAttempts : option Z)
    (attempt : Z) (result : RunResult) (error : Exn)
    : M (Machine W) (bool * Z * RunResult) :=
  let attempt := (attempt + 1)%Z in
  emit_hook this "error:stage" (PStageError stageName error) >>
  match errorHandler this with
  | Some eh =>
      let* recovery :=
        ErrorHandler.handle eh error stageName
          (ErrorHandler.mkContext (Some attempt)) in
      settle (recovered maxAttempts attempt result error stageName recovery)
  | None => ret (true, attempt, result)
  end.

(** [while (!stageComplete) { try { ... } catch (error) { ... } }],
    given [fuel] passes.  Every mutation of [result] inside [try] comes
    after the last call that can throw, so the [catch] block sees the
    [result] the pass started with. *)
Fixpoint stage_loop (fuel : nat) (this : t) (idx : nat) (stage : Stage)
    (stageName : string) (maxAttempts : option Z) (attempt : Z)
    (result : RunResult) : M (Machine W) RunResult :=
  match fuel with
  | O => undetermined NoFuel
  | S fuel' =>
      let* (stageComplete, attempt, result) :=
        try_catch
          (try_stage this idx stage stageName attempt result)
          (catch_stage this stageName maxAttempts attempt result) in
      if stageComplete : bool then ret result
      else stage_loop fuel' this idx stage stageName maxAttempts attempt result
  end.

(** The passes given to the loop of a stage: one more than
    [maxAttempts], so that no bound on the passes comes from the fuel. *)
Definition passes_given (maxAttempts : option Z) : nat :=
  S (Z.to_nat (default 0%Z maxAttempts)).

(** One pass of [for (const stage of this.stages)], up to the
    [if (result.stop) break].  The loop is entered with [attempt = 0]. *)
Definition run_stage (this : t) (idx : nat) (stage : Stage)
    (result : RunResult) : M (Machine W) RunResult :=
  let stageName := stage_name stage in
  let maxAttempts := max_attempts this stageName in
  stage_loop (passes_given maxAttempts) this idx stage stageName
    maxAttempts 0 result.

Fixpoint run_stages (this : t) (idx : nat) (rest : list Stage)
    (result : RunResult) : M (Machine W) RunResult :=
  match rest with
  | [] => ret result
  | stage :: rest =>
      let* result := run_stage this idx stage result in
      if stop result then ret result
      else run_stages this (S idx) rest result
  end.

(** The [after:pipeline] emission and [return result].  The listeners
    are handed the result itself: it is in the store while they run,
    and what it has become is what [process] returns. *)
Definition show_result (this : t) (result : RunResult) : M (Machine W) RunResult :=
  match hooks this with
  | Some h =>
      modify (fun m => set_store (set_handed result (store m)) m) >>
      HookManager.emit h "after:pipeline" (PPipelineResult result) >>
      let* m := get_state in
      ret (handed (store m))
  | None => ret result
  end.

(** [process(message, context)].  The initialisation of an absent
    [message._actions] to [[]] is the identity on the store. *)
Definition process (this : t) : M (Machine W) RunResult :=
  let result :=
    {| stop := false; metadata := ∅; actions := [];
       error := None; errorStage := None |} in
  emit_hook this "before:pipeline" PMessage >>
  let* result := run_stages this 0 (stages this) result in
  show_result this result.



End Pipeline.
Arguments t W : clear implicits.
Arguments Stage W : clear implicits.
End Pipeline.

(** ** BotManager.js *)

(** The manager of the bot instances of the clients.  Its methods are
    taken one call at a time, and a bot, its adapter and their
    constructors act on the world, not on the manager that holds
    them. *)
Module BotManager.
Section BotManager.
Context {W C Adapter : Type}.

(** A bot instance, as far as the manager uses it: [start()], and
    [stop()] when the instance has one ([bot.stop?.()]). *)
Record Bot : Type := mkBot {
  start : W -> Outcome unit * W;
  stop : option (W -> Outcome unit * W)
}.

(** An entry of [this.bots]: [{ bot, config, status }]. *)
Record Entry : Type := mkEntry {
  bot : Bot;
  config : C;
  status : string
}.

(** [this.bots], a [Map] from client ids to entries, in insertion
    order, together with the world the bots act on. *)
Record t : Type := mk {
  bots : list (string * Entry);
  world : W
}.

Definition set_bots (l : list (string * Entry)) (this : t) : t :=
  {| bots := l; world := world this |}.

Definition set_world (w : W) (this : t) : t :=
  {| bots := bots this; world := w |}.

(** The constructor. *)
Definition new (w : W) : t := {| bots := []; world := w |}.

(** [Map.prototype.get] *)
Fixpoint map_get (clientId : string) (l : list (string * Entry)) : option Entry :=
  match l with
  | [] => None
  | (k, v) :: rest => if String.eqb k clientId then Some v else map_get clientId rest
  end.

(** [Map.prototype.set]: a key that is present keeps its place. *)
Fixpoint map_set (clientId : string) (entry : Entry) (l : list (string * Entry))
    : list (string * Entry) :=
  match l with
  | [] => [(clientId, entry)]
  | (k, v) :: rest =>
      if String.eqb k clientId then (k, entry) :: rest
      else (k, v) :: map_set clientId entry rest
  end.

(** [Map.prototype.delete] *)
Fixpoint map_delete (clientId : string) (l : list (string * Entry))
    : list (string * Entry) :=
  match l with
  | [] => []
  | (k, v) :: rest =>
      if String.eqb k clientId then map_delete clientId rest
      else (k, v) :: map_delete clientId rest
  end.

(** A call into a bot, an adapter factory or a constructor. *)
Definition call {A} (f : W -> Outcome A * W) : M t A :=
  fun this =>
    match f (world this) with
    | (Returned a, w) => (Ok a, set_world w this, [])
    | (Thrown e, w) => (Throw e, set_world w this, [])
    end.

(** What [undefined.status = ...] throws. *)
Definition no_entry : Error := type_error "Cannot set properties of undefined".

Definition removeBot (clientId : string) : M t unit :=
  let* this := get_state in
  match map_get clientId (bots this) with
  | Some entry =>
      match stop (bot entry) with
      | Some f => call f
      | None => ret tt
      end >>
      modify (fun this => set_bots (map_delete clientId (bots this)) this)
  | None => ret tt
  end.

(** [addBot(clientId, config, BotEngine, createAdapter)] *)
Definition addBot (clientId : string) (config : C)
    (BotEngine : Adapter -> C -> W -> Outcome Bot * W)
    (createAdapter : C -> W -> Outcome Adapter * W) : M t Bot :=
  removeBot clientId >>
  let* adapter := call (createAdapter config) in
  let* bot := call (BotEngine adapter config) in
  modify (fun this =>
    set_bots (map_set clientId (mkEntry bot config "stopped") (bots this)) this) >>
  call (start bot) >>
  (let* this := get_state in
   match map_get clientId (bots this) with
   | Some entry =>
       modify (set_bots
         (map_set clientId (mkEntry (BotManager.bot entry) (BotManager.config entry) "running")
            (bots this)))
   | None => throw no_entry
   end) >>
  ret bot.

Definition updateBot (clientId : string) (newConfig : C)
    (BotEngine : Adapter -> C -> W -> Outcome Bot * W)
    (createAdapter : C -> W -> Outcome Adapter * W) : M t Bot :=
  removeBot clientId >>
  addBot clientId newConfig BotEngine createAdapter.

Definition getBot (this : t) (clientId : string) : option Bot :=
  bot <$> map_get clientId (bots this).

Definition listBots (this : t) : list string := (bots this).*1.

Definition getStatus (this : t) (clientId : string) : string :=
  match map_get clientId (bots this) with
  | Some entry => status entry
  | None => "not found"
  end.

End BotManager.
Arguments Bot W : clear implicits.
Arguments Entry W C : clear implicits.
Arguments t W C : clear implicits.
End BotManager.

(** ** Observations on event logs *)
Module Obs.

(** The events of the engine itself: every event but the reports of
    failed listeners, whose number is up to the listeners. *)
Definition is_core (e : Event) : bool :=
  match e with
  | EvConsoleError _ _ => false
  | _ => true
  end.

Definition core (t : list Event) : list Event := List.filter is_core t.

(** The events [handle] produces after it was entered. *)
Definition is_inner (e : Event) : bool :=
  match e with
  | EvDispatch _ | EvSleep _ => true
  | _ => false
  end.

(** The hook names emitted, in order. *)
Definition hook_names (t : list Event) : list string :=
  omap (fun e => match e with EvEmit h _ => Some h | _ => None end) t.

(** The stage names carried by the [before:stage] emissions, in order. *)
Definition before_stage_names (t : list Event) : list string :=
  omap (fun e =>
          match e with
          | EvEmit h (PStage n) =>
              if String.eqb h "before:stage" then Some n else None
          | _ => None
          end) t.

(** The stage calls, in order: position in [stages] and stage name. *)
Definition invoked (t : list Event) : list (nat * string) :=
  omap (fun e => match e with EvInvoke i n => Some (i, n) | _ => None end) t.

(** How many times the stage at position [i] was called. *)
Definition calls_of (i : nat) (t : list Event) : nat :=
  length (List.filter (fun c => Nat.eqb (fst c) i) (invoked t)).

(** How many [before:stage] emissions carried the name [n]. *)
Definition before_stage_count (n : string) (t : list Event) : nat :=
  length (List.filter (String.eqb n) (before_stage_names t)).

(** How many calls were made to stages processed under the name [n]. *)
Definition calls_named (n : string) (t : list Event) : nat :=
  length (List.filter (String.eqb n) (invoked t).*2).

(** The [after:stage] and [error:stage] emissions, in order. *)
Definition closing_hooks (t : list Event) : list string :=
  omap (fun e =>
          match e with
          | EvEmit h _ =>
              if String.eqb h "after:stage" || String.eqb h "error:stage"
              then Some h else None
          | _ => None
          end) t.

(** The hook each stage call should be closed with: [after:stage] for
    a call that returned, [error:stage] for a call that threw. *)
Definition outcome_hooks (t : list Event) : list string :=
  omap (fun e =>
          match e with
          | EvReturned _ _ => Some "after:stage"
          | EvThrew _ _ => Some "error:stage"
          | _ => None
          end) t.

(** The [console.error] calls of [emit], in order. *)
Definition console_errors (t : list Event) : list (string * Exn) :=
  omap (fun e => match e with EvConsoleError h err => Some (h, err) | _ => None end) t.

(** The stage calls that threw, in order: position and thrown value. *)
Definition threw (t : list Event) : list (nat * Exn) :=
  omap (fun e => match e with EvThrew i err => Some (i, err) | _ => None end) t.

(** The calls of [handle], in order: stage name and error. *)
Definition handle_calls (t : list Event) : list (string * Exn) :=
  omap (fun e => match e with EvHandle n err _ => Some (n, err) | _ => None end) t.

(** The stage names [handle] was called with, in order. *)
Definition handled_names (t : list Event) : list string :=
  omap (fun e => match e with EvHandle n _ _ => Some n | _ => None end) t.

(** The stage names carried by the hook payloads, in order. *)
Definition payload_names (t : list Event) : list string :=
  omap (fun e =>
          match e with
          | EvEmit _ (PStage n) | EvEmit _ (PStageResult n _)
          | EvEmit _ (PStageError n _) => Some n
          | _ => None
          end) t.

(** The error kinds the kind dispatch of [handle] was consulted for. *)
Definition dispatches (t : list Event) : list string :=
  omap (fun e => match e with EvDispatch k => Some k | _ => None end) t.

(** The position in the stage list an event is about, when it is about
    a stage call. *)
Definition position (e : Event) : option nat :=
  match e with
  | EvInvoke i _ | EvReturned i _ | EvThrew i _ => Some i
  | _ => None
  end.

(** The delays waited for, in order. *)
Definition sleeps (t : list Event) : list Z :=
  omap (fun e => match e with EvSleep ms => Some ms | _ => None end) t.

(** Hook names of the passes of the stage loops as the code emits them:
    every pass starts with [before:stage] and ends with [after:stage]
    when the stage returned, with [error:stage] when it threw. *)
Inductive passes : list string -> Prop :=
| passes_nil : passes []
| passes_returned rest :
    passes rest -> passes ("before:stage" :: "after:stage" :: rest)
| passes_threw rest :
    passes rest -> passes ("before:stage" :: "error:stage" :: rest).

(** Hook names per executed stage as the specification words them:
    [before:stage], optionally [error:stage], then [after:stage]. *)
Inductive spec_stages : list string -> Prop :=
| spec_stages_nil : spec_stages []
| spec_stages_plain rest :
    spec_stages rest -> spec_stages ("before:stage" :: "after:stage" :: rest)
| spec_stages_error rest :
    spec_stages rest ->
    spec_stages ("before:stage" :: "error:stage" :: "after:stage" :: rest).

(** The emission order of a whole run, as the specification words it. *)
Definition spec_hook_order (names : list string) : Prop :=
  exists body,
    names = "before:pipeline" :: body ++ ["after:pipeline"] /\ spec_stages body.

End Obs.
Export Obs.

(** ** Reference descriptions used by the statements *)
Module Ref.

(** An outcome other than [Ok], carried to another type. *)
Definition carry {A B : Type} (r : Res A) : option (Res B) :=
  match r with
  | Ok _ => None
  | Throw e => Some (Throw e)
  | Undetermined why => Some (Undetermined why)
  end.

(** No prototype was installed in the table. *)
Definition plain {A : Type} (table : gmap string A) : Prop :=
  table !! "__proto__" = None.

(** [errorStats] after [total++], and after the whole of [updateStats]
    for a value with a constructor. *)
Definition counted_once (st : ErrorStats) : ErrorStats :=
  {| total := S (total st); byType := byType st; byStage := byStage st |}.

Definition counted_error (e : Error) (stageName : string) (st : ErrorStats)
    : ErrorStats :=
  {| total := S (total st);
     byType := bump (byType st) (ctor_name e);
     byStage := bump (byStage st) stageName |}.

(** [errorStats] after [updateStats] was called, whether it returned
    or threw. *)
Definition counted (error : Exn) (stageName : string) (st : ErrorStats)
    : ErrorStats :=
  match error with
  | Raised e => counted_error e stageName st
  | _ => counted_once st
  end.

(** [errorStats] after the calls of [handle] of an event log. *)
Fixpoint tally (t : list Event) (st : ErrorStats) : ErrorStats :=
  match t with
  | [] => st
  | EvHandle n error _ :: t => tally t (counted error n st)
  | _ :: t => tally t st
  end.

(** The count kept under a key of a statistics table. *)
Definition count_at (table : gmap string Counter) (k : string) : nat :=
  match table !! k with
  | Some (Count n) => n
  | _ => 0
  end.

(** The passes the loop of a stage needs when entered with [attempt = a]. *)
Definition passes_needed (maxAttempts : option Z) (a : Z) : nat :=
  Z.to_nat (Z.max 1 (default 0%Z maxAttempts - a)).

Section Ref.
Context {W : Type}.

(** The store after the callbacks ran one after the other, in list
    order, each from the store its predecessor left, whether it
    returned or threw. *)
Definition run_listeners (data : Payload)
    (callbacks : list (HookManager.Listener W)) (s : Store W) : Store W :=
  fold_left (fun s callback => (callback data s).2) callbacks s.

(** The values thrown by the callbacks in such a run, in order. *)
Fixpoint thrown_by (data : Payload)
    (callbacks : list (HookManager.Listener W)) (s : Store W) : list Exn :=
  match callbacks with
  | [] => []
  | callback :: rest =>
      match callback data s with
      | (Thrown e, s') => e :: thrown_by data rest s'
      | (Returned _, s') => thrown_by data rest s'
      end
  end.

(** Events that only a pipeline with a hook manager produces. *)
Definition when_hooked (this : Pipeline.t W) (t : list Event) : list Event :=
  match Pipeline.hooks this with
  | Some _ => t
  | None => []
  end.

(** The machine after an emission of the pipeline. *)
Definition emitted (this : Pipeline.t W) (hookName : string) (data : Payload)
    (m : Machine W) : Machine W :=
  match Pipeline.hooks this with
  | Some h =>
      set_store (run_listeners data (HookManager.listeners h hookName) (store m)) m
  | None => m
  end.

(** The pipeline events of a pass in which the stage returned. *)
Definition pass_returned (this : Pipeline.t W) (idx : nat) (n : string)
    (r : option JSObj) : list Event :=
  when_hooked this [EvEmit "before:stage" (PStage n)] ++
  [EvInvoke idx n; EvReturned idx r] ++
  when_hooked this [EvEmit "after:stage" (PStageResult n r)].

(** The pipeline events of a pass in which the stage threw. *)
Definition pass_threw (this : Pipeline.t W) (idx : nat) (n : string)
    (e : Exn) : list Event :=
  when_hooked this [EvEmit "before:stage" (PStage n)] ++
  [EvInvoke idx n; EvThrew idx e] ++
  when_hooked this [EvEmit "error:stage" (PStageError n e)].

(** What the [after:stage] listeners can make of the value [r] a stage
    returned. *)
Definition may_become (this : Pipeline.t W) (n : string)
    (r r' : option JSObj) : Prop :=
  match Pipeline.hooks this, r with
  | Some h, Some o =>
      exists s,
        r' = Some (returned
               (run_listeners (PStageResult n r)
                  (HookManager.listeners h "after:stage") (set_returned o s)))
  | _, _ => r' = r
  end.

(** What the [after:pipeline] listeners can make of the result. *)
Definition may_hand (this : Pipeline.t W) (result result' : RunResult) : Prop :=
  match Pipeline.hooks this with
  | Some h =>
      exists s,
        result' = handed
          (run_listeners (PPipelineResult result)
             (HookManager.listeners h "after:pipeline") (set_handed result s))
  | None => result' = result
  end.

(** The [after:stage] listeners leave the object they are handed as it
    is; so do the [after:pipeline] listeners with the result. *)
Definition keeps_returned (this : Pipeline.t W) : Prop :=
  forall h callback data s,
    Pipeline.hooks this = Some h ->
    callback ∈ HookManager.listeners h "after:stage" ->
    returned (callback data s).2 = returned s.

Definition keeps_result (this : Pipeline.t W) : Prop :=
  forall h callback data s,
    Pipeline.hooks this = Some h ->
    callback ∈ HookManager.listeners h "after:pipeline" ->
    handed (callback data s).2 = handed s.



(** The result before and after a pass in which the stage's value is
    [r] when [stop] is read: a truthy [stop] halts the run and merges
    [r] into the metadata; errors are not touched. *)
Definition returned_result (r : option JSObj) (before after : RunResult) : Prop :=
  error after = error before /\
  errorStage after = errorStage before /\
  match r with
  | Some o =>
      if truthy (prop o "stop")
      then stop after = true /\ metadata after = spread (metadata before) o
      else stop after = stop before /\ metadata after = metadata before
  | None => stop after = stop before /\ metadata after = metadata before
  end.

(** The stage can return [r] (can throw [e]) from some store. *)
Definition may_return (stage : Pipeline.Stage W) (r : option JSObj) : Prop :=
  exists s, (Pipeline.run stage s).1 = Returned r.

Definition may_throw (stage : Pipeline.Stage W) (e : Exn) : Prop :=
  exists s, (Pipeline.run stage s).1 = Thrown e.

(** [handle], called for the [a]-th failed attempt, can come back with
    [hr], having produced the events [ht]. *)
Definition answers (eh : ErrorHandler.t W) (e : Exn) (n : string) (a : Z)
    (hr : Res ErrorHandler.Recovery) (ht : list Event) : Prop :=
  exists m m' : Machine W,
    ErrorHandler.handle eh e n (ErrorHandler.mkContext (Some a)) m = (hr, m', ht).

(** What the [catch] block makes of the way [handle] came back. *)
Definition recover (maxAttempts : option Z) (attempt : Z) (result : RunResult)
    (error : Exn) (stageName : string) (hr : Res ErrorHandler.Recovery)
    : Res (bool * Z * RunResult) :=
  match hr with
  | Ok recovery => Pipeline.recovered maxAttempts attempt result error stageName recovery
  | Throw e => Throw e
  | Undetermined why => Undetermined why
  end.

(** The runs of the [while] loop of one stage, entered with [attempt = a]
    and given any number of passes: the events of the engine they
    produce and how they end. *)
Inductive slot_spec (this : Pipeline.t W) (idx : nat) (stage : Pipeline.Stage W)
    (n : string) (maxAttempts : option Z) (result : RunResult)
    : Z -> list Event -> Res RunResult -> Prop :=
| slot_no_fuel a :
    slot_spec this idx stage n maxAttempts result a [] (Undetermined NoFuel)
| slot_returned a r r' result' :
    may_return stage r ->
    may_become this n r r' ->
    returned_result r' result result' ->
    slot_spec this idx stage n maxAttempts result a
      (pass_returned this idx n r) (Ok result')
| slot_unhandled a e :
    Pipeline.errorHandler this = None ->
    may_throw stage e ->
    slot_spec this idx stage n maxAttempts result a
      (pass_threw this idx n e) (Ok result)
| slot_recovered a e eh hr ht result' :
    Pipeline.errorHandler this = Some eh ->
    may_throw stage e ->
    answers eh e n (a + 1) hr ht ->
    recover maxAttempts (a + 1) result e n hr = Ok (true, (a + 1)%Z, result') ->
    slot_spec this idx stage n maxAttempts result a
      (pass_threw this idx n e ++ ht) (Ok result')
| slot_broken a e eh hr ht out :
    Pipeline.errorHandler this = Some eh ->
    may_throw stage e ->
    answers eh e n (a + 1) hr ht ->
    carry (recover maxAttempts (a + 1) result e n hr) = Some out ->
    slot_spec this idx stage n maxAttempts result a
      (pass_threw this idx n e ++ ht) out
| slot_retry a e eh hr ht t out :
    Pipeline.errorHandler this = Some eh ->
    may_throw stage e ->
    answers eh e n (a + 1) hr ht ->
    recover maxAttempts (a + 1) result e n hr = Ok (false, (a + 1)%Z, result) ->
    slot_spec this idx stage n maxAttempts result (a + 1) t out ->
    slot_spec this idx stage n maxAttempts result a
      ((pass_threw this idx n e ++ ht) ++ t) out.

(** What an event of the loop of the stage at position [idx], processed
    under the name [n], looks like. *)
Definition slot_event (idx : nat) (n : string) (ev : Event) : Prop :=
  match ev with
  | EvEmit _ (PStage n') | EvEmit _ (PStageResult n' _)
  | EvEmit _ (PStageError n' _) | EvHandle n' _ _ => n' = n
  | EvInvoke j n' => j = idx /\ n' = n
  | EvReturned j _ | EvThrew j _ => j = idx
  | EvDispatch _ | EvSleep _ => True
  | _ => False
  end.

(** The runs of [for (const stage of this.stages)] from position [idx]. *)
Inductive run_spec (this : Pipeline.t W)
    : nat -> list (Pipeline.Stage W) -> RunResult -> list Event ->
      Res RunResult -> Prop :=
| run_done idx result :
    run_spec this idx [] result [] (Ok result)
| run_halt idx stage rest result t result' :
    slot_spec this idx stage (Pipeline.stage_name stage)
      (Pipeline.max_attempts this (Pipeline.stage_name stage)) result 0 t (Ok result') ->
    stop result' = true ->
    run_spec this idx (stage :: rest) result t (Ok result')
| run_broken idx stage rest result t out out' :
    slot_spec this idx stage (Pipeline.stage_name stage)
      (Pipeline.max_attempts this (Pipeline.stage_name stage)) result 0 t out ->
    carry out = Some out' ->
    run_spec this idx (stage :: rest) result t out'
| run_next idx stage rest result t result' t' out :
    slot_spec this idx stage (Pipeline.stage_name stage)
      (Pipeline.max_attempts this (Pipeline.stage_name stage)) result 0 t (Ok result') ->
    stop result' = false ->
    run_spec this (S idx) rest result' t' out ->
    run_spec this idx (stage :: rest) result (t ++ t') out.

(** The values thrown by the stage calls of an event log, each with the
    name its stage is processed under. *)
Definition thrown_under (stages : list (Pipeline.Stage W)) (t : list Event)
    : list (string * Exn) :=
  omap (fun x : nat * Exn =>
          (fun stage => (Pipeline.stage_name stage, x.2)) <$> stages !! x.1)
       (threw t).


(** The stage never halts the run by itself: from every store it returns
    without a truthy [stop], or it throws while no error handler is
    attached. *)
Definition benign (this : Pipeline.t W) (stage : Pipeline.Stage W) : Prop :=
  forall s,
    match (Pipeline.run stage s).1 with
    | Returned r => truthy (opt_prop r "stop") = false
    | Thrown _ => Pipeline.errorHandler this = None
    end.

(** Whether [ActionHandler.handle] finds something to call for an
    action: the name is neither absent nor empty, and the lookup finds
    a registered handler or a member of [Object.prototype]. *)
Definition dispatched (this : ActionHandler.t W) (a : option string * JSVal) : bool :=
  match a.1 with
  | Some n =>
      negb (String.eqb n "") &&
      match get (ActionHandler.handlers this) n with
      | Own _ | Inherited => true
      | _ => false
      end
  | None => false
  end.

(** No registered action handler throws [null] or [undefined]. *)
Definition handlers_throw_values (this : ActionHandler.t W) : Prop :=
  forall n (h : ActionHandler.Handler W) data s,
    ActionHandler.handlers this !! n = Some h -> (h data s).1 <> Thrown Nullish.

(** The result [process] starts from. *)
Definition initial_result : RunResult :=
  {| stop := false; metadata := ∅; actions := [];
     error := None; errorStage := None |}.

(** Position and processed name of the stages of a list starting at
    position [idx]. *)
Definition slots (idx : nat) (stages : list (Pipeline.Stage W)) : list (nat * string) :=
  imap (fun i stage => ((idx + i)%nat, Pipeline.stage_name stage)) stages.

(** The [action] answered for a strategy at a given attempt, as the
    [switch] of [handleStageError] decides it. *)
Definition strategy_action (s : ErrorHandler.Strategy) (attempt : Z) : string :=
  if String.eqb (ErrorHandler.strategy s) "stop" then "stop"
  else if String.eqb (ErrorHandler.strategy s) "skip" then "skip"
  else if String.eqb (ErrorHandler.strategy s) "retry" then
    if (attempt <? num_or (ErrorHandler.maxRetries s) 3)%Z then "retry" else "stop"
  else if String.eqb (ErrorHandler.strategy s) "fallback" then "fallback"
  else "stop".






End Ref.
End Ref.
Export Ref.

(** ** Scenarios *)
Module Scenario.

(** The world is the log of the user functions that ran. *)
Definition W : Type := list string.

Definition note (who : string) (s : Store W) : Store W :=
  {| world := world s ++ [who]; msg_actions := msg_actions s; now := now s;
     returned := returned s; handed := handed s |}.

(** Before a run nothing has been handed to a listener yet. *)
Definition s0 : Store W :=
  {| world := []; msg_actions := []; now := 0;
     returned := ∅; handed := initial_result |}.

Definition m0 : Machine W :=
  {| store := s0;
     errorStats := {| total := 0; byType := ∅; byStage := ∅ |};
     stats := {| handled := 0; byAction := ∅; failed := 0 |} |}.

Definition boom : Error :=
  {| ctor_name := "Error"; code := None; message := "boom" |}.

Definition returns (who : string) (r : option JSObj) : Pipeline.Stage W :=
  {| Pipeline.name := who; Pipeline.run := fun s => (Returned r, note who s) |}.

Definition throws_value (who : string) (e : Exn) : Pipeline.Stage W :=
  {| Pipeline.name := who; Pipeline.run := fun s => (Thrown e, note who s) |}.

Definition throws (who : string) : Pipeline.Stage W := throws_value who boom.





(** The same stages, with a listener on ['after:pipeline'] that does
    [data.result.stop = false] and deletes the diagnostic fields. *)
Definition acquit : HookManager.Listener W :=
  fun _ s =>
    (Returned tt,
     set_handed {| stop := false; metadata := metadata (handed s);
                   actions := actions (handed s);
                   error := None; errorStage := None |} s).

Definition acquitting : HookManager.t W :=
  HookManager.on HookManager.new "after:pipeline" acquit.


(** [flakey] with [registerRecoveryStrategy('flakey', 'retry',
    { maxRetries: 3, backoffMs: 0 })]. *)
Definition retrying : ErrorHandler.t W :=
  ErrorHandler.registerRecoveryStrategy ErrorHandler.new "flakey" "retry"
    (Some 3%Z) (Some 0%Z).

Definition flakey_pipeline : Pipeline.t W :=
  Pipeline.setErrorHandler
    (Pipeline.use (Pipeline.new []) (throws "flakey")) retrying.



(** A [flakey] that does [throw null]. *)
Definition null_flakey_pipeline : Pipeline.t W :=
  Pipeline.setErrorHandler
    (Pipeline.use (Pipeline.new []) (throws_value "flakey" Nullish)) retrying.

(** One throwing stage, hooks attached, no error handler. *)
Definition observed_pipeline : Pipeline.t W :=
  Pipeline.setHooks (Pipeline.use (Pipeline.new []) (throws "bad")) HookManager.new.

(** One throwing stage and a handler for its error kind that throws
    the error it was given. *)
Definition crashing : ErrorHandler.t W :=
  ErrorHandler.registerErrorHandler ErrorHandler.new "Error"
    (ErrorHandler.HCustom (fun e _ _ s => (Thrown e, note "handler" s))).


(** The same stage and a handler for its error kind that resolves to
    [undefined]. *)
Definition mute : ErrorHandler.t W :=
  ErrorHandler.registerErrorHandler ErrorHandler.new "Error"
    (ErrorHandler.HCustom
       (fun _ _ _ s => (Returned ErrorHandler.NoAnswer, note "handler" s))).

Definition mute_pipeline : Pipeline.t W :=
  Pipeline.setErrorHandler (Pipeline.use (Pipeline.new []) (throws "bad")) mute.

(** A stage that does [throw null], with the built-in handlers only. *)
Definition null_pipeline : Pipeline.t W :=
  Pipeline.setErrorHandler
    (Pipeline.use (Pipeline.new []) (throws_value "bad" Nullish)) ErrorHandler.new.

(** A stage that throws an instance of [class valueOf extends Error],
    with the built-in handlers only. *)
Definition odd : Error :=
  {| ctor_name := "valueOf"; code := None; message := "odd" |}.

Definition odd_pipeline : Pipeline.t W :=
  Pipeline.setErrorHandler
    (Pipeline.use (Pipeline.new []) (throws_value "bad" odd)) ErrorHandler.new.

(** Errors for the kind dispatch. *)
Definition refused : Error :=
  {| ctor_name := "DatabaseError"; code := Some "ECONNREFUSED"; message := "refused" |}.

Definition weird : Error :=
  {| ctor_name := "WeirdError"; code := None; message := "weird" |}.

(** Three listeners on ['ev']; the second throws. *)
Definition listener (who : string) (fails : bool) : HookManager.Listener W :=
  fun _ s => (if fails then Thrown (Raised boom) else Returned tt, note who s).

(** Action handlers. *)
Definition actions_registry : ActionHandler.t W :=
  ActionHandler.register
    (ActionHandler.register (ActionHandler.new false) "ping"
       (fun _ s => (Returned tt, note "ping" s)))
    "boom" (fun _ s => (Thrown (Raised boom), note "boom" s)).

(** An action handler that does [throw null], registered in an
    [ActionHandler] that was given a logger. *)
Definition logged_registry : ActionHandler.t W :=
  ActionHandler.register (ActionHandler.new true) "void"
    (fun _ s => (Thrown Nullish, note "void" s)).



(** [flakey] again, with a hook manager attached. *)
Definition observed_flakey_pipeline : Pipeline.t W :=
  Pipeline.setHooks flakey_pipeline HookManager.new.

End Scenario.

(** ** Further scenarios *)
Module Cases.
Import Scenario.

(** [{ action: 'reply' }] *)
Definition reply : JSObj := <["action" := VStr "reply"]> ∅.

(** Three stages that return; the second declares an action. *)
Definition calm_pipeline : Pipeline.t W :=
  Pipeline.new [returns "a" None; returns "b" (Some reply); returns "c" None].

(** A stage that throws and one that returns, no error handler. *)
Definition mixed_pipeline : Pipeline.t W :=
  Pipeline.new [throws "bad"; returns "after" None].

(** The same stages, with [registerRecoveryStrategy('bad', 'stop')]. *)
Definition stopping : ErrorHandler.t W :=
  ErrorHandler.registerRecoveryStrategy ErrorHandler.new "bad" "stop" None None.

Definition stopping_pipeline : Pipeline.t W :=
  Pipeline.setErrorHandler mixed_pipeline stopping.

(** The same, with the listener on ['after:pipeline'] that clears the
    result. *)
Definition acquitted_stopping_pipeline : Pipeline.t W :=
  Pipeline.setHooks stopping_pipeline acquitting.

(** The same stages, with [registerRecoveryStrategy('bad', 'skip')]. *)
Definition skipping_bad : ErrorHandler.t W :=
  ErrorHandler.registerRecoveryStrategy ErrorHandler.new "bad" "skip" None None.

Definition skipping_pipeline : Pipeline.t W :=
  Pipeline.setErrorHandler mixed_pipeline skipping_bad.

(** A strategy name the [switch] does not know. *)
Definition ignoring : ErrorHandler.t W :=
  ErrorHandler.registerRecoveryStrategy ErrorHandler.new "bad" "ignore" None None.

Definition invalid : Error :=
  {| ctor_name := "ValidationError"; code := None; message := "invalid" |}.

Definition stage_error : Error :=
  {| ctor_name := "StageError"; code := None; message := "stage" |}.

(** A kind handler that answers [skip]. *)
Definition lenient (e : Error) (n : string) (c : ErrorHandler.Context) (s : Store W)
    : Outcome ErrorHandler.Recovery * Store W :=
  (Returned (ErrorHandler.mkRecovery "skip" (Some "lenient") None), note "lenient" s).

(** One listener on ['before:stage']. *)
Definition watching : HookManager.t W :=
  HookManager.on HookManager.new "before:stage" (listener "seen" false).

(** A listener on a hook named ['__proto__']. *)
Definition odd_hooks : HookManager.t W :=
  HookManager.on HookManager.new "__proto__" (listener "seen" false).

(** Two stages that return, the first one a stop signal only after the
    listener on ['after:stage'] did [data.result.stop = true]. *)
Definition block : HookManager.Listener W :=
  fun _ s => (Returned tt, set_returned (<["stop" := VBool true]> (returned s)) s).

Definition blocking_pipeline : Pipeline.t W :=
  Pipeline.setHooks (Pipeline.new [returns "a" (Some ∅); returns "b" None])
    (HookManager.on HookManager.new "after:stage" block).

(** Bots that write to a log; the configuration is their token. *)
Definition fake_bot (token : string) (starts stops : bool) : BotManager.Bot (list string) :=
  {| BotManager.start := fun w =>
       (if starts then Returned tt else Thrown (Raised boom), w ++ ["start " +:+ token]);
     BotManager.stop := Some (fun w =>
       (if stops then Returned tt else Thrown (Raised boom), w ++ ["stop " +:+ token])) |}.

Definition createAdapter (config : string) (w : list string)
    : Outcome string * list string :=
  (Returned ("adapter " +:+ config), w).

Definition FakeBotEngine (adapter config : string) (w : list string)
    : Outcome (BotManager.Bot (list string)) * list string :=
  (Returned (fake_bot config true true), w).

(** An engine whose bots do not start, and one whose bots do not stop. *)
Definition DeadBotEngine (adapter config : string) (w : list string)
    : Outcome (BotManager.Bot (list string)) * list string :=
  (Returned (fake_bot config false true), w).

Definition StubbornBotEngine (adapter config : string) (w : list string)
    : Outcome (BotManager.Bot (list string)) * list string :=
  (Returned (fake_bot config true false), w).

Definition manager0 : BotManager.t (list string) string := BotManager.new [].

(** After [addBot('c1', 'old', ...)] and [addBot('c2', 'two', ...)]. *)
Definition manager2 : BotManager.t (list string) string :=
  (BotManager.addBot "c2" "two" FakeBotEngine createAdapter
     (BotManager.addBot "c1" "old" FakeBotEngine createAdapter manager0).1.2).1.2.

(** After [addBot('c1', 'old', ...)] with a bot that refuses to stop. *)
Definition manager_stubborn : BotManager.t (list string) string :=
  (BotManager.addBot "c1" "old" StubbornBotEngine createAdapter manager0).1.2.

End Cases.

(** * Properties *)

Section Basics.
Context {W : Type}.
Implicit Types (m : Machine W) (s : Store W) (t : list Event).

Lemma set_store_id m : set_store (store m) m = m.
Proof. by destruct m. Qed.

Lemma set_store_twice s1 s2 m : set_store s1 (set_store s2 m) = set_store s1 m.
Proof. done. Qed.

Lemma core_app t1 t2 : core (t1 ++ t2) = core t1 ++ core t2.
Proof. apply List.filter_app. Qed.

Lemma core_idem t : core (core t) = core t.
Proof.
  unfold core. induction t as [|e t IH]; [done|].
  simpl. destruct (is_core e) eqn:E; simpl; [rewrite E|]; by rewrite ?IH.
Qed.

(** A projection that ignores the reports of failed listeners sees the
    same in [core t] as in [t]. *)
Lemma omap_core {A : Type} (f : Event -> option A) t :
  (forall h e, f (EvConsoleError h e) = None) ->
  omap f (core t) = omap f t.
Proof.
  intros Hf. unfold core. induction t as [|e t IH]; [done|].
  destruct e; cbn; rewrite ?IH, ?Hf; done.
Qed.

Lemma hook_names_core t : hook_names (core t) = hook_names t.
Proof. by apply omap_core. Qed.

Lemma before_stage_names_core t : before_stage_names (core t) = before_stage_names t.
Proof. by apply omap_core. Qed.

Lemma invoked_core t : invoked (core t) = invoked t.
Proof. by apply omap_core. Qed.

Lemma closing_hooks_core t : closing_hooks (core t) = closing_hooks t.
Proof. by apply omap_core. Qed.

Lemma outcome_hooks_core t : outcome_hooks (core t) = outcome_hooks t.
Proof. by apply omap_core. Qed.

Lemma threw_core t : threw (core t) = threw t.
Proof. by apply omap_core. Qed.

Lemma payload_names_core t : payload_names (core t) = payload_names t.
Proof. by apply omap_core. Qed.

Lemma handle_calls_core t : handle_calls (core t) = handle_calls t.
Proof. by apply omap_core. Qed.

Lemma handled_names_core t : handled_names (core t) = handled_names t.
Proof. by apply omap_core. Qed.

Lemma dispatches_core t : dispatches (core t) = dispatches t.
Proof. by apply omap_core. Qed.


Lemma tally_app t1 t2 st : tally (t1 ++ t2) st = tally t2 (tally t1 st).
Proof.
  revert st. induction t1 as [|e t1 IH]; intros st; [done|].
  destruct e; simpl; by rewrite IH.
Qed.

Lemma tally_core t st : tally (core t) st = tally t st.
Proof.
  revert st. unfold core. induction t as [|e t IH]; intros st; [done|].
  destruct e; simpl; by rewrite IH.
Qed.

(** What [handle] produces once entered is seen by no projection but
    [sleeps] and [dispatches], and counts for nothing. *)
Lemma omap_inner {A : Type} (f : Event -> option A) t :
  forallb is_inner t = true ->
  (forall k, f (EvDispatch k) = None) -> (forall ms, f (EvSleep ms) = None) ->
  omap f t = [].
Proof.
  intros Ht Hd Hs. induction t as [|e t IH]; [done|].
  simpl in Ht. apply andb_true_iff in Ht as [He Ht].
  destruct e; try done; cbn; rewrite ?Hd, ?Hs; by apply IH.
Qed.

Lemma core_inner t : forallb is_inner t = true -> core t = t.
Proof.
  intros Ht. unfold core. induction t as [|e t IH]; [done|].
  simpl in Ht. apply andb_true_iff in Ht as [He Ht].
  destruct e; try done; simpl; by rewrite IH.
Qed.

Lemma tally_inner t st : forallb is_inner t = true -> tally t st = st.
Proof.
  intros Ht. induction t as [|e t IH]; [done|].
  simpl in Ht. apply andb_true_iff in Ht as [He Ht].
  destruct e; try done; simpl; by apply IH.
Qed.

Lemma elem_of_core e t : e ∈ core t <-> e ∈ t /\ is_core e = true.
Proof.
  unfold core. rewrite !list_elem_of_In, List.filter_In. done.
Qed.

Lemma threw_app t1 t2 : threw (t1 ++ t2) = threw t1 ++ threw t2.
Proof. apply omap_app. Qed.


Lemma handled_names_app t1 t2 :
  handled_names (t1 ++ t2) = handled_names t1 ++ handled_names t2.
Proof. apply omap_app. Qed.

Lemma dispatches_app t1 t2 : dispatches (t1 ++ t2) = dispatches t1 ++ dispatches t2.
Proof. apply omap_app. Qed.

(** [emit] never throws: it runs every callback, in order, and reports
    the thrown values on the console. *)
Lemma emit_loop_eq hookName data callbacks m :
  HookManager.emit_loop hookName data callbacks m =
    (Ok tt, set_store (run_listeners data callbacks (store m)) m,
     map (EvConsoleError hookName) (thrown_by data callbacks (store m))).
Proof.
  revert m. induction callbacks as [|cb rest IH]; intros m; simpl.
  - by rewrite set_store_id.
  - unfold bind, try_catch, call, log. simpl.
    destruct (cb data (store m)) as [[[]|e] s'] eqn:E; simpl; rewrite IH; simpl; done.
Qed.

Lemma emit_eq (this : HookManager.t W) hookName data m :
  HookManager.emit this hookName data m =
    (Ok tt,
     set_store (run_listeners data (HookManager.listeners this hookName) (store m)) m,
     EvEmit hookName data ::
     map (EvConsoleError hookName)
         (thrown_by data (HookManager.listeners this hookName) (store m))).
Proof.
  unfold HookManager.emit, bind, log. simpl. by rewrite emit_loop_eq.
Qed.

Lemma core_console hookName (errs : list Exn) :
  core (map (EvConsoleError hookName) errs) = [].
Proof. induction errs; simpl; auto. Qed.

Lemma quiet_console {A : Type} (f : Event -> option A) hookName (errs : list Exn) :
  (forall e, f (EvConsoleError hookName e) = None) ->
  omap f (map (EvConsoleError hookName) errs) = [].
Proof.
  intros Hf. induction errs as [|e errs IH]; [done|].
  cbn. by rewrite Hf.
Qed.

Lemma handle_calls_app t1 t2 :
  handle_calls (t1 ++ t2) = handle_calls t1 ++ handle_calls t2.
Proof. apply omap_app. Qed.

Lemma invoked_app t1 t2 : invoked (t1 ++ t2) = invoked t1 ++ invoked t2.
Proof. apply omap_app. Qed.

Lemma hook_names_app t1 t2 : hook_names (t1 ++ t2) = hook_names t1 ++ hook_names t2.
Proof. apply omap_app. Qed.

(** An emission of the pipeline: it returns, runs the listeners on the
    store and touches no counter. *)
Lemma emit_hook_run (this : Pipeline.t W) hookName data m :
  exists t,
    Pipeline.emit_hook this hookName data m =
      (Ok tt, emitted this hookName data m, t) /\
    core t = when_hooked this [EvEmit hookName data] /\
    (Pipeline.hooks this = None -> t = []).
Proof.
  unfold Pipeline.emit_hook, when_hooked, emitted.
  destruct (Pipeline.hooks this) as [h|].
  - rewrite emit_eq. eexists. split; [done|].
    split; [simpl; unfold core in *; by rewrite core_console|done].
  - eexists. by repeat split.
Qed.

Lemma emitted_counters (this : Pipeline.t W) hookName data m :
  errorStats (emitted this hookName data m) = errorStats m /\
  stats (emitted this hookName data m) = stats m.
Proof. unfold emitted. by destruct (Pipeline.hooks this). Qed.

End Basics.

Section HandlerFacts.
Context {W : Type}.
Implicit Types (m : Machine W) (eh : ErrorHandler.t W) (e : Error) (error : Exn).

Lemma try_rethrow {A : Type} (c : M (Machine W) A) m :
  try_catch c (fun e : Exn => throw e) m = c m.
Proof.
  unfold try_catch, throw. destruct (c m) as [[[a|e|w] m1] t1]; [done| |done].
  by rewrite app_nil_r.
Qed.

Lemma updateStats_raised e stageName m :
  ErrorHandler.updateStats e stageName m =
    (Ok tt, set_errorStats (counted_error e stageName (errorStats m)) m, []).
Proof. reflexivity. Qed.

Lemma updateStats_no_constructor error stageName m :
  (forall e, error <> Raised e) ->
  ErrorHandler.updateStats error stageName m =
    (Throw (Raised ErrorHandler.no_constructor),
     set_errorStats (counted_once (errorStats m)) m, []).
Proof. intros H. destruct error; [done|done|]. by destruct (H e). Qed.

(** The strategy-driven handler leaves the machine alone and produces
    at most a delay; it resolves to an object with an action, unless
    the lookup of the strategy goes through an installed prototype. *)
Lemma handleStageError_run eh error stageName context m :
  exists r t,
    ErrorHandler.handleStageError eh error stageName context m = (r, m, t) /\
    forallb is_inner t = true /\ dispatches t = [] /\
    match get (ErrorHandler.recoveryStrategies eh) stageName with
    | Beyond => r = Undetermined InstalledPrototype
    | _ => exists a re fb, r = Ok (ErrorHandler.mkRecovery a re fb)
    end.
Proof.
  unfold ErrorHandler.handleStageError.
  destruct (get (ErrorHandler.recoveryStrategies eh) stageName) as [s| | |];
    try (eexists _, _; split; [reflexivity|]; repeat split; eauto; done).
  repeat (match goal with
          | |- context [if ?b then _ else _] => destruct b
          end;
          try (eexists _, _; split; [reflexivity|]; repeat split; eauto; done)).
Qed.

(** Its answer does not depend on the error nor on the machine. *)
Lemma handleStageError_answer eh error1 error2 stageName context (m1 m2 : Machine W) :
  (ErrorHandler.handleStageError eh error1 stageName context m1).1.1 =
  (ErrorHandler.handleStageError eh error2 stageName context m2).1.1 /\
  (ErrorHandler.handleStageError eh error1 stageName context m1).2 =
  (ErrorHandler.handleStageError eh error2 stageName context m2).2.
Proof.
  unfold ErrorHandler.handleStageError.
  destruct (get (ErrorHandler.recoveryStrategies eh) stageName) as [s| | |]; try done.
  repeat (match goal with
          | |- context [if ?b then _ else _] => destruct b
          end; try done).
Qed.

(** What the switch answers for a strategy of the table. *)
Lemma handleStageError_own eh error stageName context m s :
  get (ErrorHandler.recoveryStrategies eh) stageName = Own s ->
  exists re fb,
    ErrorHandler.handleStageError eh error stageName context m =
      (Ok (ErrorHandler.mkRecovery
             (strategy_action s (num_or (ErrorHandler.attempt context) 1)) re fb),
       m,
       if String.eqb (ErrorHandler.strategy s) "retry" &&
          (num_or (ErrorHandler.attempt context) 1 <? num_or (ErrorHandler.maxRetries s) 3)%Z
       then [EvSleep (num_or (ErrorHandler.backoffMs s) 100 *
                      num_or (ErrorHandler.attempt context) 1)%Z]
       else []).
Proof.
  intros Hs. unfold ErrorHandler.handleStageError, strategy_action. rewrite Hs.
  destruct (String.eqb (ErrorHandler.strategy s) "stop") eqn:E1.
  { apply String.eqb_eq in E1. rewrite E1. by eexists _, _. }
  destruct (String.eqb (ErrorHandler.strategy s) "skip") eqn:E2.
  { apply String.eqb_eq in E2. rewrite E2. by eexists _, _. }
  destruct (String.eqb (ErrorHandler.strategy s) "retry") eqn:E3.
  { simpl. destruct (_ <? _)%Z; by eexists _, _. }
  destruct (String.eqb (ErrorHandler.strategy s) "fallback"); by eexists _, _.
Qed.

(** Calling an entry of [errorHandlers]. *)
Lemma run_handler_run eh (h : ErrorHandler.Handler W) e stageName context m :
  exists r m' t,
    ErrorHandler.run_handler eh h e stageName context m = (r, m', t) /\
    forallb is_inner t = true /\ dispatches t = [] /\
    errorStats m' = errorStats m /\
    r <> Undetermined NoFuel /\
    (plain (ErrorHandler.recoveryStrategies eh) ->
     (forall f, h = ErrorHandler.HCustom f ->
        exists rec s', f e stageName context (store m) = (Returned rec, s') /\
                       rec <> ErrorHandler.NoAnswer) ->
     exists rec, r = Ok rec /\ rec <> ErrorHandler.NoAnswer).
Proof.
  destruct h; simpl.
  - destruct (handleStageError_run eh e stageName context m)
      as (r & t & -> & Hi & Hd & Hr).
    eexists _, _, _. split; [done|]. do 3 (split; [done|]). split.
    + destruct (get _ _); [destruct Hr as (?&?&?&->)..|subst r]; done.
    + intros Hp _. unfold get, plain in *. rewrite Hp in Hr.
      destruct (_ !! stageName); [|destruct (inherited stageName)];
        destruct Hr as (a & re & fb & ->); by eexists.
  - unfold ErrorHandler.handleDatabaseError.
    repeat case_decide; eexists _, _, _; (split; [done|]);
      (do 3 (split; [done|])); (split; [done|]); intros _ _; by eexists.
  - eexists _, _, _; (split; [done|]);
      (do 3 (split; [done|])); (split; [done|]); intros _ _; by eexists.
  - unfold call. destruct (f e stageName context (store m)) as [[rec|e'] s'] eqn:E;
      eexists _, _, _; (split; [done|]); (do 3 (split; [done|])); (split; [done|]).
    + intros _ H. destruct (H f eq_refl) as (rec' & s'' & Heq & Hn).
      rewrite E in Heq. injection Heq as <- <-. by exists rec.
    + intros _ H. destruct (H f eq_refl) as (rec' & s'' & Heq & Hn).
      by rewrite E in Heq.
Qed.

(** [handle] for a value without constructor: only [total] is raised. *)
Lemma handle_no_constructor eh error stageName context m :
  (forall e, error <> Raised e) ->
  ErrorHandler.handle eh error stageName context m =
    (Throw (Raised ErrorHandler.no_constructor),
     set_errorStats (counted_once (errorStats m)) m,
     [EvHandle stageName error (ErrorHandler.attempt context)]).
Proof.
  intros H. unfold ErrorHandler.handle. unfold bind at 1. unfold log at 1. simpl.
  unfold bind at 1. by rewrite (updateStats_no_constructor _ _ _ H).
Qed.

(** [handle] under a strategy, or what stands for one. *)
Lemma handle_strategy eh e stageName context m :
  (exists s, get (ErrorHandler.recoveryStrategies eh) stageName = Own s) \/
  get (ErrorHandler.recoveryStrategies eh) stageName = Inherited ->
  exists r t,
    ErrorHandler.handleStageError eh e stageName context
      (set_errorStats (counted_error e stageName (errorStats m)) m) =
      (r, set_errorStats (counted_error e stageName (errorStats m)) m, t) /\
    ErrorHandler.handle eh e stageName context m =
      (r, set_errorStats (counted_error e stageName (errorStats m)) m,
       EvHandle stageName e (ErrorHandler.attempt context) :: t).
Proof.
  intros Hs. unfold ErrorHandler.handle. unfold bind at 1. unfold log at 1. simpl.
  unfold bind at 1. rewrite updateStats_raised. simpl.
  set (m1 := set_errorStats _ m).
  destruct (handleStageError_run eh e stageName context m1) as (r & t & Hh & _).
  exists r, t. split; [done|].
  destruct Hs as [[s ->]| ->]; by rewrite Hh.
Qed.

(** [handle] when the lookup of the strategy finds nothing: the kind
    dispatch. *)
Lemma handle_dispatch eh e stageName context m :
  get (ErrorHandler.recoveryStrategies eh) stageName = Absent ->
  exists r m' t,
    match get (ErrorHandler.errorHandlers eh) (ctor_name e) with
    | Own h => ErrorHandler.run_handler eh h e stageName context
    | Inherited => ErrorHandler.run_member (ctor_name e)
    | Absent => ErrorHandler.handleUnknownError e stageName context
    | Beyond => undetermined InstalledPrototype
    end (set_errorStats (counted_error e stageName (errorStats m)) m) = (r, m', t) /\
    ErrorHandler.handle eh e stageName context m =
      (r, m',
       EvHandle stageName e (ErrorHandler.attempt context) ::
       EvDispatch (ctor_name e) :: t).
Proof.
  intros Hs. unfold ErrorHandler.handle. unfold bind at 1. unfold log at 1. simpl.
  unfold bind at 1. rewrite updateStats_raised. simpl. rewrite Hs.
  set (m1 := set_errorStats _ m).
  unfold bind at 1. unfold log at 1. simpl.
  destruct (get (ErrorHandler.errorHandlers eh) (ctor_name e)) as [h| | |];
    rewrite ?try_rethrow.
  - destruct (ErrorHandler.run_handler eh h e stageName context m1) as [[r m'] t] eqn:E.
    by exists r, m', t.
  - destruct (ErrorHandler.run_member (ctor_name e) m1) as [[r m'] t] eqn:E.
    by exists r, m', t.
  - by eexists _, _, _.
  - by eexists _, _, _.
Qed.

Lemma handle_beyond eh e stageName context m :
  get (ErrorHandler.recoveryStrategies eh) stageName = Beyond ->
  ErrorHandler.handle eh e stageName context m =
    (Undetermined InstalledPrototype,
     set_errorStats (counted_error e stageName (errorStats m)) m,
     [EvHandle stageName e (ErrorHandler.attempt context)]).
Proof.
  intros Hs. unfold ErrorHandler.handle. unfold bind at 1. unfold log at 1. simpl.
  unfold bind at 1. rewrite updateStats_raised. simpl. by rewrite Hs.
Qed.

(** [handle] is entered once, counts the error, and comes back. *)
Lemma handle_run eh error stageName context m :
  exists r m' t,
    ErrorHandler.handle eh error stageName context m =
      (r, m', EvHandle stageName error (ErrorHandler.attempt context) :: t) /\
    forallb is_inner t = true /\
    errorStats m' = counted error stageName (errorStats m) /\
    r <> Undetermined NoFuel.
Proof.
  destruct error as [| |e];
    [rewrite handle_no_constructor by done; by eexists _, _, _..|].
  destruct (get (ErrorHandler.recoveryStrategies eh) stageName) as [s| | |] eqn:Hs.
  1,2: destruct (handle_strategy eh e stageName context m) as (r & t & Hh & ->); [eauto|];
    destruct (handleStageError_run eh e stageName context
                (set_errorStats (counted_error e stageName (errorStats m)) m))
      as (r' & t' & Hh' & Hi & Hd & Hr);
    rewrite Hh in Hh'; injection Hh' as <- <-;
    eexists _, _, _; (split; [done|]); (do 2 (split; [done|]));
    rewrite Hs in Hr; by destruct Hr as (?&?&?&->).
  - destruct (handle_dispatch eh e stageName context m Hs) as (r & m' & t & Hd & ->).
    eexists _, _, _. split; [done|]. cbn [forallb is_inner andb].
    destruct (get (ErrorHandler.errorHandlers eh) (ctor_name e)) as [h| | |].
    + destruct (run_handler_run eh h e stageName context
                  (set_errorStats (counted_error e stageName (errorStats m)) m))
        as (r' & m'' & t' & Hh' & Hi & _ & He & Hr & _).
      rewrite Hd in Hh'. injection Hh' as <- <- <-. by rewrite He.
    + unfold ErrorHandler.run_member in Hd.
      destruct (String.eqb _ _); [|destruct (member_returns _ _)];
        injection Hd as <- <- <-; done.
    + injection Hd as <- <- <-. done.
    + injection Hd as <- <- <-. done.
  - rewrite handle_beyond by done. by eexists _, _, _.
Qed.

(** [answers] in terms of the events. *)
Lemma answers_trace eh error n a hr ht :
  answers eh error n a hr ht ->
  exists t, ht = EvHandle n error (Some a) :: t /\ forallb is_inner t = true /\
            hr <> Undetermined NoFuel.
Proof.
  intros (m & m' & H).
  destruct (handle_run eh error n (ErrorHandler.mkContext (Some a)) m)
    as (r & m2 & t & H' & Hi & _ & Hr).
  rewrite H in H'. injection H' as -> -> ->. by exists t.
Qed.

End HandlerFacts.

Section PassFacts.
Context {W : Type}.
Implicit Types (m : Machine W) (this : Pipeline.t W) (stage : Pipeline.Stage W).

Lemma invoke_run idx n stage m :
  (exists r s', Pipeline.run stage (store m) = (Returned r, s') /\
     Pipeline.invoke idx n stage m =
       (Ok r, set_store s' m, [EvInvoke idx n; EvReturned idx r])) \/
  (exists e s', Pipeline.run stage (store m) = (Thrown e, s') /\
     Pipeline.invoke idx n stage m =
       (Throw e, set_store s' m, [EvInvoke idx n; EvThrew idx e])).
Proof.
  unfold Pipeline.invoke, bind, try_catch, call, log, throw, ret. simpl.
  destruct (Pipeline.run stage (store m)) as [[r|e] s'] eqn:E; simpl.
  - left. by eexists _, _.
  - right. by eexists _, _.
Qed.

Lemma collect_action_run n (r : option JSObj) (result : RunResult) m :
  exists result' m',
    Pipeline.collect_action n r result m = (Ok result', m', []) /\
    stop result' = stop result /\ metadata result' = metadata result /\
    error result' = error result /\ errorStage result' = errorStage result /\
    errorStats m' = errorStats m.
Proof.
  unfold Pipeline.collect_action.
  destruct (truthy (opt_prop r "action")); by eexists _, _.
Qed.

(** The [after:stage] emission and what the stage's value has become. *)
Lemma show_returned_run this n (r : option JSObj) m :
  exists r' m' t,
    Pipeline.show_returned this n r m = (Ok r', m', t) /\
    core t = when_hooked this [EvEmit "after:stage" (PStageResult n r)] /\
    may_become this n r r' /\
    errorStats m' = errorStats m.
Proof.
  unfold Pipeline.show_returned, may_become, when_hooked.
  destruct (Pipeline.hooks this) as [h|] eqn:Hh; [|by eexists _, _, _].
  destruct r as [o|].
  - unfold bind at 1. unfold modify at 1. unfold bind at 1. rewrite emit_eq.
    unfold bind, get_state, ret. simpl.
    eexists _, _, _. split; [done|]. rewrite app_nil_r.
    split; [unfold core; simpl; by rewrite core_console|].
    split; [|done]. by exists (store m).
  - unfold bind at 1. rewrite emit_eq. unfold ret. simpl.
    eexists _, _, _. split; [done|]. rewrite app_nil_r.
    split; [unfold core; simpl; by rewrite core_console|done].
Qed.

Lemma heed_stop_result (r : option JSObj) (before after : RunResult) :
  stop after = stop before -> metadata after = metadata before ->
  error after = error before -> errorStage after = errorStage before ->
  returned_result r before (Pipeline.heed_stop r after).
Proof.
  intros Hs Hm He Hes. unfold returned_result, Pipeline.heed_stop.
  destruct r as [o|]; [|done].
  destruct (truthy (prop o "stop")); simpl; by rewrite ?Hm.
Qed.

(** The branches of the [catch] block. *)
Lemma recovered_cases maxAttempts a result e n rec :
  (Pipeline.recovered maxAttempts a result e n rec =
     Throw (Raised Pipeline.no_recovery) /\ rec = ErrorHandler.NoAnswer) \/
  Pipeline.recovered maxAttempts a result e n rec =
    Ok (true, a, Pipeline.failed_at e n result) \/
  Pipeline.recovered maxAttempts a result e n rec = Ok (true, a, result) \/
  (Pipeline.recovered maxAttempts a result e n rec = Ok (false, a, result) /\
   ErrorHandler.action rec = Some "retry" /\
   exists M, maxAttempts = Some M /\ (a < M)%Z) \/
  (Pipeline.recovered maxAttempts a result e n rec = Undetermined InstalledPrototype /\
   maxAttempts = None).
Proof.
  unfold Pipeline.recovered.
  destruct rec as [| |act re fb]; [by left|..].
  - right; right; left. by repeat case_bool_decide.
  - case_bool_decide; [by right; left|].
    case_bool_decide; [by right; right; left|].
    case_bool_decide as Hr; [|by right; right; left].
    destruct maxAttempts as [M|]; [|by right; right; right; right].
    destruct (a >=? M)%Z eqn:Ea; [by right; left|].
    right; right; right; left. split; [done|]. split; [done|].
    exists M. split; [done|lia].
Qed.

Lemma tally_pass_returned this idx n r st :
  tally (pass_returned this idx n r) st = st.
Proof. unfold pass_returned, when_hooked. by destruct (Pipeline.hooks this). Qed.

Lemma tally_pass_threw this idx n e st :
  tally (pass_threw this idx n e) st = st.
Proof. unfold pass_threw, when_hooked. by destruct (Pipeline.hooks this). Qed.

Lemma tally_handle (error : Exn) n a t st :
  forallb is_inner t = true ->
  tally (EvHandle n error a :: t) st = counted error n st.
Proof. intros Hi. simpl. by apply tally_inner. Qed.

(** One pass of the [while] loop: either the stage returned and the pass
    completes the stage, or it threw and the way [handle] comes back
    decides. *)
Lemma pass_spec this idx stage n maxAttempts attempt result m :
  exists out m' t,
    try_catch (Pipeline.try_stage this idx stage n attempt result)
              (Pipeline.catch_stage this n maxAttempts attempt result) m =
      (out, m', t) /\
    errorStats m' = tally t (errorStats m) /\
    ((exists r r' result',
        out = Ok (true, attempt, result') /\
        core t = pass_returned this idx n r /\
        may_return stage r /\
        may_become this n r r' /\
        returned_result r' result result') \/
     (exists e,
        may_throw stage e /\
        match Pipeline.errorHandler this with
        | None =>
            out = Ok (true, (attempt + 1)%Z, result) /\
            core t = pass_threw this idx n e
        | Some eh =>
            exists hr ht,
              answers eh e n (attempt + 1) hr ht /\
              out = recover maxAttempts (attempt + 1) result e n hr /\
              core t = pass_threw this idx n e ++ ht
        end)).
Proof.
  destruct (emit_hook_run this "before:stage" (PStage n) m) as (t1 & E1 & C1 & _).
  pose proof (emitted_counters this "before:stage" (PStage n) m) as [S1 _].
  set (m1 := emitted this "before:stage" (PStage n) m) in *.
  destruct (invoke_run idx n stage m1) as [(r & s' & Er & Ei)|(e & s' & Er & Ei)].
  - destruct (collect_action_run n r result (set_store s' m1))
      as (res1 & m2 & Ec & Hs & Hm & He & Hes & S2).
    destruct (show_returned_run this n r m2) as (r' & m3 & t3 & E3 & C3 & Hb & S3).
    assert (Hc : core ((t1 ++ [EvInvoke idx n; EvReturned idx r]) ++ t3) =
                 pass_returned this idx n r).
    { rewrite !core_app, C1, C3. unfold pass_returned. by rewrite <- app_assoc. }
    eexists _, _, _. split; [|split].
    + unfold try_catch, Pipeline.try_stage.
      unfold bind at 1. rewrite E1. unfold bind at 1. rewrite Ei.
      unfold bind at 1. rewrite Ec. unfold bind at 1. rewrite E3.
      unfold ret. rewrite !app_nil_l, !app_nil_r, app_assoc. reflexivity.
    + rewrite <- tally_core, Hc, tally_pass_returned, S3, S2. simpl. by rewrite S1.
    + left. exists r, r', (Pipeline.heed_stop r' res1).
      split; [done|]. split; [done|].
      split; [exists (store m1); by rewrite Er|]. split; [done|].
      by apply heed_stop_result.
  - assert (Hthrow : may_throw stage e) by (exists (store m1); by rewrite Er).
    destruct (emit_hook_run this "error:stage" (PStageError n e) (set_store s' m1))
      as (t2 & E2 & C2 & _).
    pose proof (emitted_counters this "error:stage" (PStageError n e) (set_store s' m1))
      as [S2 _].
    set (m2 := emitted this "error:stage" (PStageError n e) (set_store s' m1)) in *.
    assert (Hc : core ((t1 ++ [EvInvoke idx n; EvThrew idx e]) ++ t2) =
                 pass_threw this idx n e).
    { rewrite !core_app, C1, C2. unfold pass_threw. by rewrite <- app_assoc. }
    assert (Hout : try_catch (Pipeline.try_stage this idx stage n attempt result)
              (Pipeline.catch_stage this n maxAttempts attempt result) m =
              let '(r, s2, t') :=
                Pipeline.catch_stage this n maxAttempts attempt result e (set_store s' m1) in
              (r, s2, (t1 ++ [EvInvoke idx n; EvThrew idx e]) ++ t')).
    { unfold try_catch, Pipeline.try_stage.
      unfold bind at 1. rewrite E1. unfold bind at 1. by rewrite Ei. }
    rewrite Hout. unfold Pipeline.catch_stage. unfold bind at 1. rewrite E2.
    destruct (Pipeline.errorHandler this) as [eh|] eqn:Heh.
    + destruct (handle_run eh e n (ErrorHandler.mkContext (Some (attempt + 1)%Z)) m2)
        as (hr & m3 & t3 & Eh & Hi & S3 & _).
      unfold bind, settle. rewrite Eh.
      assert (Hcore : core (((t1 ++ [EvInvoke idx n; EvThrew idx e]) ++ t2) ++
                            EvHandle n e (Some (attempt + 1)%Z) :: t3) =
                      pass_threw this idx n e ++ EvHandle n e (Some (attempt + 1)%Z) :: t3).
      { rewrite core_app, Hc. f_equal. change (EvHandle n e (Some (attempt + 1)%Z) :: t3)
          with ([EvHandle n e (Some (attempt + 1)%Z)] ++ t3).
        rewrite core_app, (core_inner t3) by done. done. }
      assert (Htally : errorStats m3 =
                tally (((t1 ++ [EvInvoke idx n; EvThrew idx e]) ++ t2) ++
                       EvHandle n e (Some (attempt + 1)%Z) :: t3) (errorStats m)).
      { rewrite <- tally_core, Hcore, tally_app, tally_pass_threw, tally_handle by done.
        rewrite S3, S2. simpl. by rewrite S1. }
      assert (Hans : answers eh e n (attempt + 1) hr
                       (EvHandle n e (Some (attempt + 1)%Z) :: t3))
        by (by exists m2, m3).
      destruct hr as [rec|e'|why]; simpl;
        (eexists _, _, _; split; [reflexivity|]);
        rewrite ?app_nil_r, app_assoc; (split; [exact Htally|]);
        right; exists e; (split; [done|]);
        eexists _, _; (split; [exact Hans|]); by split.
    + unfold ret.
      eexists _, _, _. split; [reflexivity|].
      rewrite ?app_nil_r. split.
      * rewrite <- tally_core, Hc, tally_pass_threw, S2. simpl. by rewrite S1.
      * right. exists e. by split.
Qed.

End PassFacts.

Section LoopFacts.
Context {W : Type}.
Implicit Types (m : Machine W) (this : Pipeline.t W) (stage : Pipeline.Stage W).

(** The [while] loop of a stage, whatever the number of passes it is
    given, runs as [slot_spec] describes; given the passes it needs, it
    uses them up only when it is through. *)
Lemma stage_loop_spec this idx stage n maxAttempts fuel a result m :
  exists out m' t,
    Pipeline.stage_loop fuel this idx stage n maxAttempts a result m = (out, m', t) /\
    slot_spec this idx stage n maxAttempts result a (core t) out /\
    errorStats m' = tally t (errorStats m) /\
    ((passes_needed maxAttempts a <= fuel)%nat -> out <> Undetermined NoFuel).
Proof.
  revert a m. induction fuel as [|fuel IH]; intros a m.
  { eexists _, _, _. split; [reflexivity|]. split; [apply slot_no_fuel|].
    split; [done|]. unfold passes_needed. lia. }
  simpl. unfold bind at 1.
  destruct (pass_spec this idx stage n maxAttempts a result m)
    as (out & m' & t & -> & Hst & [(r & r' & res' & -> & Hc & Hr & Hb & Hres)
                                  |(e & Hth & Hh)]).
  - unfold ret. eexists _, _, _. split; [done|].
    rewrite app_nil_r, Hc. split; [by eapply slot_returned|]. done.
  - destruct (Pipeline.errorHandler this) as [eh|] eqn:Heh.
    + destruct Hh as (hr & ht & Hans & -> & Hc).
      destruct (answers_trace _ _ _ _ _ _ Hans) as (t' & -> & Hi & Hnf).
      destruct hr as [rec|e'|why]; simpl.
      * destruct (recovered_cases maxAttempts (a + 1) result e n rec)
          as [[Hrec _]|[Hrec|[Hrec|[(Hrec & _ & M & -> & Hlt)|[Hrec _]]]]];
          simpl in Hrec; rewrite Hrec.
        -- eexists _, _, _. split; [done|]. rewrite Hc.
           split; [|done]. eapply slot_broken; [done..|]. simpl. by rewrite Hrec.
        -- unfold ret. eexists _, _, _. split; [done|].
           rewrite app_nil_r, Hc. split; [|done]. by eapply slot_recovered.
        -- unfold ret. eexists _, _, _. split; [done|].
           rewrite app_nil_r, Hc. split; [|done]. by eapply slot_recovered.
        -- destruct (IH (a + 1)%Z m') as (out & m3 & t3 & -> & Hs & Hst3 & Hf).
           eexists _, _, _. split; [done|].
           rewrite core_app, Hc. split; [by eapply slot_retry|].
           split; [by rewrite tally_app, <- Hst|].
           intros Hfuel. apply Hf. unfold passes_needed in *. simpl in *. lia.
        -- eexists _, _, _. split; [done|]. rewrite Hc.
           split; [|done]. eapply slot_broken; [done..|]. simpl. by rewrite Hrec.
      * eexists _, _, _. split; [done|]. rewrite Hc.
        split; [|done]. by eapply slot_broken.
      * eexists _, _, _. split; [done|]. rewrite Hc.
        split; [by eapply slot_broken|]. split; [done|].
        intros _ [= ->]. done.
    + destruct Hh as [-> Hc]. unfold ret. eexists _, _, _. split; [done|].
      rewrite app_nil_r, Hc. split; [by apply slot_unhandled|]. done.
Qed.

Lemma passes_given_enough maxAttempts :
  (passes_needed maxAttempts 0 <= Pipeline.passes_given maxAttempts)%nat.
Proof. unfold passes_needed, Pipeline.passes_given. lia. Qed.

Lemma run_stages_spec this rest idx result m :
  exists out m' t,
    Pipeline.run_stages this idx rest result m = (out, m', t) /\
    run_spec this idx rest result (core t) out /\
    errorStats m' = tally t (errorStats m) /\
    out <> Undetermined NoFuel.
Proof.
  revert idx result m. induction rest as [|stage rest IH]; intros idx result m; simpl.
  - eexists _, _, _. split; [done|]. split; [apply run_done|]. done.
  - unfold bind, Pipeline.run_stage.
    destruct (stage_loop_spec this idx stage (Pipeline.stage_name stage)
                (Pipeline.max_attempts this (Pipeline.stage_name stage))
                (Pipeline.passes_given (Pipeline.max_attempts this (Pipeline.stage_name stage)))
                0 result m) as (out & m' & t & -> & Hs & Hst & Hf).
    specialize (Hf (passes_given_enough _)).
    destruct out as [result'|e|why].
    + destruct (stop result') eqn:Hstop.
      * unfold ret. eexists _, _, _. split; [done|].
        rewrite app_nil_r. split; [by apply run_halt|]. done.
      * destruct (IH (S idx) result' m') as (out & m2 & t2 & -> & Hr & Hst2 & Hf2).
        eexists _, _, _. split; [done|].
        rewrite core_app. split; [by eapply run_next|].
        split; [by rewrite tally_app, <- Hst|done].
    + eexists _, _, _. split; [done|]. split; [by eapply run_broken|]. done.
    + eexists _, _, _. split; [done|]. split; [by eapply run_broken|].
      split; [done|]. intros [= ->]. done.
Qed.

(** The [after:pipeline] emission and what the result has become. *)
Lemma show_result_run this result m :
  exists result' m' t,
    Pipeline.show_result this result m = (Ok result', m', t) /\
    core t = when_hooked this [EvEmit "after:pipeline" (PPipelineResult result)] /\
    may_hand this result result' /\
    errorStats m' = errorStats m.
Proof.
  unfold Pipeline.show_result, may_hand, when_hooked.
  destruct (Pipeline.hooks this) as [h|] eqn:Hh; [|by eexists _, _, _].
  unfold bind at 1. unfold modify at 1. unfold bind at 1. rewrite emit_eq.
  unfold bind, get_state, ret. simpl.
  eexists _, _, _. split; [done|]. rewrite app_nil_r.
  split; [unfold core; simpl; by rewrite core_console|].
  split; [|done]. by exists (store m).
Qed.

(** [process]: [before:pipeline], the stages, and, when the stages did
    not end on an exception, [after:pipeline] and the result as the
    listeners of that hook left it. *)
Lemma process_spec this m :
  exists out0 out m' t body,
    Pipeline.process this m = (out, m', t) /\
    run_spec this 0 (Pipeline.stages this) initial_result body out0 /\
    core t =
      when_hooked this [EvEmit "before:pipeline" PMessage] ++ body ++
      match out0 with
      | Ok result => when_hooked this [EvEmit "after:pipeline" (PPipelineResult result)]
      | _ => []
      end /\
    match out0 with
    | Ok result => exists result', out = Ok result' /\ may_hand this result result'
    | Throw e => out = Throw e
    | Undetermined why => out = Undetermined why /\ why <> NoFuel
    end /\
    errorStats m' = tally t (errorStats m).
Proof.
  unfold Pipeline.process.
  destruct (emit_hook_run this "before:pipeline" PMessage m) as (t1 & E1 & C1 & _).
  pose proof (emitted_counters this "before:pipeline" PMessage m) as [S1 _].
  set (m1 := emitted this "before:pipeline" PMessage m) in *.
  unfold bind at 1. rewrite E1.
  destruct (run_stages_spec this (Pipeline.stages this) 0 initial_result m1)
    as (out & m2 & t2 & E2 & Hr & S2 & Hf).
  unfold bind at 1. fold (@initial_result). rewrite E2.
  assert (Ht1 : tally t1 (errorStats m) = errorStats m).
  { rewrite <- tally_core, C1. unfold when_hooked. by destruct (Pipeline.hooks this). }
  destruct out as [result|e|why].
  - destruct (show_result_run this result m2) as (result' & m3 & t3 & E3 & C3 & Hh & S3).
    rewrite E3.
    exists (Ok result). eexists _, _, _, _. split; [done|]. split; [exact Hr|].
    split; [by rewrite !core_app, C1, C3|]. split; [by exists result'|].
    rewrite !tally_app, Ht1, <- S1, <- S2, <- S3.
    rewrite <- (tally_core t3), C3. unfold when_hooked. by destruct (Pipeline.hooks this).
  - exists (Throw e). eexists _, _, _, _. split; [done|]. split; [exact Hr|].
    split; [by rewrite !core_app, C1, app_nil_r|]. split; [done|].
    by rewrite tally_app, Ht1, <- S1.
  - exists (Undetermined why). eexists _, _, _, _. split; [done|]. split; [exact Hr|].
    split; [by rewrite !core_app, C1, app_nil_r|].
    split; [split; [done|]; by intros ->|].
    by rewrite tally_app, Ht1, <- S1.
Qed.


End LoopFacts.

(** ** Early termination on a stop signal *)
Section StopSignal.
Context {W : Type}.
Implicit Types (m : Machine W) (this : Pipeline.t W) (stage : Pipeline.Stage W).

Lemma elem_of_when_hooked this (ev : Event) t :
  ev ∈ when_hooked this t -> ev ∈ t.
Proof.
  unfold when_hooked. destruct (Pipeline.hooks this); [done|].
  by intros ?%elem_of_nil.
Qed.

Lemma elem_of_pass_returned this idx n r (ev : Event) :
  ev ∈ pass_returned this idx n r ->
  ev = EvEmit "before:stage" (PStage n) \/ ev = EvInvoke idx n \/
  ev = EvReturned idx r \/ ev = EvEmit "after:stage" (PStageResult n r).
Proof.
  unfold pass_returned. rewrite !elem_of_app.
  intros [H|[H|H]]; [apply elem_of_when_hooked in H| |apply elem_of_when_hooked in H];
    set_solver.
Qed.

Lemma elem_of_pass_threw this idx n e (ev : Event) :
  ev ∈ pass_threw this idx n e ->
  ev = EvEmit "before:stage" (PStage n) \/ ev = EvInvoke idx n \/
  ev = EvThrew idx e \/ ev = EvEmit "error:stage" (PStageError n e).
Proof.
  unfold pass_threw. rewrite !elem_of_app.
  intros [H|[H|H]]; [apply elem_of_when_hooked in H| |apply elem_of_when_hooked in H];
    set_solver.
Qed.

Lemma elem_of_inner (ev : Event) t :
  forallb is_inner t = true -> ev ∈ t -> is_inner ev = true.
Proof.
  intros Ht Hin. rewrite forallb_forall in Ht. apply Ht. by apply list_elem_of_In.
Qed.

Lemma elem_of_answer (eh : ErrorHandler.t W) error n a hr ht (ev : Event) :
  answers eh error n a hr ht -> ev ∈ ht ->
  ev = EvHandle n error (Some a) \/ is_inner ev = true.
Proof.
  intros Hans Hin. apply answers_trace in Hans as (t & Heq & Hi & _). subst ht.
  apply elem_of_cons in Hin as [Hin|Hin]; [by left|].
  right. by eapply elem_of_inner.
Qed.

(** The events of a stage loop are all about its stage. *)
Lemma slot_spec_events this idx stage n maxAttempts result a t out :
  slot_spec this idx stage n maxAttempts result a t out ->
  forall ev, ev ∈ t -> slot_event idx n ev.
Proof.
  assert (Hr : forall r ev, ev ∈ pass_returned this idx n r -> slot_event idx n ev).
  { intros r ev Hin. apply elem_of_pass_returned in Hin.
    destruct Hin as [-> | [-> | [-> | ->]]]; by simpl. }
  assert (Ht : forall e ev, ev ∈ pass_threw this idx n e -> slot_event idx n ev).
  { intros e ev Hin. apply elem_of_pass_threw in Hin.
    destruct Hin as [-> | [-> | [-> | ->]]]; by simpl. }
  assert (Hh : forall (eh : ErrorHandler.t W) e b hr ht ev,
            answers eh e n b hr ht -> ev ∈ ht -> slot_event idx n ev).
  { intros eh e b hr ht ev Hans Hin.
    destruct (elem_of_answer _ _ _ _ _ _ _ Hans Hin) as [->|Hi]; [done|].
    by destruct ev. }
  induction 1 as [a|a r r' res' ? ? ?|a e ? ?|a e eh hr ht res' ? ? ? ?
                 |a e eh hr ht out ? ? ? ?
                 |a e eh hr ht t out ? ? ? ? ? IH]; intros ev Hin.
  - by apply elem_of_nil in Hin.
  - eauto.
  - eauto.
  - apply elem_of_app in Hin as [Hin|Hin]; eauto.
  - apply elem_of_app in Hin as [Hin|Hin]; eauto.
  - apply elem_of_app in Hin as [[Hin|Hin]%elem_of_app|Hin]; eauto.
Qed.


(** Listeners that leave the object they are handed as it is. *)
Lemma run_listeners_keeps {A : Type} (field : Store W -> A) data
    (callbacks : list (HookManager.Listener W)) s :
  (forall callback data s, callback ∈ callbacks ->
     field (callback data s).2 = field s) ->
  field (run_listeners data callbacks s) = field s.
Proof.
  revert s. induction callbacks as [|cb l IH]; intros s Hk; [done|].
  change (run_listeners data (cb :: l) s) with (run_listeners data l (cb data s).2).
  rewrite IH.
  - apply Hk. by left.
  - intros callback data' s' Hin. apply Hk. by right.
Qed.

Lemma keeps_returned_become this n r r' :
  keeps_returned this -> may_become this n r r' -> r' = r.
Proof.
  unfold keeps_returned, may_become. intros Hk Hb.
  destruct (Pipeline.hooks this) as [h|]; [|done].
  destruct r as [o|]; [|done].
  destruct Hb as [s ->]. f_equal.
  rewrite (run_listeners_keeps returned); [done|].
  intros callback data s' Hin. by eapply Hk.
Qed.

Lemma keeps_result_hand this result result' :
  keeps_result this -> may_hand this result result' -> result' = result.
Proof.
  unfold keeps_result, may_hand. intros Hk Hb.
  destruct (Pipeline.hooks this) as [h|]; [|done].
  destruct Hb as [s ->].
  rewrite (run_listeners_keeps handed); [done|].
  intros callback data s' Hin. by eapply Hk.
Qed.




(** The events of a run of [process] that are not emissions are events
    of the stage loops. *)
Lemma process_body this m out0 out m' t body :
  Pipeline.process this m = (out, m', t) ->
  core t =
    when_hooked this [EvEmit "before:pipeline" PMessage] ++ body ++
    match out0 with
    | Ok result => when_hooked this [EvEmit "after:pipeline" (PPipelineResult result)]
    | _ => []
    end ->
  (forall ev, ev ∈ body -> ev ∈ t) /\
  (forall ev, ev ∈ t -> is_core ev = true ->
     (forall h p, ev <> EvEmit h p) -> ev ∈ body).
Proof.
  intros Hp Hc. split.
  - intros ev Hev. assert (Hin : ev ∈ core t).
    { rewrite Hc, !elem_of_app. by right; left. }
    by apply elem_of_core in Hin as [? _].
  - intros ev Hev Hcore Hne.
    assert (Hev' : ev ∈ core t) by (by apply elem_of_core).
    rewrite Hc in Hev'. rewrite !elem_of_app in Hev'.
    destruct Hev' as [Hev'|[Hev'|Hev']]; [|done|].
    + apply elem_of_when_hooked, list_elem_of_singleton in Hev'. by edestruct Hne.
    + destruct out0; try by apply elem_of_nil in Hev'.
      apply elem_of_when_hooked, list_elem_of_singleton in Hev'. by edestruct Hne.
Qed.


End StopSignal.

(** ** Hook emission order *)
Section HookOrder.
Context {W : Type}.
Implicit Types (m : Machine W) (this : Pipeline.t W) (stage : Pipeline.Stage W).

Lemma passes_app l1 l2 : passes l1 -> passes l2 -> passes (l1 ++ l2).
Proof. induction 1; simpl; intros; [done|by constructor; auto..]. Qed.

Lemma before_stage_names_app t1 t2 :
  before_stage_names (t1 ++ t2) = before_stage_names t1 ++ before_stage_names t2.
Proof. apply omap_app. Qed.

Lemma when_hooked_Some this hm t :
  Pipeline.hooks this = Some hm -> when_hooked this t = t.
Proof. unfold when_hooked. by intros ->. Qed.

Lemma when_hooked_None this t :
  Pipeline.hooks this = None -> when_hooked this t = [].
Proof. unfold when_hooked. by intros ->. Qed.

Lemma closing_hooks_app t1 t2 :
  closing_hooks (t1 ++ t2) = closing_hooks t1 ++ closing_hooks t2.
Proof. apply omap_app. Qed.

Lemma outcome_hooks_app t1 t2 :
  outcome_hooks (t1 ++ t2) = outcome_hooks t1 ++ outcome_hooks t2.
Proof. apply omap_app. Qed.

(** A projection that ignores what [handle] records sees nothing in
    the events of a call of [handle]. *)
Lemma omap_answer {A : Type} (f : Event -> option A)
    (eh : ErrorHandler.t W) error n a hr ht :
  answers eh error n a hr ht ->
  (forall n e a, f (EvHandle n e a) = None) ->
  (forall k, f (EvDispatch k) = None) -> (forall ms, f (EvSleep ms) = None) ->
  omap f ht = [].
Proof.
  intros (t & -> & Hi & _)%answers_trace Hh Hd Hs.
  cbn. rewrite Hh. by apply omap_inner.
Qed.

(** With a hook manager, each pass emits [before:stage] right before
    the call and then exactly one of [after:stage], [error:stage],
    according to the outcome of the call. *)
Lemma slot_spec_hooks this hm idx stage n maxAttempts result a t out :
  Pipeline.hooks this = Some hm ->
  slot_spec this idx stage n maxAttempts result a t out ->
  passes (hook_names t) /\ before_stage_names t = (invoked t).*2 /\
  closing_hooks t = outcome_hooks t.
Proof.
  intros Hh.
  induction 1 as [a|a r r' res' ? ? ?|a e ? ?|a e eh hr ht res' ? ? Hans ?
                 |a e eh hr ht out ? ? Hans ?
                 |a e eh hr ht t out ? ? Hans ? ? (IH1 & IH2 & IH3)];
    unfold pass_returned, pass_threw; rewrite ?(when_hooked_Some _ _ _ Hh);
    try (split; [repeat constructor|done]);
    rewrite ?hook_names_app, ?before_stage_names_app, ?invoked_app, ?fmap_app,
      ?closing_hooks_app, ?outcome_hooks_app;
    unfold hook_names, before_stage_names, invoked, closing_hooks, outcome_hooks in *;
    rewrite !(omap_answer _ _ _ _ _ _ _ Hans) by done.
  - split; [repeat constructor|done].
  - split; [repeat constructor|done].
  - rewrite !app_nil_r, IH2, IH3. split; [|done]. simpl. by constructor.
Qed.

Lemma run_spec_hooks this hm idx rest result body out :
  Pipeline.hooks this = Some hm ->
  run_spec this idx rest result body out ->
  passes (hook_names body) /\ before_stage_names body = (invoked body).*2 /\
  closing_hooks body = outcome_hooks body.
Proof.
  intros Hh.
  induction 1 as [idx result|idx stage rest result t res' Hs _
                 |idx stage rest result t out out' Hs _
                 |idx stage rest result t res' t' out Hs _ _ (IH1 & IH2 & IH3)];
    try (by eapply slot_spec_hooks); [split; [constructor|done]|].
  destruct (slot_spec_hooks _ _ _ _ _ _ _ _ _ _ Hh Hs) as (H1 & H2 & H3).
  rewrite hook_names_app, before_stage_names_app, invoked_app, fmap_app, H2, IH2,
    closing_hooks_app, outcome_hooks_app, H3, IH3.
  split; [by apply passes_app|done].
Qed.

(** The emission order of a run, as the code produces it. *)
Lemma process_hooks this hm m out m' t :
  Pipeline.hooks this = Some hm ->
  Pipeline.process this m = (out, m', t) ->
  (exists body,
      passes body /\
      hook_names t =
        "before:pipeline" :: body ++
        match out with Ok _ => ["after:pipeline"] | _ => [] end) /\
  before_stage_names t = (invoked t).*2 /\
  closing_hooks t = outcome_hooks t.
Proof.
  intros Hh Hp.
  destruct (process_spec this m) as (out0 & out' & m'' & t' & body & Hp' & Hr & Hc & Ho & _).
  rewrite Hp in Hp'. injection Hp' as <- <- <-.
  destruct (run_spec_hooks _ _ _ _ _ _ _ Hh Hr) as (H1 & H2 & H3).
  rewrite !(when_hooked_Some _ _ _ Hh) in Hc.
  assert (Hout : match out with Ok _ => ["after:pipeline"] | _ => [] end =
                 hook_names match out0 with
                            | Ok result =>
                                when_hooked this
                                  [EvEmit "after:pipeline" (PPipelineResult result)]
                            | _ => []
                            end).
  { destruct out0; [destruct Ho as (? & -> & _)|subst out|destruct Ho as [-> _]];
      by rewrite ?(when_hooked_Some _ _ _ Hh). }
  split; [|split].
  - exists (hook_names body). split; [done|].
    rewrite <- hook_names_core, Hc, Hout. simpl. by rewrite hook_names_app.
  - rewrite <- before_stage_names_core, <- invoked_core, Hc. simpl.
    rewrite before_stage_names_app, invoked_app, fmap_app, H2.
    by destruct out0; rewrite ?(when_hooked_Some _ _ _ Hh).
  - rewrite <- closing_hooks_core, <- outcome_hooks_core, Hc. simpl.
    rewrite closing_hooks_app, outcome_hooks_app, H3.
    by destruct out0; rewrite ?(when_hooked_Some _ _ _ Hh).
Qed.

(** C3 (as the code has it).  With a hook manager attached,
    [before:pipeline] is emitted first; every pass of every executed
    stage emits [before:stage] followed by exactly one of [after:stage]
    (when the call returned) and [error:stage] (when it threw); and
    [after:pipeline] is emitted once, last, whenever [process] returns,
    also when the run stopped before the last stage. *)
Theorem process_hook_order this hm m out m' t :
  Pipeline.hooks this = Some hm ->
  Pipeline.process this m = (out, m', t) ->
  (exists body,
      passes body /\
      hook_names t =
        "before:pipeline" :: body ++
        match out with Ok _ => ["after:pipeline"] | _ => [] end) /\
  closing_hooks t = outcome_hooks t.
Proof.
  intros Hh Hp. destruct (process_hooks _ _ _ _ _ _ Hh Hp) as (H1 & _ & H3). done.
Qed.

(** C9.  [before:stage] is emitted inside the retry loop: the stage
    names carried by the [before:stage] emissions of a run are, in
    order, the names of the stage calls of that run, so a stage called
    [k] times under its name produces [k] such emissions. *)
Theorem before_stage_per_attempt this hm m out m' t :
  Pipeline.hooks this = Some hm ->
  Pipeline.process this m = (out, m', t) ->
  before_stage_names t = (invoked t).*2 /\
  forall n, before_stage_count n t = calls_named n t.
Proof.
  intros Hh Hp. destruct (process_hooks _ _ _ _ _ _ Hh Hp) as (_ & H & _).
  split; [done|]. intros n. unfold before_stage_count, calls_named. by rewrite H.
Qed.

End HookOrder.

(** ** Retries *)
Section Retry.
Context {W : Type}.
Implicit Types (m : Machine W) (this : Pipeline.t W) (stage : Pipeline.Stage W).

Lemma invoked_when_hooked_emit this h p : invoked (when_hooked this [EvEmit h p]) = [].
Proof. unfold when_hooked. by destruct (Pipeline.hooks this). Qed.

Lemma invoked_pass_returned this idx n r : invoked (pass_returned this idx n r) = [(idx, n)].
Proof.
  unfold pass_returned. by rewrite !invoked_app, !invoked_when_hooked_emit.
Qed.

Lemma invoked_pass_threw this idx n e : invoked (pass_threw this idx n e) = [(idx, n)].
Proof.
  unfold pass_threw. by rewrite !invoked_app, !invoked_when_hooked_emit.
Qed.










(** What [handle] answers for a stage with a [retry] strategy and a
    thrown value with a constructor. *)
Lemma answers_retry (eh : ErrorHandler.t W) (e : Error) n a hr ht mr bo :
  ErrorHandler.recoveryStrategies eh !! n = Some (ErrorHandler.mkStrategy "retry" mr bo) ->
  a <> 0%Z ->
  answers eh e n a hr ht ->
  hr = Ok (if (a <? num_or mr 3)%Z
           then ErrorHandler.mkRecovery "retry" (Some "stage_error") None
           else ErrorHandler.mkRecovery "stop" (Some "max_retries") None) /\
  ht = EvHandle n e (Some a) ::
       (if (a <? num_or mr 3)%Z then [EvSleep (num_or bo 100 * a)] else []).
Proof.
  intros Hs Ha (m1 & m2 & H).
  assert (Hg : get (ErrorHandler.recoveryStrategies eh) n =
               Own (ErrorHandler.mkStrategy "retry" mr bo)).
  { unfold get. by rewrite Hs. }
  destruct (handle_strategy eh e n (ErrorHandler.mkContext (Some a)) m1)
    as (r & t & Hh & Hhandle); [eauto|].
  rewrite H in Hhandle. injection Hhandle as -> -> ->.
  destruct (handleStageError_own eh e n (ErrorHandler.mkContext (Some a))
              (set_errorStats (counted_error e n (errorStats m1)) m1) _ Hg)
    as (re & fb & Hown).
  rewrite Hh in Hown. unfold strategy_action in Hown. simpl in Hown.
  destruct (Z.eqb_spec a 0); [done|].
  unfold ErrorHandler.handleStageError in Hh. rewrite Hg in Hh. simpl in Hh.
  destruct (Z.eqb_spec a 0); [done|].
  destruct (a <? num_or mr 3)%Z; by injection Hh as -> ->.
Qed.



End Retry.

(** ** Stage errors and the caller of [process] *)
Section Propagation.
Context {W : Type}.
Implicit Types (m : Machine W) (this : Pipeline.t W) (stage : Pipeline.Stage W).

Lemma get_plain {A : Type} (table : gmap string A) k :
  plain table -> get table k <> Beyond.
Proof.
  unfold plain, get. intros ->.
  destruct (table !! k); [done|]. by destruct (inherited k).
Qed.






End Propagation.

(** ** Resolution order of [handle] *)
Section Resolution.
Context {W : Type}.
Implicit Types (m : Machine W) (eh : ErrorHandler.t W).

Lemma get_own {A : Type} (table : gmap string A) k a :
  table !! k = Some a -> get table k = Own a.
Proof. unfold get. by intros ->. Qed.

Lemma get_own_inv {A : Type} (table : gmap string A) k a :
  get table k = Own a -> table !! k = Some a.
Proof.
  unfold get. destruct (table !! k); [by intros [= ->]|].
  destruct (table !! "__proto__"); [done|]. by destruct (inherited k).
Qed.

Lemma get_absent {A : Type} (table : gmap string A) k :
  get table k = Absent -> table !! k = None.
Proof.
  unfold get. destruct (table !! k); [done|].
  intros _. done.
Qed.

(** The kind dispatch is entered only from the branch of [handle] in
    which the lookup of the strategy found nothing. *)
Lemma dispatch_without_strategy eh (error : Exn) stageName context m k :
  EvDispatch k ∈ (ErrorHandler.handle eh error stageName context m).2 ->
  get (ErrorHandler.recoveryStrategies eh) stageName = Absent.
Proof.
  destruct error as [| |e].
  1,2: rewrite handle_no_constructor by done; simpl;
    intros Hin; apply list_elem_of_singleton in Hin; done.
  destruct (get (ErrorHandler.recoveryStrategies eh) stageName) as [s| | |] eqn:Hs;
    [| |done|].
  1,2: destruct (handle_strategy eh e stageName context m) as (r & t & Hh & ->); [eauto|];
    destruct (handleStageError_run eh e stageName context
                (set_errorStats (counted_error e stageName (errorStats m)) m))
      as (r' & t' & Hh' & Hi & Hd & _);
    rewrite Hh in Hh'; injection Hh' as <- <-; simpl;
    intros [Hin|Hin]%elem_of_cons; [done|];
    assert (Hk : k ∈ dispatches t)
      by (unfold dispatches; rewrite list_elem_of_omap; by exists (EvDispatch k));
    rewrite Hd in Hk; by apply elem_of_nil in Hk.
  rewrite handle_beyond by done. simpl.
  intros Hin. apply list_elem_of_singleton in Hin. done.
Qed.

(** C5.  When a recovery strategy is registered for the stage name,
    [handle] resolves an error through it, whatever the kind of the
    error and whatever is in the table of kind handlers: the answer is
    the one the strategy stands for ([stop], [skip] and [fallback] as
    they are, [retry] while the attempt is below [maxRetries] and
    [stop]/[max_retries] from then on, [stop]/[unknown_strategy] for
    any other strategy name), the kind dispatch is not consulted and
    no handler runs.  For any thrown value, the kind dispatch is
    consulted only when no strategy is registered for the stage name;
    and it is consulted for an error when the lookup of the strategy
    finds nothing. *)
Theorem strategy_takes_precedence eh stageName context :
  (forall s (e : Error) m,
     ErrorHandler.recoveryStrategies eh !! stageName = Some s ->
     exists recovery t,
       ErrorHandler.handle eh e stageName context m =
         (Ok recovery, set_errorStats (counted_error e stageName (errorStats m)) m, t) /\
       dispatches t = [] /\
       let attempt := num_or (ErrorHandler.attempt context) 1 in
       (ErrorHandler.strategy s = "stop" ->
          recovery = ErrorHandler.mkRecovery "stop" (Some "stage_error") None) /\
       (ErrorHandler.strategy s = "skip" ->
          recovery = ErrorHandler.mkRecovery "skip" (Some "stage_error") None) /\
       (ErrorHandler.strategy s = "retry" ->
          (attempt < num_or (ErrorHandler.maxRetries s) 3)%Z ->
          recovery = ErrorHandler.mkRecovery "retry" (Some "stage_error") None) /\
       (ErrorHandler.strategy s = "retry" ->
          (num_or (ErrorHandler.maxRetries s) 3 <= attempt)%Z ->
          recovery = ErrorHandler.mkRecovery "stop" (Some "max_retries") None) /\
       (ErrorHandler.strategy s = "fallback" ->
          recovery = ErrorHandler.mkRecovery "fallback" (Some "stage_error") (Some VNull)) /\
       (ErrorHandler.strategy s ∉ ["stop"; "skip"; "retry"; "fallback"] ->
          recovery = ErrorHandler.mkRecovery "stop" (Some "unknown_strategy") None)) /\
  (forall (error : Exn) m k,
     EvDispatch k ∈ (ErrorHandler.handle eh error stageName context m).2 ->
     ErrorHandler.recoveryStrategies eh !! stageName = None) /\
  (forall (e : Error) m,
     get (ErrorHandler.recoveryStrategies eh) stageName = Absent ->
     EvDispatch (ctor_name e) ∈ (ErrorHandler.handle eh e stageName context m).2).
Proof.
  split; [|split].
  - intros s e m Hs. apply get_own in Hs.
    destruct (handle_strategy eh e stageName context m) as (r & t & Hh & ->); [eauto|].
    destruct (handleStageError_run eh e stageName context
                (set_errorStats (counted_error e stageName (errorStats m)) m))
      as (r' & t' & Hh' & _ & Hd & _).
    rewrite Hh in Hh'. injection Hh' as <- <-.
    unfold ErrorHandler.handleStageError in Hh. rewrite Hs in Hh.
    destruct (String.eqb_spec (ErrorHandler.strategy s) "stop") as [E1|E1].
    { injection Hh as <- <-. eexists _, _. split; [done|]. split; [done|].
      rewrite E1. repeat split; try done. intros Hn. set_solver. }
    destruct (String.eqb_spec (ErrorHandler.strategy s) "skip") as [E2|E2].
    { injection Hh as <- <-. eexists _, _. split; [done|]. split; [done|].
      rewrite E2. repeat split; try done. intros Hn. set_solver. }
    destruct (String.eqb_spec (ErrorHandler.strategy s) "retry") as [E3|E3].
    { destruct (Z.ltb_spec (num_or (ErrorHandler.attempt context) 1)
                  (num_or (ErrorHandler.maxRetries s) 3)) as [Hlt|Hge];
        injection Hh as <- <-; (eexists _, _; split; [done|]; split; [done|]);
        rewrite E3; repeat split; try done; try (intros; lia).
      all: intros Hn; set_solver. }
    destruct (String.eqb_spec (ErrorHandler.strategy s) "fallback") as [E4|E4].
    { injection Hh as <- <-. eexists _, _. split; [done|]. split; [done|].
      rewrite E4. repeat split; try done. intros Hn. set_solver. }
    injection Hh as <- <-. eexists _, _. split; [done|]. split; [done|].
    repeat split; done.
  - intros error m k Hin. apply get_absent. by eapply dispatch_without_strategy.
  - intros e m Hs.
    destruct (handle_dispatch eh e stageName context m Hs) as (r & m' & t & _ & ->).
    simpl. set_solver.
Qed.

(** X28.  For a stage name under which the lookup of the strategy
    finds nothing (no strategy is registered for it and it is not the
    name of a member of [Object.prototype]), a
    [DatabaseError] handled by the built-in handler resolves by its
    code, and an error whose kind has no handler resolves to
    [stop]/[unknown_error]. *)
Theorem unregistered_stage_dispatch eh stageName (error : Error) context m :
  get (ErrorHandler.recoveryStrategies eh) stageName = Absent ->
  (ctor_name error = "DatabaseError" ->
   ErrorHandler.errorHandlers eh !! "DatabaseError" = Some ErrorHandler.HDatabaseError ->
     (code error = Some "ECONNREFUSED" ->
        (ErrorHandler.handle eh error stageName context m).1.1 =
          Ok (ErrorHandler.mkRecovery "stop" (Some "db_connection_failed") None)) /\
     (code error = Some "QUERY_CANCELLED" ->
        (ErrorHandler.handle eh error stageName context m).1.1 =
          Ok (ErrorHandler.mkRecovery "skip" (Some "db_timeout") None)) /\
     (code error <> Some "ECONNREFUSED" -> code error <> Some "QUERY_CANCELLED" ->
        (ErrorHandler.handle eh error stageName context m).1.1 =
          Ok (ErrorHandler.mkRecovery "skip" (Some "db_error") None))) /\
  (get (ErrorHandler.errorHandlers eh) (ctor_name error) = Absent ->
     (ErrorHandler.handle eh error stageName context m).1.1 =
       Ok (ErrorHandler.mkRecovery "stop" (Some "unknown_error") None)).
Proof.
  intros Hs.
  destruct (handle_dispatch eh error stageName context m Hs) as (r & m' & t & Hd & ->).
  simpl. split.
  - intros Hk Hh. rewrite Hk in Hd. rewrite (get_own _ _ _ Hh) in Hd. simpl in Hd.
    unfold ErrorHandler.handleDatabaseError in Hd.
    repeat split.
    + intros Hc. rewrite decide_True in Hd by done. by injection Hd as <- _ _.
    + intros Hc. rewrite decide_False in Hd by congruence.
      rewrite decide_True in Hd by done. by injection Hd as <- _ _.
    + intros H1 H2. rewrite !decide_False in Hd by done. by injection Hd as <- _ _.
  - intros Hk. rewrite Hk in Hd. by injection Hd as <- _ _.
Qed.

End Resolution.

(** ** HookManager.emit *)
Section Emit.
Context {W : Type}.
Implicit Types (m : Machine W) (this : HookManager.t W).

(** [on] appends to the callbacks of its hook and touches no other. *)
Lemma listeners_on this hookName callback h :
  HookManager.listeners (HookManager.on this hookName callback) h =
    if decide (h = hookName)
    then HookManager.listeners this hookName ++ [callback]
    else HookManager.listeners this h.
Proof.
  unfold HookManager.listeners, HookManager.on. simpl.
  destruct (HookManager.hooks this !! hookName) as [l|] eqn:E;
    destruct (decide (h = hookName)) as [->|Hne];
    rewrite ?lookup_alter_eq, ?lookup_alter_ne, ?lookup_insert_eq,
      ?lookup_insert_ne, ?E by done; done.
Qed.

Lemma run_listeners_app data (l1 l2 : list (HookManager.Listener W)) s :
  run_listeners data (l1 ++ l2) s = run_listeners data l2 (run_listeners data l1 s).
Proof. apply fold_left_app. Qed.

Lemma thrown_by_app data (l1 l2 : list (HookManager.Listener W)) s :
  thrown_by data (l1 ++ l2) s =
    thrown_by data l1 s ++ thrown_by data l2 (run_listeners data l1 s).
Proof.
  revert s. induction l1 as [|cb l1 IH]; intros s; [done|]. simpl.
  destruct (cb data s) as [[[]|e] s'] eqn:E; simpl; by rewrite IH.
Qed.

Lemma console_errors_emit hookName data (errs : list Exn) :
  console_errors (EvEmit hookName data :: map (EvConsoleError hookName) errs) =
    map (pair hookName) errs.
Proof.
  unfold console_errors. simpl. induction errs as [|e errs IH]; [done|].
  simpl. by rewrite IH.
Qed.

(** C7.  [emit] calls every listener of the hook, one after the other
    in registration order, each from the store its predecessor left;
    a listener that throws is caught and reported on the console, the
    listeners after it still run, and [emit] itself always returns
    normally.  In particular, for listeners registered in order A, B,
    C after the ones already there, A runs, then B, then C, whichever
    of them throw. *)
Theorem emit_runs_every_listener this hookName data m :
  (exists m',
      HookManager.emit this hookName data m =
        (Ok tt, m',
         EvEmit hookName data ::
         map (EvConsoleError hookName)
             (thrown_by data (HookManager.listeners this hookName) (store m))) /\
      store m' = run_listeners data (HookManager.listeners this hookName) (store m)) /\
  (forall A B C,
      let this' :=
        HookManager.on (HookManager.on (HookManager.on this hookName A) hookName B)
          hookName C in
      HookManager.listeners this' hookName =
        HookManager.listeners this hookName ++ [A; B; C] /\
      exists out m' t,
        HookManager.emit this' hookName data m = (out, m', t) /\
        out = Ok tt /\
        let s0 := run_listeners data (HookManager.listeners this hookName) (store m) in
        let sA := (A data s0).2 in
        let sB := (B data sA).2 in
        let sC := (C data sB).2 in
        store m' = sC /\
        forall e, (B data sA).1 = Thrown e -> (hookName, e) ∈ console_errors t).
Proof.
  split.
  - rewrite emit_eq. by eexists.
  - intros A B C this'.
    assert (Hl : HookManager.listeners this' hookName =
                 HookManager.listeners this hookName ++ [A; B; C]).
    { unfold this'. rewrite !listeners_on, !decide_True by done.
      by rewrite <- !app_assoc. }
    split; [done|].
    rewrite emit_eq, Hl. eexists _, _, _. split; [done|]. split; [done|].
    intros s0 sA sB sC. split.
    + subst s0 sA sB sC. simpl. by rewrite run_listeners_app.
    + intros e He. rewrite console_errors_emit, thrown_by_app.
      apply list_elem_of_fmap. exists e. split; [done|].
      apply elem_of_app. right. fold s0. simpl.
      destruct (A data s0) as [oA sA'] eqn:EA. subst sA. simpl in *.
      destruct (B data sA') as [oB sB'] eqn:EB. simpl in He. subst oB.
      destruct oA; set_solver.
Qed.

End Emit.

(** ** ActionHandler.handle *)
Section Actions.
Context {W : Type}.
Implicit Types (m : Machine W) (this : ActionHandler.t W).

(** [handle] for a name under which [this.handlers] holds a handler. *)
Lemma handle_own this n handler data m :
  n <> "" ->
  ActionHandler.handlers this !! n = Some handler ->
  ActionHandler.handle this (Some n) data m =
    try_catch
      (call (handler match data with VUndefined => VObj [] | _ => data end) >>
       ActionHandler.updateStats n >> ret true)
      (fun error => ActionHandler.count_failed >> throw error) m.
Proof.
  intros Hne Hh. unfold ActionHandler.handle.
  assert (Hnb : String.eqb n "" = false) by (by apply String.eqb_neq).
  rewrite Hnb. unfold get. unfold ActionHandler.Handler in *. by rewrite Hh.
Qed.

(** X29.  [handle] returns [false], without calling anything, when the
    action name is [null] or absent (the empty name counts as absent
    for the [!actionType] guard) or when the lookup finds nothing
    under the name (no handler is registered for it and it is not the
    name of a member of [Object.prototype]); when the handler
    registered for the name runs to completion it returns [true] and
    counts the action; when that handler throws, the same value is
    thrown to the caller and the failure is counted. *)
Theorem handle_action this actionType data m :
  ((actionType = None \/ actionType = Some "" \/
    exists n, actionType = Some n /\ get (ActionHandler.handlers this) n = Absent) ->
     ActionHandler.handle this actionType data m = (Ok false, m, [])) /\
  (forall n handler,
      actionType = Some n -> n <> "" ->
      ActionHandler.handlers this !! n = Some handler ->
      let data' := match data with VUndefined => VObj [] | _ => data end in
      (forall s', handler data' (store m) = (Returned tt, s') ->
         exists m', ActionHandler.handle this actionType data m = (Ok true, m', []) /\
                    store m' = s' /\
                    handled (stats m') = S (handled (stats m))) /\
      (forall e s', handler data' (store m) = (Thrown e, s') ->
         exists m', ActionHandler.handle this actionType data m = (Throw e, m', []) /\
                    store m' = s' /\
                    failed (stats m') = S (failed (stats m)))).
Proof.
  split.
  - intros [->|[->|(n & -> & Hn)]]; unfold ActionHandler.handle; [done..|].
    destruct (String.eqb n ""); [done|]. by rewrite Hn.
  - intros n handler -> Hne Hh data'. rewrite (handle_own _ _ _ _ _ Hne Hh). fold data'.
    unfold try_catch, bind, call, ActionHandler.updateStats,
      ActionHandler.count_failed, modify, throw, ret.
    split.
    + intros s' ->. simpl. by eexists.
    + intros e s' ->. simpl. by eexists.
Qed.

End Actions.

(** ** The part of a run that belongs to one stage *)
Section Slots.
Context {W : Type}.
Implicit Types (m : Machine W) (this : Pipeline.t W) (stage : Pipeline.Stage W).

Lemma carry_same {A : Type} (out out' : Res A) :
  carry out = Some out' -> out' = out /\ forall r, out <> Ok r.
Proof. destruct out; intros [= <-]; done. Qed.

Lemma slot_spec_positions this idx stage n maxAttempts result a t out (ev : Event) j :
  slot_spec this idx stage n maxAttempts result a t out ->
  ev ∈ t -> position ev = Some j -> j = idx.
Proof.
  intros Hs Hin Hp. apply (slot_spec_events _ _ _ _ _ _ _ _ _ Hs) in Hin.
  destruct ev; simpl in *; try done; injection Hp as <-; tauto.
Qed.

Lemma run_spec_positions this idx rest result body out (ev : Event) j :
  run_spec this idx rest result body out ->
  ev ∈ body -> position ev = Some j -> (idx <= j)%nat.
Proof.
  induction 1 as [idx result|idx st rest result t res' Hs _
                 |idx st rest result t out out' Hs _
                 |idx st rest result t res' t' out Hs _ _ IH]; intros Hin Hp.
  - by apply elem_of_nil in Hin.
  - by rewrite (slot_spec_positions _ _ _ _ _ _ _ _ _ _ _ Hs Hin Hp).
  - by rewrite (slot_spec_positions _ _ _ _ _ _ _ _ _ _ _ Hs Hin Hp).
  - apply elem_of_app in Hin as [Hin|Hin].
    + by rewrite (slot_spec_positions _ _ _ _ _ _ _ _ _ _ _ Hs Hin Hp).
    + specialize (IH Hin Hp). lia.
Qed.

(** Every stage loop that is given a pass calls its stage. *)
Lemma slot_spec_calls this idx stage n maxAttempts result a t out :
  slot_spec this idx stage n maxAttempts result a t out ->
  out <> Undetermined NoFuel -> EvInvoke idx n ∈ t.
Proof.
  destruct 1; unfold pass_returned, pass_threw; try done; set_solver.
Qed.


(** The run of the stage list seen from the [k]-th of the remaining
    stages: either the run ends before reaching it, or the log splits
    into what came before, the loop of that stage, and what came after,
    which is empty unless the loop ended on a result that is not
    stopped. *)
Lemma run_spec_slot this idx rest result body out k stage :
  run_spec this idx rest result body out ->
  stop result = false ->
  rest !! k = Some stage ->
  (forall ev j, ev ∈ body -> position ev = Some j -> (j < idx + k)%nat) \/
  exists pre t1 post res out1,
    body = pre ++ t1 ++ post /\
    (forall ev j, ev ∈ pre -> position ev = Some j -> (j < idx + k)%nat) /\
    (forall ev j, ev ∈ post -> position ev = Some j -> (idx + k < j)%nat) /\
    slot_spec this (idx + k) stage (Pipeline.stage_name stage)
      (Pipeline.max_attempts this (Pipeline.stage_name stage)) res 0 t1 out1 /\
    stop res = false /\
    ((out1 = out /\ post = [] /\ forall r', out1 = Ok r' -> stop r' = true) \/
     (exists r', out1 = Ok r' /\ stop r' = false /\
        run_spec this (S (idx + k)) (drop (S k) rest) r' post out)).
Proof.
  intros Hr. revert k.
  induction Hr as [idx result|idx st rest result t res' Hs Hstop
                  |idx st rest result t out out' Hs Hcarry
                  |idx st rest result t res' t' out Hs Hgo Hr IH]; intros k Hres Hk.
  - done.
  - destruct k as [|k]; simpl in Hk.
    + injection Hk as ->. right. exists [], t, [], result, (Ok res').
      rewrite Nat.add_0_r, app_nil_r. repeat split; try done.
      * intros ev j Hin. by apply elem_of_nil in Hin.
      * intros ev j Hin. by apply elem_of_nil in Hin.
      * left. repeat split; [done..|]. by intros r' [= <-].
    + left. intros ev j Hin Hp.
      rewrite (slot_spec_positions _ _ _ _ _ _ _ _ _ _ _ Hs Hin Hp). lia.
  - apply carry_same in Hcarry as [-> Hnok].
    destruct k as [|k]; simpl in Hk.
    + injection Hk as ->. right. exists [], t, [], result, out.
      rewrite Nat.add_0_r, app_nil_r. repeat split; try done.
      * intros ev j Hin. by apply elem_of_nil in Hin.
      * intros ev j Hin. by apply elem_of_nil in Hin.
      * left. repeat split; [done..|]. intros r' ->. by destruct (Hnok r').
    + left. intros ev j Hin Hp.
      rewrite (slot_spec_positions _ _ _ _ _ _ _ _ _ _ _ Hs Hin Hp). lia.
  - destruct k as [|k]; simpl in Hk.
    + injection Hk as ->. right. exists [], t, t', result, (Ok res').
      rewrite Nat.add_0_r. repeat split; try done.
      * intros ev j Hin. by apply elem_of_nil in Hin.
      * intros ev j Hin Hp. pose proof (run_spec_positions _ _ _ _ _ _ _ _ Hr Hin Hp). lia.
      * right. by exists res'.
    + destruct (IH k Hgo Hk)
        as [Hbefore|(pre & t1 & post & res & out1 & -> & Hpre & Hpost & Hslot & Hres' & Hend)].
      * left. intros ev j [Hin|Hin]%elem_of_app Hp.
        -- rewrite (slot_spec_positions _ _ _ _ _ _ _ _ _ _ _ Hs Hin Hp). lia.
        -- specialize (Hbefore ev j Hin Hp). lia.
      * right. exists (t ++ pre), t1, post, res, out1.
        replace (idx + S k)%nat with (S idx + k)%nat by lia.
        rewrite <- app_assoc. repeat split; try done.
        intros ev j [Hin|Hin]%elem_of_app Hp.
        -- rewrite (slot_spec_positions _ _ _ _ _ _ _ _ _ _ _ Hs Hin Hp). lia.
        -- by apply (Hpre ev j).
Qed.


End Slots.

(** ** Counted errors of a run *)
Section Accounting.
Context {W : Type}.
Implicit Types (m : Machine W) (this : Pipeline.t W) (stage : Pipeline.Stage W).

Lemma threw_pass_returned this idx n r : threw (pass_returned this idx n r) = [].
Proof. unfold pass_returned, when_hooked. by destruct (Pipeline.hooks this). Qed.

Lemma threw_pass_threw this idx n e : threw (pass_threw this idx n e) = [(idx, e)].
Proof. unfold pass_threw, when_hooked. by destruct (Pipeline.hooks this). Qed.

Lemma handle_calls_pass_returned this idx n r :
  handle_calls (pass_returned this idx n r) = [].
Proof. unfold pass_returned, when_hooked. by destruct (Pipeline.hooks this). Qed.

Lemma handle_calls_pass_threw this idx n e :
  handle_calls (pass_threw this idx n e) = [].
Proof. unfold pass_threw, when_hooked. by destruct (Pipeline.hooks this). Qed.

Lemma threw_answer (eh : ErrorHandler.t W) error n a hr ht :
  answers eh error n a hr ht -> threw ht = [].
Proof. intros Hans. by apply (omap_answer _ _ _ _ _ _ _ Hans). Qed.

Lemma handle_calls_answer (eh : ErrorHandler.t W) error n a hr ht :
  answers eh error n a hr ht -> handle_calls ht = [(n, error)].
Proof.
  intros (t & -> & Hi & _)%answers_trace. unfold handle_calls. cbn.
  by rewrite omap_inner.
Qed.

(** In the loop of a stage, [handle] is called once for every call
    that threw, with the name of the stage and the thrown value, when
    an error handler is attached, and never otherwise. *)
Lemma slot_spec_handled this idx stage n maxAttempts result a t out :
  slot_spec this idx stage n maxAttempts result a t out ->
  exists errors,
    threw t = pair idx <$> errors /\
    handle_calls t =
      match Pipeline.errorHandler this with
      | Some _ => pair n <$> errors
      | None => []
      end.
Proof.
  induction 1 as [a|a r r' res' ? ? ?|a e Hnone ?|a e eh hr ht res' Heh ? Hans ?
                 |a e eh hr ht out Heh ? Hans ?
                 |a e eh hr ht t out Heh ? Hans ? ? (errors & IH1 & IH2)];
    rewrite ?threw_app, ?handle_calls_app, ?threw_pass_returned, ?threw_pass_threw,
      ?handle_calls_pass_returned, ?handle_calls_pass_threw,
      ?(threw_answer _ _ _ _ _ _ Hans), ?(handle_calls_answer _ _ _ _ _ _ Hans).
  - exists []. by destruct (Pipeline.errorHandler this).
  - exists []. by destruct (Pipeline.errorHandler this).
  - exists [e]. by rewrite Hnone.
  - exists [e]. by rewrite Heh.
  - exists [e]. by rewrite Heh.
  - exists (e :: errors). rewrite IH1, IH2, Heh. done.
Qed.

Lemma thrown_under_app (stages : list (Pipeline.Stage W)) t1 t2 :
  thrown_under stages (t1 ++ t2) = thrown_under stages t1 ++ thrown_under stages t2.
Proof. unfold thrown_under. by rewrite threw_app, omap_app. Qed.

Lemma thrown_under_core (stages : list (Pipeline.Stage W)) t :
  thrown_under stages (core t) = thrown_under stages t.
Proof. unfold thrown_under. by rewrite threw_core. Qed.

Lemma slot_spec_thrown this stages idx stage maxAttempts result a t out :
  stages !! idx = Some stage ->
  slot_spec this idx stage (Pipeline.stage_name stage) maxAttempts result a t out ->
  length (thrown_under stages t) = length (threw t) /\
  handle_calls t =
    match Pipeline.errorHandler this with
    | Some _ => thrown_under stages t
    | None => []
    end.
Proof.
  intros Hi Hs.
  destruct (slot_spec_handled _ _ _ _ _ _ _ _ _ Hs) as (errors & Ht & ->).
  assert (Hu : thrown_under stages t = pair (Pipeline.stage_name stage) <$> errors).
  { unfold thrown_under. rewrite Ht. clear Ht.
    induction errors as [|e errors IH]; [done|]. cbn. rewrite Hi. cbn. by f_equal. }
  rewrite Hu, Ht, !length_fmap. split; [done|].
  by destruct (Pipeline.errorHandler this).
Qed.

Lemma run_spec_handled this stages idx rest result body out :
  (forall k, rest !! k = stages !! (idx + k)%nat) ->
  run_spec this idx rest result body out ->
  length (thrown_under stages body) = length (threw body) /\
  handle_calls body =
    match Pipeline.errorHandler this with
    | Some _ => thrown_under stages body
    | None => []
    end.
Proof.
  intros Hsub Hr. revert Hsub.
  induction Hr as [idx result|idx st rest result t res' Hs _
                  |idx st rest result t out out' Hs _
                  |idx st rest result t res' t' out Hs _ Hr IH]; intros Hsub.
  - by destruct (Pipeline.errorHandler this).
  - eapply slot_spec_thrown; [|exact Hs].
    specialize (Hsub 0%nat). simpl in Hsub. by rewrite Nat.add_0_r in Hsub.
  - eapply slot_spec_thrown; [|exact Hs].
    specialize (Hsub 0%nat). simpl in Hsub. by rewrite Nat.add_0_r in Hsub.
  - assert (Hi : stages !! idx = Some st).
    { specialize (Hsub 0%nat). simpl in Hsub. by rewrite Nat.add_0_r in Hsub. }
    destruct (slot_spec_thrown this stages idx st _ _ _ _ _ Hi Hs) as [H1 H2].
    destruct IH as [IH1 IH2].
    { intros k. specialize (Hsub (S k)). simpl in Hsub.
      by replace (S idx + k)%nat with (idx + S k)%nat by lia. }
    rewrite handle_calls_app, thrown_under_app, threw_app, !length_app, H1, IH1, H2, IH2.
    split; [done|]. by destruct (Pipeline.errorHandler this).
Qed.

(** The calls of [handle] of a run. *)
Lemma process_handled this m :
  length (thrown_under (Pipeline.stages this) (Pipeline.process this m).2) =
    length (threw (Pipeline.process this m).2) /\
  handle_calls (Pipeline.process this m).2 =
    match Pipeline.errorHandler this with
    | Some _ => thrown_under (Pipeline.stages this) (Pipeline.process this m).2
    | None => []
    end.
Proof.
  destruct (process_spec this m) as (out0 & out & m' & t & body & -> & Hr & Hc & _).
  simpl.
  assert (Hh : handle_calls t = handle_calls body).
  { rewrite <- handle_calls_core, Hc, !handle_calls_app.
    unfold when_hooked. destruct (Pipeline.hooks this); destruct out0; simpl;
      by rewrite ?app_nil_r. }
  assert (Ht : threw t = threw body).
  { rewrite <- threw_core, Hc, !threw_app.
    unfold when_hooked. destruct (Pipeline.hooks this); destruct out0; simpl;
      by rewrite ?app_nil_r. }
  unfold thrown_under at 1 2. rewrite Hh, Ht.
  eapply run_spec_handled; [|exact Hr]. done.
Qed.

Lemma tally_total t st :
  State.total (tally t st) = (State.total st + length (handle_calls t))%nat.
Proof.
  revert st. induction t as [|ev t IH]; intros st; [simpl; lia|].
  destruct ev as [? ?|? ?|? ?|? ?|? ?|n err a|?|?]; simpl; rewrite ?IH; try done.
  unfold handle_calls. cbn. destruct err; simpl; lia.
Qed.

(** The count kept for a stage name that is not that of a member of
    [Object.prototype]. *)
Lemma bump_count table k n :
  inherited n = false -> table !! n <> Some Text ->
  bump table k !! n <> Some Text /\
  count_at (bump table k) n =
    (count_at table n + if String.eqb k n then 1 else 0)%nat.
Proof.
  intros Hn Ht. unfold bump, count_at.
  destruct (String.eqb_spec k "__proto__") as [->|Hk].
  { destruct (String.eqb_spec "__proto__" n) as [<-|_]; [done|].
    split; [done|]. destruct (table !! n) as [[]|]; lia. }
  destruct (String.eqb_spec k n) as [->|Hne].
  - rewrite lookup_insert_eq. destruct (table !! n) as [[c|]|] eqn:E; [| |rewrite Hn].
    + split; [done|lia].
    + done.
    + split; [done|lia].
  - rewrite lookup_insert_ne by done. split; [done|].
    destruct (table !! n) as [[]|]; lia.
Qed.


Lemma process_tally this m :
  errorStats (Pipeline.process this m).1.2 =
    tally (Pipeline.process this m).2 (errorStats m).
Proof.
  by destruct (process_spec this m) as (out0 & out & m' & t & body & -> & _ & _ & _ & H).
Qed.

(** X9.  A run counts one error per stage call that threw when an error
    handler is attached, also when the run itself ends on an
    exception, and none when no handler is attached. *)
Theorem process_counts_thrown_errors this m :
  exists out m' t,
    Pipeline.process this m = (out, m', t) /\
    State.total (errorStats m') =
      (State.total (errorStats m) +
       match Pipeline.errorHandler this with
       | Some _ => length (threw t)
       | None => 0
       end)%nat.
Proof.
  pose proof (process_tally this m) as Ht.
  pose proof (process_handled this m) as [Hl Hh].
  destruct (Pipeline.process this m) as [[out m'] t] eqn:E. simpl in *.
  exists out, m', t. split; [done|]. rewrite Ht, tally_total, Hh.
  destruct (Pipeline.errorHandler this); [|done]. by rewrite Hl.
Qed.

End Accounting.

(** ** What the recovery strategies do to a run *)
Section Strategies.
Context {W : Type}.
Implicit Types (m : Machine W) (this : Pipeline.t W) (stage : Pipeline.Stage W).

(** The events about stage calls of a run are those of its stage list. *)
Lemma process_run this m out m' t :
  Pipeline.process this m = (out, m', t) ->
  exists out0 body,
    run_spec this 0 (Pipeline.stages this) initial_result body out0 /\
    invoked t = invoked body /\
    (forall ev j, position ev = Some j -> ev ∈ t <-> ev ∈ body) /\
    (forall ev, ev ∈ body -> ev ∈ t) /\
    match out0 with
    | Ok result => exists result', out = Ok result' /\ may_hand this result result'
    | Throw e => out = Throw e
    | Undetermined why => out = Undetermined why /\ why <> NoFuel
    end.
Proof.
  intros Hp.
  destruct (process_spec this m) as (out0 & out' & m'' & t' & body & Hp' & Hr & Hc & Ho & _).
  rewrite Hp in Hp'. injection Hp' as <- <- <-.
  destruct (process_body _ _ out0 _ _ _ _ Hp Hc) as [Hb1 Hb2].
  exists out0, body. split; [done|]. split; [|split; [|done]].
  { rewrite <- invoked_core, Hc, !invoked_app, invoked_when_hooked_emit. simpl.
    destruct out0; by rewrite ?invoked_when_hooked_emit, app_nil_r. }
  intros ev j Hpos. split; [|by apply Hb1].
  intros Hin. apply Hb2; [done|by destruct ev|]. intros h p ->. done.
Qed.




(** The call that returned closes its stage loop. *)
Lemma slot_spec_returned this idx stage n maxAttempts result a t out r :
  slot_spec this idx stage n maxAttempts result a t out ->
  EvReturned idx r ∈ t ->
  exists r' result',
    out = Ok result' /\ may_become this n r r' /\ returned_result r' result result'.
Proof.
  induction 1 as [a|a r0 r' res' ? Hb Hres|a e ? ?|a e eh hr ht res' ? ? Hans ?
                 |a e eh hr ht out ? ? Hans ?
                 |a e eh hr ht t out ? ? Hans ? ? IH]; intros Hin.
  - by apply elem_of_nil in Hin.
  - apply elem_of_pass_returned in Hin. destruct Hin as [?|[?|[[= <-]|?]]]; try done.
    by exists r', res'.
  - apply elem_of_pass_threw in Hin. naive_solver.
  - apply elem_of_app in Hin as [Hin|Hin].
    + apply elem_of_pass_threw in Hin. naive_solver.
    + destruct (elem_of_answer _ _ _ _ _ _ _ Hans Hin); done.
  - apply elem_of_app in Hin as [Hin|Hin].
    + apply elem_of_pass_threw in Hin. naive_solver.
    + destruct (elem_of_answer _ _ _ _ _ _ _ Hans Hin); done.
  - apply elem_of_app in Hin as [[Hin|Hin]%elem_of_app|Hin]; [| |by apply IH].
    + apply elem_of_pass_threw in Hin. naive_solver.
    + destruct (elem_of_answer _ _ _ _ _ _ _ Hans Hin); done.
Qed.



(** The log of a run around the loop of the stage an event is about. *)
Lemma run_spec_around this body out i stage (ev : Event) :
  run_spec this 0 (Pipeline.stages this) initial_result body out ->
  Pipeline.stages this !! i = Some stage ->
  ev ∈ body -> position ev = Some i ->
  exists pre t1 post res out1,
    body = pre ++ t1 ++ post /\ ev ∈ t1 /\
    (forall ev j, ev ∈ pre -> position ev = Some j -> (j < i)%nat) /\
    (forall ev j, ev ∈ post -> position ev = Some j -> (i < j)%nat) /\
    slot_spec this i stage (Pipeline.stage_name stage)
      (Pipeline.max_attempts this (Pipeline.stage_name stage)) res 0 t1 out1 /\
    stop res = false /\
    ((out1 = out /\ post = [] /\ forall r', out1 = Ok r' -> stop r' = true) \/
     (exists r', out1 = Ok r' /\ stop r' = false /\
        run_spec this (S i) (drop (S i) (Pipeline.stages this)) r' post out)).
Proof.
  intros Hr Hi Hin Hpos.
  destruct (run_spec_slot this 0 _ _ _ _ i stage Hr eq_refl Hi)
    as [Hbefore|(pre & t1 & post & res & out1 & -> & Hpre & Hpost & Hslot & Hres & Hend)].
  - specialize (Hbefore ev i Hin Hpos). lia.
  - exists pre, t1, post, res, out1. simpl in *. repeat split; try done.
    rewrite !elem_of_app in Hin. destruct Hin as [Hin|[Hin|Hin]]; [|done|].
    + specialize (Hpre ev i Hin Hpos). lia.
    + specialize (Hpost ev i Hin Hpos). lia.
Qed.


(** The stage after a loop that ended on a result that is not stopped
    is called, unless the run breaks off for want of passes. *)
Lemma run_spec_goes_on this i r' post out next :
  run_spec this (S i) (drop (S i) (Pipeline.stages this)) r' post out ->
  out <> Undetermined NoFuel ->
  Pipeline.stages this !! S i = Some next ->
  EvInvoke (S i) (Pipeline.stage_name next) ∈ post.
Proof.
  intros Hr Hf Hnext.
  assert (Hd : drop (S i) (Pipeline.stages this) !! 0%nat = Some next).
  { by rewrite lookup_drop, Nat.add_0_r. }
  destruct (drop (S i) (Pipeline.stages this)) as [|st rest]; [done|].
  injection Hd as ->.
  inversion Hr as [|? ? ? ? t1 ? Hs|? ? ? ? t1 o1 ? Hs Hcarry|? ? ? ? t1 ? t2 ? Hs]; subst.
  - apply slot_spec_calls in Hs; [done|done].
  - apply carry_same in Hcarry as [-> _]. by apply slot_spec_calls in Hs.
  - apply slot_spec_calls in Hs; [|done]. set_solver.
Qed.

(** The outcome of the stage loops of a run that did not break off is
    not a want of passes. *)
Lemma process_run_fuel (out0 out : Res RunResult) this :
  match out0 with
  | Ok result => exists result', out = Ok result' /\ may_hand this result result'
  | Throw e => out = Throw e
  | Undetermined why => out = Undetermined why /\ why <> NoFuel
  end ->
  out0 <> Undetermined NoFuel.
Proof. intros Ho ->. by destruct Ho. Qed.




(** X5.  Once a call of a stage has returned without a stop signal, and
    with [after:stage] listeners that leave the returned object as it
    is, the stage after it is called, whatever number of failed
    attempts of the stage came before. *)
Theorem returned_stage_continues this i stage next m out m' t r :
  keeps_returned this ->
  Pipeline.stages this !! i = Some stage ->
  Pipeline.stages this !! S i = Some next ->
  Pipeline.process this m = (out, m', t) ->
  EvReturned i r ∈ t ->
  truthy (opt_prop r "stop") = false ->
  EvInvoke (S i) (Pipeline.stage_name next) ∈ t.
Proof.
  intros Hkeep Hi Hnext Hp Hin Hstop.
  destruct (process_run _ _ _ _ _ Hp) as (out0 & body & Hr & Hinv & Hev & Hsub & Ho).
  apply (Hev (EvReturned i r) i eq_refl) in Hin.
  apply (Hev (EvInvoke (S i) (Pipeline.stage_name next)) (S i) eq_refl).
  destruct (run_spec_around _ _ _ _ _ _ Hr Hi Hin eq_refl)
    as (pre & t1 & post & res & out1 & -> & Hin1 & Hpre & Hpost & Hslot & Hres & Hend).
  destruct (slot_spec_returned _ _ _ _ _ _ _ _ _ _ Hslot Hin1)
    as (r' & r1 & -> & Hb & _ & _ & Hrr).
  apply (keeps_returned_become _ _ _ _ Hkeep) in Hb as ->.
  assert (Hs1 : stop r1 = false).
  { destruct r as [o|]; simpl in *; [rewrite Hstop in Hrr|]; destruct Hrr; congruence. }
  destruct Hend as [(_ & _ & Hstopped)|(r' & _ & _ & Hrest)].
  - specialize (Hstopped r1 eq_refl). congruence.
  - rewrite !elem_of_app. right; right.
    eapply run_spec_goes_on; [done| |done]. by eapply process_run_fuel.
Qed.

End Strategies.

(** ** The diagnostic fields of the result *)
Section Diagnostics.
Context {W : Type}.
Implicit Types (m : Machine W) (this : Pipeline.t W) (stage : Pipeline.Stage W).

Lemma slot_spec_error this idx stage n maxAttempts result a t out result' :
  slot_spec this idx stage n maxAttempts result a t out ->
  out = Ok result' ->
  (error result' = error result /\ errorStage result' = errorStage result) \/
  (stop result' = true /\
   exists e, error result' = Some e /\ errorStage result' = Some n /\ EvThrew idx e ∈ t).
Proof.
  induction 1 as [a|a r r' res' ? ? (He & Hes & _)|a e ? ?|a e eh hr ht res' ? ? ? Hrec
                 |a e eh hr ht out ? ? ? Hrec
                 |a e eh hr ht t out ? ? ? ? ? IH]; intros Hout.
  - done.
  - injection Hout as <-. by left.
  - injection Hout as <-. by left.
  - injection Hout as <-. destruct hr as [rec| |]; [|done..]. simpl in Hrec.
    destruct (recovered_cases maxAttempts (a + 1) result e n rec)
      as [[Hc _]|[Hc|[Hc|[(Hc & _)|[Hc _]]]]]; rewrite Hc in Hrec; try done.
    + injection Hrec as <-. right. split; [done|]. exists e. repeat split.
      unfold pass_threw. set_solver.
    + injection Hrec as <-. by left.
  - subst out. by destruct (recover _ _ _ _ _ _).
  - destruct (IH Hout) as [?|(? & e0 & ? & ? & Hin)]; [by left|].
    right. split; [done|]. exists e0. repeat split; [done..|]. set_solver.
Qed.

Lemma run_spec_error this idx rest result body out result' n :
  run_spec this idx rest result body out ->
  out = Ok result' ->
  errorStage result = None ->
  errorStage result' = Some n ->
  exists k stage e,
    rest !! k = Some stage /\ n = Pipeline.stage_name stage /\
    error result' = Some e /\ EvThrew (idx + k) e ∈ body /\ stop result' = true /\
    forall j n', (idx + k < j)%nat -> EvInvoke j n' ∉ body.
Proof.
  intros Hr. revert result'.
  induction Hr as [idx result|idx st rest result t res' Hs Hstop
                  |idx st rest result t out out' Hs Hcarry
                  |idx st rest result t res' t' out Hs Hgo Hr IH];
    intros result' Hout Hnone Hsome.
  - injection Hout as <-. congruence.
  - injection Hout as <-.
    destruct (slot_spec_error _ _ _ _ _ _ _ _ _ _ Hs eq_refl)
      as [[_ Heq]|(_ & e & He & Hes & Hin)]; [congruence|].
    exists 0%nat, st, e. rewrite Nat.add_0_r. repeat split; try done; [congruence|].
    intros j n' Hlt Hj.
    pose proof (slot_spec_positions _ _ _ _ _ _ _ _ _ _ j Hs Hj eq_refl). lia.
  - apply carry_same in Hcarry as [-> Hnok]. by destruct (Hnok result').
  - destruct (slot_spec_error _ _ _ _ _ _ _ _ _ _ Hs eq_refl)
      as [[_ Heq]|(Hstop' & _)]; [|congruence].
    destruct (IH result' Hout ltac:(congruence) Hsome)
      as (k & stage & e & Hk & Hn & He & Hin & Hstop' & Hno).
    exists (S k), stage, e. replace (idx + S k)%nat with (S idx + k)%nat by lia.
    repeat split; try done; [set_solver|].
    intros j n' Hlt [Hj|Hj]%elem_of_app; [|by eapply Hno].
    pose proof (slot_spec_positions _ _ _ _ _ _ _ _ _ _ j Hs Hj eq_refl). lia.
Qed.

(** X6.  With [after:pipeline] listeners that leave the result as it
    is: when the result of a run carries an [errorStage], it is the
    name of a stage of the pipeline whose call threw the value stored
    in [error]; the result is stopped and no stage after that one was
    called. *)
Theorem error_stage_names_failed_stage this m result m' t n :
  keeps_result this ->
  Pipeline.process this m = (Ok result, m', t) ->
  errorStage result = Some n ->
  exists i stage e,
    Pipeline.stages this !! i = Some stage /\ n = Pipeline.stage_name stage /\
    error result = Some e /\ EvThrew i e ∈ t /\ stop result = true /\
    forall j n', (i < j)%nat -> EvInvoke j n' ∉ t.
Proof.
  intros Hkeep Hp Hsome.
  destruct (process_run _ _ _ _ _ Hp) as (out0 & body & Hr & Hinv & Hev & Hsub & Ho).
  destruct out0 as [result0| |]; [|done|by destruct Ho].
  destruct Ho as (result' & [= <-] & Hh).
  apply (keeps_result_hand _ _ _ Hkeep) in Hh as ->.
  destruct (run_spec_error _ _ _ _ _ _ _ n Hr eq_refl eq_refl Hsome)
    as (k & stage & e & Hk & Hn & He & Hin & Hstop & Hno).
  exists k, stage, e. simpl in *. repeat split; try done.
  - by apply (Hev (EvThrew k e) k eq_refl).
  - intros j n' Hlt Hj. apply (Hno j n' Hlt). by apply (Hev (EvInvoke j n') j eq_refl).
Qed.

End Diagnostics.

(** ** Unnamed stages *)
Section Anonymous.
Context {W : Type}.
Implicit Types (m : Machine W) (this : Pipeline.t W) (stage : Pipeline.Stage W).



End Anonymous.

(** ** Runs in which no stage halts the pipeline *)
Section Benign.
Context {W : Type}.
Implicit Types (m : Machine W) (this : Pipeline.t W) (stage : Pipeline.Stage W).

Lemma slot_spec_benign this idx stage n maxAttempts result a t out :
  keeps_returned this ->
  benign this stage ->
  slot_spec this idx stage n maxAttempts result a t out ->
  out <> Undetermined NoFuel ->
  invoked t = [(idx, n)] /\
  exists result',
    out = Ok result' /\ stop result' = stop result /\
    metadata result' = metadata result /\
    error result' = error result /\ errorStage result' = errorStage result.
Proof.
  intros Hk Hb.
  induction 1 as [a|a r r' res' [s Hr] Hbe (He & Hes & Hres)|a e Hnone ?
                 |a e eh hr ht res' Heh [s Hs] ? ?
                 |a e eh hr ht out Heh [s Hs] ? ?
                 |a e eh hr ht t out Heh [s Hs] ? ? ? IH]; intros Hf;
    try done;
    try (specialize (Hb s); rewrite Hs in Hb; congruence).
  - specialize (Hb s). rewrite Hr in Hb.
    apply (keeps_returned_become _ _ _ _ Hk) in Hbe as ->.
    rewrite invoked_pass_returned. split; [done|]. exists res'. split; [done|].
    destruct r as [o|]; simpl in *; [rewrite Hb in Hres|]; naive_solver.
  - rewrite invoked_pass_threw. split; [done|]. by exists result.
Qed.

Lemma run_spec_benign this idx rest result body out :
  keeps_returned this ->
  Forall (benign this) rest ->
  stop result = false ->
  run_spec this idx rest result body out ->
  out <> Undetermined NoFuel ->
  invoked body = slots idx rest /\
  exists result',
    out = Ok result' /\ stop result' = false /\
    metadata result' = metadata result /\
    error result' = error result /\ errorStage result' = errorStage result.
Proof.
  intros Hk Hall Hstop Hr. revert Hall Hstop.
  induction Hr as [idx result|idx st rest result t res' Hs Hstop'
                  |idx st rest result t out out' Hs Hcarry
                  |idx st rest result t res' t' out Hs Hgo Hr IH];
    intros Hall Hstop Hf.
  - split; [done|]. by exists result.
  - apply Forall_cons in Hall as [Hb _].
    destruct (slot_spec_benign _ _ _ _ _ _ _ _ _ Hk Hb Hs Hf)
      as (_ & r' & [= <-] & ? & _).
    congruence.
  - apply Forall_cons in Hall as [Hb _].
    apply carry_same in Hcarry as [-> Hnok].
    destruct (slot_spec_benign _ _ _ _ _ _ _ _ _ Hk Hb Hs Hf) as (_ & r' & -> & _).
    by destruct (Hnok r').
  - apply Forall_cons in Hall as [Hb Hall].
    destruct (slot_spec_benign _ _ _ _ _ _ _ _ _ Hk Hb Hs ltac:(done))
      as (Hi & r' & [= <-] & H1 & H2 & H3 & H4).
    destruct (IH Hall Hgo Hf) as (Hi' & r'' & -> & H1' & H2' & H3' & H4').
    split.
    + rewrite invoked_app, Hi, Hi'. unfold slots. simpl.
      rewrite Nat.add_0_r. f_equal. apply imap_ext. intros i x _. simpl.
      f_equal. lia.
    + exists r''. split; [done|]. split; [done|]. split; [congruence|].
      split; congruence.
Qed.

Lemma process_benign this m :
  keeps_returned this ->
  Forall (benign this) (Pipeline.stages this) ->
  exists result m' t,
    Pipeline.process this m = (Ok result, m', t) /\
    invoked t = slots 0 (Pipeline.stages this) /\
    (keeps_result this ->
     stop result = false /\ metadata result = ∅ /\
     error result = None /\ errorStage result = None).
Proof.
  intros Hkr Hall.
  destruct (Pipeline.process this m) as [[out m'] t] eqn:Hp.
  destruct (process_run _ _ _ _ _ Hp) as (out0 & body & Hr & Hinv & Hev & Hsub & Ho).
  pose proof (process_run_fuel _ _ _ Ho) as Hf.
  destruct (run_spec_benign this 0 (Pipeline.stages this) initial_result body out0)
    as (Hi & r' & -> & H); [done..|].
  destruct Ho as (result' & -> & Hh).
  exists result', m', t. split; [done|]. rewrite Hinv. split; [done|].
  intros Hkp. apply (keeps_result_hand _ _ _ Hkp) in Hh as ->. naive_solver.
Qed.

(** X1.  When every stage returns without a stop signal, and the
    [after:stage] listeners leave the returned objects as they are,
    each stage is called exactly once, in the order of the stage list,
    and the run returns a result which, as long as the
    [after:pipeline] listeners leave it as it is, is not stopped and
    carries no error and no metadata. *)
Theorem all_stages_run_once this m :
  keeps_returned this ->
  (forall stage s, stage ∈ Pipeline.stages this ->
     exists r s', Pipeline.run stage s = (Returned r, s') /\
                  truthy (opt_prop r "stop") = false) ->
  exists result m' t,
    Pipeline.process this m = (Ok result, m', t) /\
    invoked t = slots 0 (Pipeline.stages this) /\
    (keeps_result this ->
     stop result = false /\ metadata result = ∅ /\
     error result = None /\ errorStage result = None).
Proof.
  intros Hkr Hall. apply process_benign; [done|].
  apply Forall_forall. intros stage Hin s.
  destruct (Hall stage s Hin) as (r & s' & -> & Hs). done.
Qed.

(** X2.  Without an error handler a stage that throws is skipped: if no
    stage returns a stop signal, and the [after:stage] listeners leave
    the returned objects as they are, each stage is still called
    exactly once, in order, whether it throws or not, and the result,
    as long as the [after:pipeline] listeners leave it as it is, is not
    stopped and carries no error. *)
Theorem unhandled_errors_are_skipped this m :
  keeps_returned this ->
  Pipeline.errorHandler this = None ->
  (forall stage s r, stage ∈ Pipeline.stages this ->
     (Pipeline.run stage s).1 = Returned r -> truthy (opt_prop r "stop") = false) ->
  exists result m' t,
    Pipeline.process this m = (Ok result, m', t) /\
    invoked t = slots 0 (Pipeline.stages this) /\
    (keeps_result this ->
     stop result = false /\ error result = None /\ errorStage result = None).
Proof.
  intros Hkr Hnone Hall.
  destruct (process_benign this m Hkr) as (result & m' & t & Hp & Hi & H).
  { apply Forall_forall. intros stage Hin s.
    destruct (Pipeline.run stage s).1 as [r|e] eqn:E; [|done].
    by apply (Hall stage s r). }
  exists result, m', t. split; [done|]. split; [done|]. naive_solver.
Qed.

End Benign.

(** ** Error statistics *)
Section Statistics.
Context {W : Type}.
Implicit Types (m : Machine W) (eh : ErrorHandler.t W).

Lemma bump_other table k n : n <> k -> bump table k !! n = table !! n.
Proof.
  intros Hne. unfold bump. destruct (String.eqb k "__proto__"); [done|].
  by rewrite lookup_insert_ne.
Qed.

(** X7.  Every call of [handle] raises [total] by one, whatever the
    resolution and also when it throws.  For a value with a
    constructor, the counts of its kind and of the stage grow by one
    (for names that are not those of members of [Object.prototype]) and
    every other entry stays; for [null], [undefined] or an object
    without constructor, [handle] throws a [TypeError] and nothing else
    is counted. *)
Theorem handle_counts_every_error eh (error : Exn) stageName context m :
  exists r m' t,
    ErrorHandler.handle eh error stageName context m = (r, m', t) /\
    State.total (errorStats m') = S (State.total (errorStats m)) /\
    ((forall e, error <> Raised e) ->
       r = Throw (Raised ErrorHandler.no_constructor) /\
       byStage (errorStats m') = byStage (errorStats m) /\
       byType (errorStats m') = byType (errorStats m)) /\
    (forall e, error = Raised e ->
       (inherited stageName = false ->
        byStage (errorStats m) !! stageName <> Some Text ->
        count_at (byStage (errorStats m')) stageName =
          S (count_at (byStage (errorStats m)) stageName)) /\
       (inherited (ctor_name e) = false ->
        byType (errorStats m) !! ctor_name e <> Some Text ->
        count_at (byType (errorStats m')) (ctor_name e) =
          S (count_at (byType (errorStats m)) (ctor_name e))) /\
       (forall n, n <> stageName ->
          byStage (errorStats m') !! n = byStage (errorStats m) !! n) /\
       (forall k, k <> ctor_name e ->
          byType (errorStats m') !! k = byType (errorStats m) !! k)).
Proof.
  destruct (handle_run eh error stageName context m) as (r & m' & t & E & _ & He & _).
  eexists r, m', _. split; [done|]. rewrite He.
  split; [by destruct error|]. split.
  - intros Hne. rewrite handle_no_constructor in E by done.
    injection E as <- _ _. by destruct error as [| |e]; [..|destruct (Hne e)].
  - intros e ->. simpl. split; [|split; [|split]].
    + intros Hn Ht. destruct (bump_count _ stageName stageName Hn Ht) as [_ ->].
      rewrite String.eqb_refl. lia.
    + intros Hn Ht. destruct (bump_count _ (ctor_name e) (ctor_name e) Hn Ht) as [_ ->].
      rewrite String.eqb_refl. lia.
    + intros n Hn. by apply bump_other.
    + intros k Hk. by apply bump_other.
Qed.

End Statistics.

(** ** Registering strategies and kind handlers *)
Section Registration.
Context {W : Type}.
Implicit Types (m : Machine W) (eh : ErrorHandler.t W).

Lemma get_insert_eq {A : Type} (table : gmap string A) k a :
  get (<[k := a]> table) k = Own a.
Proof. unfold get. by rewrite lookup_insert_eq. Qed.

(** An assignment under a key other than [__proto__] changes no other
    lookup. *)
Lemma get_insert_ne {A : Type} (table : gmap string A) k k' a :
  k' <> k -> k' <> "__proto__" ->
  get (<[k' := a]> table) k = get table k.
Proof.
  intros Hne Hp. unfold get. by rewrite !lookup_insert_ne.
Qed.

Lemma run_handler_local eh eh' (h : ErrorHandler.Handler W) error stageName context m :
  get (ErrorHandler.recoveryStrategies eh') stageName =
    get (ErrorHandler.recoveryStrategies eh) stageName ->
  ErrorHandler.run_handler eh' h error stageName context m =
    ErrorHandler.run_handler eh h error stageName context m.
Proof.
  intros H. destruct h; simpl; try done.
  unfold ErrorHandler.handleStageError. by rewrite H.
Qed.

Lemma handle_local eh eh' (error : Exn) stageName context m :
  get (ErrorHandler.recoveryStrategies eh') stageName =
    get (ErrorHandler.recoveryStrategies eh) stageName ->
  (forall e, error = Raised e ->
     get (ErrorHandler.errorHandlers eh') (ctor_name e) =
       get (ErrorHandler.errorHandlers eh) (ctor_name e)) ->
  ErrorHandler.handle eh' error stageName context m =
    ErrorHandler.handle eh error stageName context m.
Proof.
  intros Hs Hh.
  destruct error as [| |e]; [by rewrite !handle_no_constructor..|].
  specialize (Hh e eq_refl).
  unfold ErrorHandler.handle, bind, log, ErrorHandler.updateStats, modify. simpl.
  rewrite Hs.
  destruct (get (ErrorHandler.recoveryStrategies eh) stageName) eqn:E; try done.
  - unfold ErrorHandler.handleStageError. by rewrite Hs, E.
  - unfold ErrorHandler.handleStageError. by rewrite Hs, E.
  - rewrite Hh.
    destruct (get (ErrorHandler.errorHandlers eh) (ctor_name e)) as [h| | |]; [|done..].
    unfold try_catch.
    rewrite (run_handler_local eh eh'); [done|]. by rewrite Hs, E.
Qed.

Lemma handle_retry eh stageName maxRetries backoffMs (error : Error) a m :
  ErrorHandler.recoveryStrategies eh !! stageName =
    Some (ErrorHandler.mkStrategy "retry" maxRetries backoffMs) ->
  (0 < a)%Z ->
  exists m' t,
    ErrorHandler.handle eh error stageName (ErrorHandler.mkContext (Some a)) m =
      (Ok (if (a <? num_or maxRetries 3)%Z
           then ErrorHandler.mkRecovery "retry" (Some "stage_error") None
           else ErrorHandler.mkRecovery "stop" (Some "max_retries") None),
       m', t) /\
    sleeps t = (if (a <? num_or maxRetries 3)%Z then [(num_or backoffMs 100 * a)%Z] else []) /\
    store m' = store m.
Proof.
  intros Hs Ha.
  destruct (ErrorHandler.handle eh error stageName (ErrorHandler.mkContext (Some a)) m)
    as [[hr m'] ht] eqn:E.
  assert (Hans : answers eh error stageName a hr ht) by (by exists m, m').
  assert (Hne : a <> 0%Z) by lia.
  destruct (answers_retry _ _ _ _ _ _ _ _ Hs Hne Hans) as [-> ->].
  eexists m', _. split; [done|]. split; [by destruct (_ <? _)%Z|].
  destruct (handle_strategy eh error stageName (ErrorHandler.mkContext (Some a)) m)
    as (r & t & _ & Hh); [left; eexists; by apply get_own|].
  rewrite E in Hh. by injection Hh as _ -> _.
Qed.

(** X10.  With the strategy [retry] registered for a stage, [handle]
    answers an error with [retry] after waiting
    [(backoffMs || 100) * attempt] as long as the attempt is below
    [maxRetries || 3], and with [stop] and the reason [max_retries]
    without waiting from then on; an option given as [0] counts as not
    given.  The kind of the error and the store play no part. *)
Theorem retry_waits_linear_backoff eh stageName maxRetries backoffMs (error : Error) a m :
  (0 < a)%Z ->
  exists m' t,
    ErrorHandler.handle
      (ErrorHandler.registerRecoveryStrategy eh stageName "retry" maxRetries backoffMs)
      error stageName (ErrorHandler.mkContext (Some a)) m =
      (Ok (if (a <? num_or maxRetries 3)%Z
           then ErrorHandler.mkRecovery "retry" (Some "stage_error") None
           else ErrorHandler.mkRecovery "stop" (Some "max_retries") None),
       m', t) /\
    sleeps t = (if (a <? num_or maxRetries 3)%Z then [(num_or backoffMs 100 * a)%Z] else []) /\
    store m' = store m.
Proof.
  intros Ha. apply handle_retry; [|done]. apply lookup_insert_eq.
Qed.

(** X11.  Registrations under a name other than [__proto__] are local:
    a strategy registered for one stage leaves [handle] as it was for
    every other stage, and a handler registered for one kind of error
    leaves it as it was for the errors of every other kind.  (An
    assignment under [__proto__] installs a prototype that every
    lookup without an entry of its own goes through.) *)
Theorem registration_is_local eh (error : Exn) stageName context m :
  (forall n strategy maxRetries backoffMs,
     n <> stageName -> n <> "__proto__" ->
     ErrorHandler.handle
       (ErrorHandler.registerRecoveryStrategy eh n strategy maxRetries backoffMs)
       error stageName context m =
     ErrorHandler.handle eh error stageName context m) /\
  (forall kind h,
     (forall e, error = Raised e -> kind <> ctor_name e) -> kind <> "__proto__" ->
     ErrorHandler.handle (ErrorHandler.registerErrorHandler eh kind h)
       error stageName context m =
     ErrorHandler.handle eh error stageName context m).
Proof.
  split.
  - intros n s mr bo Hn Hp. apply handle_local; [|done].
    by apply get_insert_ne.
  - intros kind h Hk Hp. apply handle_local; [done|].
    intros e ->. apply get_insert_ne; [|done]. by apply Hk.
Qed.

(** X12.  A handler registered for a kind of error is the one [handle]
    calls for an error of that kind when the lookup of a strategy for
    the stage finds nothing: what it returns is the answer, what it
    throws is thrown to the caller, and the store is the one it left. *)
Theorem registered_handler_is_called eh kind f (error : Error) stageName context m :
  get (ErrorHandler.recoveryStrategies eh) stageName = Absent ->
  ctor_name error = kind ->
  exists m' t,
    ErrorHandler.handle
      (ErrorHandler.registerErrorHandler eh kind (ErrorHandler.HCustom f))
      error stageName context m =
      (match (f error stageName context (store m)).1 with
       | Returned recovery => Ok recovery
       | Thrown e => Throw e
       end, m', t) /\
    store m' = (f error stageName context (store m)).2.
Proof.
  intros Hs <-.
  destruct (handle_dispatch
              (ErrorHandler.registerErrorHandler eh (ctor_name error) (ErrorHandler.HCustom f))
              error stageName context m Hs) as (r & m' & t & Hd & ->).
  simpl in Hd. rewrite get_insert_eq in Hd. simpl in Hd. unfold call in Hd. simpl in Hd.
  destruct (f error stageName context (store m)) as [[rec|e] s'];
    injection Hd as <- <- <-; by eexists _, _.
Qed.

(** X13.  What [handle] falls back to for an error: a strategy name
    outside [stop], [skip], [retry] and [fallback] stops the run with
    the reason [unknown_strategy], and so does a stage name that is the
    name of a member of [Object.prototype] when nothing is registered
    for it; when the lookup of a strategy finds nothing, the built-in
    handlers answer a [StageError] with [stop]/[no_strategy] and a
    [ValidationError] with [skip]/[validation_failed]. *)
Theorem default_resolutions eh (error : Error) stageName context m :
  (forall s,
     ErrorHandler.recoveryStrategies eh !! stageName = Some s ->
     ErrorHandler.strategy s <> "stop" -> ErrorHandler.strategy s <> "skip" ->
     ErrorHandler.strategy s <> "retry" -> ErrorHandler.strategy s <> "fallback" ->
     (ErrorHandler.handle eh error stageName context m).1.1 =
       Ok (ErrorHandler.mkRecovery "stop" (Some "unknown_strategy") None)) /\
  (get (ErrorHandler.recoveryStrategies eh) stageName = Inherited ->
     (ErrorHandler.handle eh error stageName context m).1.1 =
       Ok (ErrorHandler.mkRecovery "stop" (Some "unknown_strategy") None)) /\
  (get (ErrorHandler.recoveryStrategies eh) stageName = Absent ->
   ErrorHandler.errorHandlers eh !! ctor_name error = Some ErrorHandler.HStageError ->
     (ErrorHandler.handle eh error stageName context m).1.1 =
       Ok (ErrorHandler.mkRecovery "stop" (Some "no_strategy") None)) /\
  (get (ErrorHandler.recoveryStrategies eh) stageName = Absent ->
   ErrorHandler.errorHandlers eh !! ctor_name error = Some ErrorHandler.HValidationError ->
     (ErrorHandler.handle eh error stageName context m).1.1 =
       Ok (ErrorHandler.mkRecovery "skip" (Some "validation_failed") None)).
Proof.
  split; [|split; [|split]].
  - intros s Hs H1 H2 H3 H4. apply get_own in Hs.
    destruct (handle_strategy eh error stageName context m) as (r & t & Hh & ->); [eauto|].
    simpl. revert Hh. unfold ErrorHandler.handleStageError. rewrite Hs.
    apply String.eqb_neq in H1, H2, H3, H4. rewrite H1, H2, H3, H4.
    unfold ret. by intros [= <- <-].
  - intros Hs.
    destruct (handle_strategy eh error stageName context m) as (r & t & Hh & ->); [eauto|].
    simpl. revert Hh. unfold ErrorHandler.handleStageError. rewrite Hs.
    unfold ret. by intros [= <- <-].
  - intros Hs Hh.
    destruct (handle_dispatch eh error stageName context m Hs) as (r & m' & t & Hd & ->).
    rewrite (get_own _ _ _ Hh) in Hd. simpl in Hd.
    unfold ErrorHandler.handleStageError in Hd. rewrite Hs in Hd.
    by injection Hd as <- _ _.
  - intros Hs Hh.
    destruct (handle_dispatch eh error stageName context m Hs) as (r & m' & t & Hd & ->).
    rewrite (get_own _ _ _ Hh) in Hd. by injection Hd as <- _ _.
Qed.

End Registration.

(** ** The waits of a retried stage *)
Section Backoff.
Context {W : Type}.
Implicit Types (m : Machine W) (this : Pipeline.t W) (stage : Pipeline.Stage W).


Section Retried.
Variables (this : Pipeline.t W) (eh : ErrorHandler.t W) (idx : nat)
  (stage : Pipeline.Stage W) (n : string) (maxRetries backoffMs : option Z).
Hypothesis Heh : Pipeline.errorHandler this = Some eh.
Hypothesis Hstrategy :
  ErrorHandler.recoveryStrategies eh !! n =
    Some (ErrorHandler.mkStrategy "retry" maxRetries backoffMs).
Hypothesis Hthrows :
  forall s, exists (e : Error) s', Pipeline.run stage s = (Thrown e, s').



End Retried.


End Backoff.

(** ** Hook registration *)
Section Hooks.
Context {W : Type}.
Implicit Types (m : Machine W) (this : HookManager.t W).

Lemma emit_no_listener this hookName data m :
  HookManager.listeners this hookName = [] ->
  HookManager.emit this hookName data m = (Ok tt, m, [EvEmit hookName data]).
Proof. intros H. rewrite emit_eq, H. by destruct m. Qed.

(** X15.  Listeners are kept per hook name: registering a listener for
    one name changes neither what [emit] does for another name nor the
    count [getStatus] reports for it. *)
Theorem listeners_are_per_hook this hookName callback h data m :
  h <> hookName ->
  HookManager.emit (HookManager.on this hookName callback) h data m =
    HookManager.emit this h data m /\
  HookManager.getStatus (HookManager.on this hookName callback) !! h =
    HookManager.getStatus this !! h.
Proof.
  intros Hne. split.
  - rewrite !emit_eq, listeners_on. by rewrite decide_False.
  - unfold HookManager.getStatus, HookManager.on. simpl.
    rewrite !lookup_fmap.
    destruct (decide (h = "__proto__")) as [->|Hp];
      [by rewrite !lookup_delete_eq|].
    rewrite !lookup_delete_ne, lookup_alter_ne by done.
    destruct (HookManager.hooks this !! hookName); [done|].
    by rewrite lookup_insert_ne.
Qed.

(** X16.  [getStatus] reports for every hook name other than
    [__proto__] the number of listeners [emit] will call, a name never
    registered being absent; each [on] raises the count of its name by
    one.  (The status object is a plain object: the count of a hook
    named [__proto__] is not kept in it.) *)
Theorem getStatus_counts_listeners this hookName callback :
  (forall h, h <> "__proto__" ->
             default 0%nat (HookManager.getStatus this !! h) =
             length (HookManager.listeners this h)) /\
  (forall h, h <> "__proto__" ->
             HookManager.getStatus this !! h = None ->
             HookManager.listeners this h = []) /\
  (hookName <> "__proto__" ->
   HookManager.getStatus (HookManager.on this hookName callback) !! hookName =
     Some (S (length (HookManager.listeners this hookName)))).
Proof.
  split; [|split].
  - intros h Hp. unfold HookManager.getStatus, HookManager.listeners.
    rewrite lookup_fmap, lookup_delete_ne by done.
    by destruct (HookManager.hooks this !! h).
  - intros h Hp. unfold HookManager.getStatus, HookManager.listeners.
    rewrite lookup_fmap, lookup_delete_ne by done.
    by destruct (HookManager.hooks this !! h).
  - intros Hp. pose proof (listeners_on this hookName callback hookName) as Hl.
    rewrite decide_True in Hl by done.
    unfold HookManager.getStatus, HookManager.listeners in *.
    rewrite lookup_fmap, lookup_delete_ne by done.
    destruct (HookManager.hooks (HookManager.on this hookName callback) !! hookName)
      as [l|] eqn:E; simpl in *.
    + rewrite Hl, length_app. simpl. f_equal. lia.
    + by destruct (default [] (HookManager.hooks this !! hookName)).
Qed.

(** X17.  After [clear] no listener is left: [emit] calls nothing and
    leaves the state as it is for every hook name, [getStatus] is
    empty, and a listener registered afterwards is the only one its
    hook calls. *)
Theorem clear_forgets_listeners this hookName callback data m :
  (forall h, HookManager.emit (HookManager.clear this) h data m =
             (Ok tt, m, [EvEmit h data])) /\
  HookManager.getStatus (HookManager.clear this) = ∅ /\
  HookManager.listeners (HookManager.on (HookManager.clear this) hookName callback)
    hookName = [callback].
Proof.
  split; [|split].
  - intros h. by apply emit_no_listener.
  - unfold HookManager.getStatus, HookManager.clear. simpl.
    by rewrite delete_empty, fmap_empty.
  - by rewrite listeners_on, decide_True.
Qed.

End Hooks.

(** ** Dispatching actions *)
Section Dispatch.
Context {W : Type}.
Implicit Types (m : Machine W) (this : ActionHandler.t W).

(** What [handle] throws is what the handler it called threw, or the
    [TypeError] of calling what is no handler. *)
Lemma handle_outcome this a data m :
  plain (ActionHandler.handlers this) ->
  exists r m',
    ActionHandler.handle this a data m = (r, m', []) /\
    errorStats m' = errorStats m /\
    (dispatched this (a, data) = false -> r = Ok false /\ m' = m) /\
    (dispatched this (a, data) = true ->
       (r = Ok true /\
        handled (stats m') = S (handled (stats m)) /\
        failed (stats m') = failed (stats m)) \/
       ((exists e, r = Throw e /\
           (e = Nullish -> exists n h d s,
              ActionHandler.handlers this !! n = Some h /\ (h d s).1 = Thrown Nullish)) /\
        handled (stats m') = handled (stats m) /\
        failed (stats m') = S (failed (stats m)))).
Proof.
  intros Hp. unfold dispatched, ActionHandler.handle. simpl.
  destruct a as [n|]; [|by exists (Ok false), m].
  destruct (String.eqb n ""); [by exists (Ok false), m|]. simpl.
  pose proof (get_plain _ n Hp) as Hb.
  destruct (get (ActionHandler.handlers this) n) as [h| | |] eqn:Hg; [| | |done].
  - apply get_own_inv in Hg.
    unfold try_catch, bind, ActionHandler.run_found, call, ActionHandler.updateStats,
      ActionHandler.count_failed, modify, ret, throw.
    set (d := match data with VUndefined => VObj [] | _ => data end).
    destruct (h d (store m)) as [[[]|e] s'] eqn:Hh; simpl.
    + eexists _, _. split; [done|]. split; [done|]. split; [done|]. intros _. by left.
    + eexists _, _. split; [done|]. split; [done|]. split; [done|]. intros _. right.
      split; [|done]. exists e. split; [done|]. intros ->.
      exists n, h, d, (store m). split; [done|]. by rewrite Hh.
  - unfold try_catch, bind, ActionHandler.run_found, ActionHandler.updateStats,
      ActionHandler.count_failed, modify, ret, throw.
    destruct (member_returns n _); simpl.
    + eexists _, _. split; [done|]. split; [done|]. split; [done|]. intros _. by left.
    + eexists _, _. split; [done|]. split; [done|]. split; [done|]. intros _. right.
      split; [|done]. eexists. split; [done|]. done.
  - by exists (Ok false), m.
Qed.

(** One call of [handle] inside [handleAll]. *)
Lemma handle_caught this a data m :
  plain (ActionHandler.handlers this) ->
  (ActionHandler.logger this = true -> handlers_throw_values this) ->
  exists m',
    try_catch (ActionHandler.handle this a data >> ret tt)
              (ActionHandler.log_failure this) m = (Ok tt, m', []) /\
    errorStats m' = errorStats m /\
    (handled (stats m') + failed (stats m') =
     handled (stats m) + failed (stats m) +
     if dispatched this (a, data) then 1 else 0)%nat /\
    (dispatched this (a, data) = false -> m' = m).
Proof.
  intros Hp Hl.
  destruct (handle_outcome this a data m Hp) as (r & m' & E & He & Hno & Hyes).
  unfold try_catch, bind. rewrite E.
  destruct (dispatched this (a, data)) eqn:Hd.
  - destruct (Hyes eq_refl) as [(-> & H1 & H2)|((e & -> & Hnull) & H1 & H2)].
    + exists m'. unfold ret. split; [done|]. split; [done|]. split; [lia|done].
    + exists m'. unfold ActionHandler.log_failure.
      destruct (ActionHandler.logger this) eqn:Hlog.
      * destruct e as [| |e]; unfold ret; try (split; [done|]; split; [done|]; split; [lia|done]).
        exfalso. destruct (Hnull eq_refl) as (n & h & d & s & Hh & Hthrow).
        by apply (Hl eq_refl n h d s Hh).
      * unfold ret. split; [done|]. split; [done|]. split; [lia|done].
  - destruct (Hno eq_refl) as [-> ->]. exists m. unfold ret.
    split; [done|]. split; [done|]. split; [lia|done].
Qed.

Lemma length_filter_cons {A : Type} (f : A -> bool) x l :
  length (List.filter f (x :: l)) =
    ((if f x then 1 else 0) + length (List.filter f l))%nat.
Proof. simpl. by destruct (f x). Qed.

(** X18.  When no logger was given, or when no registered handler
    throws [null] or [undefined], and no prototype was installed in
    the table of handlers, [handleAll] never throws, whatever the
    handlers do; every action for which [handle] finds something to
    call is counted exactly once, as handled or as failed, and the
    others not at all. *)
Theorem handleAll_never_throws this actions m :
  plain (ActionHandler.handlers this) ->
  (ActionHandler.logger this = true -> handlers_throw_values this) ->
  exists m',
    ActionHandler.handleAll this actions m = (Ok tt, m', []) /\
    (handled (stats m') + failed (stats m') =
     handled (stats m) + failed (stats m) +
     length (List.filter (dispatched this) actions))%nat.
Proof.
  intros Hp Hl. revert m. induction actions as [|[a d] rest IH]; intros m.
  - exists m. simpl. split; [done|]. lia.
  - cbn [ActionHandler.handleAll].
    destruct (handle_caught this a d m Hp Hl) as (m1 & E1 & _ & Hc1 & _).
    destruct (IH m1) as (m2 & E2 & Hc2).
    unfold bind at 1. rewrite E1, E2. exists m2. split; [done|].
    rewrite Hc2, Hc1.
    rewrite length_filter_cons. destruct (dispatched this (a, d)); lia.
Qed.

Lemma bind_assoc {S A B C : Type} (c : M S A) (k1 : A -> M S B) (k2 : B -> M S C) s :
  bind (bind c k1) k2 s = bind c (fun a => bind (k1 a) k2) s.
Proof.
  unfold bind. destruct (c s) as [[[a| |] s1] t1]; [|done..].
  destruct (k1 a s1) as [[[b| |] s2] t2]; [|done..].
  destruct (k2 b s2) as [[r s3] t3]. by rewrite app_assoc.
Qed.


(** X20.  Handlers are kept per action name and the last registration
    wins: registering a handler under a name other than [__proto__]
    leaves [handle] as it was for every other name, a second
    registration for a name replaces the first, and after [clear] every
    action whose name is not that of a member of [Object.prototype] is
    answered with [false] and nothing is called. *)
Theorem register_is_local_and_last_wins this actionType h1 h2 a data m :
  (a <> Some actionType -> actionType <> "__proto__" ->
   ActionHandler.handle (ActionHandler.register this actionType h1) a data m =
     ActionHandler.handle this a data m) /\
  ActionHandler.handle
    (ActionHandler.register (ActionHandler.register this actionType h1) actionType h2)
    a data m =
    ActionHandler.handle (ActionHandler.register this actionType h2) a data m /\
  ((forall n, a = Some n -> inherited n = false) ->
   ActionHandler.handle (ActionHandler.clear this) a data m = (Ok false, m, [])).
Proof.
  split; [|split].
  - intros Hne Hp. unfold ActionHandler.handle, ActionHandler.register. simpl.
    destruct a as [n|]; [|done]. destruct (String.eqb n ""); [done|].
    rewrite get_insert_ne; [done| |done]. by intros ->.
  - unfold ActionHandler.handle, ActionHandler.register. simpl.
    by rewrite insert_insert_eq.
  - intros Hn. unfold ActionHandler.handle, ActionHandler.clear. simpl.
    destruct a as [n|]; [|done]. destruct (String.eqb n ""); [done|].
    unfold get. rewrite !lookup_empty. by rewrite (Hn n eq_refl).
Qed.

(** X21.  [getRegistered] lists each name other than [__proto__] that
    has a handler exactly once: a name is listed after [register] when
    it is the registered one or was listed before, nothing is listed
    after [clear], and, when no prototype was installed, an action
    whose name is not listed and is not that of a member of
    [Object.prototype] is answered with [false]. *)
Theorem getRegistered_lists_handlers this actionType handler :
  NoDup (ActionHandler.getRegistered this) /\
  (forall n, n ∈ ActionHandler.getRegistered this <->
             n <> "__proto__" /\ is_Some (ActionHandler.handlers this !! n)) /\
  (forall n, n ∈ ActionHandler.getRegistered
                   (ActionHandler.register this actionType handler) <->
             n <> "__proto__" /\ (n = actionType \/ n ∈ ActionHandler.getRegistered this)) /\
  ActionHandler.getRegistered (ActionHandler.clear this) = [] /\
  (forall n data m,
     plain (ActionHandler.handlers this) -> inherited n = false ->
     n ∉ ActionHandler.getRegistered this ->
     ActionHandler.handle this (Some n) data m = (Ok false, m, [])).
Proof.
  assert (Hin : forall (t : ActionHandler.t W) n,
            n ∈ ActionHandler.getRegistered t <->
            n <> "__proto__" /\ is_Some (ActionHandler.handlers t !! n)).
  { intros t n. unfold ActionHandler.getRegistered.
    rewrite list_elem_of_fmap. split.
    - intros ([k v] & -> & H). apply elem_of_map_to_list in H.
      apply lookup_delete_Some in H as [Hne H]. split; [done|]. by exists v.
    - intros [Hne [v H]]. exists (n, v). split; [done|].
      apply elem_of_map_to_list. by apply lookup_delete_Some. }
  split; [apply NoDup_fst_map_to_list|]. split; [apply Hin|]. split; [|split].
  - intros n. rewrite !Hin. unfold ActionHandler.register. simpl.
    rewrite lookup_insert_is_Some. split.
    + intros [Hp [->|[_ H]]]; (split; [done|]); [by left|by right].
    + intros [Hp [->|[_ H]]]; (split; [done|]); [by left|].
      destruct (decide (actionType = n)) as [->|Hne]; [by left|by right].
  - unfold ActionHandler.getRegistered, ActionHandler.clear. simpl.
    by rewrite delete_empty, map_to_list_empty.
  - intros n data m Hp Hi Hn. rewrite Hin in Hn.
    unfold ActionHandler.handle. destruct (String.eqb n ""); [done|].
    unfold get. unfold ActionHandler.Handler in *.
    destruct (_ !! n) as [h|] eqn:E.
    + exfalso. apply Hn. split; [|by exists h]. intros ->. by rewrite Hp in E.
    + by rewrite Hp, Hi.
Qed.

End Dispatch.

(** ** The bots of the clients *)
Section Bots.
Context {W C Adapter : Type}.
Implicit Types (this : BotManager.t W C) (l : list (string * BotManager.Entry W C)).
Implicit Types (BotEngine : Adapter -> C -> W -> Outcome (BotManager.Bot W) * W).
Implicit Types (createAdapter : C -> W -> Outcome Adapter * W).

Lemma map_get_delete l clientId k :
  BotManager.map_get k (BotManager.map_delete clientId l) =
    if decide (k = clientId) then None else BotManager.map_get k l.
Proof.
  induction l as [|[k' v] l IH]; simpl; [by case_decide|].
  destruct (String.eqb_spec k' clientId) as [->|Hne]; simpl.
  - rewrite IH. case_decide; [done|].
    destruct (String.eqb_spec clientId k) as [->|]; done.
  - rewrite IH. destruct (String.eqb_spec k' k) as [->|]; [|done].
    by rewrite decide_False.
Qed.

Lemma map_get_set l clientId entry k :
  BotManager.map_get k (BotManager.map_set clientId entry l) =
    if decide (k = clientId) then Some entry else BotManager.map_get k l.
Proof.
  induction l as [|[k' v] l IH]; simpl.
  - destruct (String.eqb_spec clientId k) as [->|]; case_decide; by subst.
  - destruct (String.eqb_spec k' clientId) as [->|Hne]; simpl.
    + destruct (String.eqb_spec clientId k) as [->|]; case_decide; by subst.
    + rewrite IH. destruct (String.eqb_spec k' k) as [->|]; [|done].
      by rewrite decide_False.
Qed.

Lemma keys_delete l clientId :
  (BotManager.map_delete clientId l).*1 = filter (.≠ clientId) l.*1.
Proof.
  induction l as [|[k v] l IH]; [done|].
  rewrite fmap_cons. cbn [BotManager.map_delete fst].
  destruct (String.eqb_spec k clientId) as [->|Hne].
  - rewrite filter_cons_False; [exact IH|]. intros H. by apply H.
  - rewrite filter_cons_True by done. rewrite fmap_cons. cbn [fst]. by rewrite IH.
Qed.

Lemma keys_set l clientId entry :
  (BotManager.map_set clientId entry l).*1 =
    if decide (clientId ∈ l.*1) then l.*1 else l.*1 ++ [clientId].
Proof.
  induction l as [|[k v] l IH].
  - rewrite decide_False; [done|]. apply not_elem_of_nil.
  - rewrite fmap_cons. cbn [BotManager.map_set fst].
    destruct (String.eqb_spec k clientId) as [->|Hne]; rewrite fmap_cons; cbn [fst].
    + rewrite decide_True; [done|]. by left.
    + rewrite IH. destruct (decide (clientId ∈ l.*1)).
      * rewrite decide_True; [done|]. by right.
      * rewrite decide_False; [done|]. rewrite not_elem_of_cons. split; [congruence|done].
Qed.

Lemma map_set_set l clientId e1 e2 :
  BotManager.map_set clientId e2 (BotManager.map_set clientId e1 l) =
    BotManager.map_set clientId e2 l.
Proof.
  induction l as [|[k v] l IH]; simpl.
  - by rewrite String.eqb_refl.
  - destruct (String.eqb_spec k clientId) as [->|Hne]; simpl.
    + by rewrite String.eqb_refl.
    + destruct (String.eqb_spec k clientId); [done|]. by rewrite IH.
Qed.

Lemma map_delete_absent l clientId :
  BotManager.map_get clientId l = None -> BotManager.map_delete clientId l = l.
Proof.
  induction l as [|[k v] l IH]; simpl; [done|].
  destruct (String.eqb_spec k clientId); [done|]. intros H. by rewrite IH.
Qed.

(** [removeBot], case by case. *)
Lemma removeBot_cases this clientId :
  BotManager.removeBot clientId this =
    match BotManager.map_get clientId (BotManager.bots this) with
    | None => (Ok tt, this, [])
    | Some entry =>
        match BotManager.stop (BotManager.bot entry) with
        | None =>
            (Ok tt,
             BotManager.set_bots
               (BotManager.map_delete clientId (BotManager.bots this)) this, [])
        | Some f =>
            match f (BotManager.world this) with
            | (Returned _, w) =>
                (Ok tt,
                 BotManager.set_bots
                   (BotManager.map_delete clientId (BotManager.bots this))
                   (BotManager.set_world w this), [])
            | (Thrown e, w) => (Throw e, BotManager.set_world w this, [])
            end
        end
    end.
Proof.
  unfold BotManager.removeBot, bind, get. simpl.
  destruct (BotManager.map_get clientId (BotManager.bots this)) as [entry|]; [|done].
  destruct (BotManager.stop (BotManager.bot entry)) as [f|]; [|done].
  unfold BotManager.call. by destruct (f (BotManager.world this)) as [[[]|e] w].
Qed.

Lemma removeBot_returns this clientId this' t :
  BotManager.removeBot clientId this = (Ok tt, this', t) ->
  BotManager.bots this' = BotManager.map_delete clientId (BotManager.bots this) /\ t = [].
Proof.
  rewrite removeBot_cases.
  destruct (BotManager.map_get clientId (BotManager.bots this)) as [entry|] eqn:E.
  - destruct (BotManager.stop (BotManager.bot entry)) as [f|].
    + destruct (f (BotManager.world this)) as [[[]|e] w]; [|done]. by intros [= <- <-].
    + by intros [= <- <-].
  - intros [= <- <-]. by rewrite map_delete_absent.
Qed.

Lemma removeBot_throws this clientId e this' t :
  BotManager.removeBot clientId this = (Throw e, this', t) ->
  BotManager.bots this' = BotManager.bots this /\
  exists entry f,
    BotManager.map_get clientId (BotManager.bots this) = Some entry /\
    BotManager.stop (BotManager.bot entry) = Some f /\
    f (BotManager.world this) = (Thrown e, BotManager.world this').
Proof.
  rewrite removeBot_cases.
  destruct (BotManager.map_get clientId (BotManager.bots this)) as [entry|] eqn:E; [|done].
  destruct (BotManager.stop (BotManager.bot entry)) as [f|] eqn:Ef; [|done].
  destruct (f (BotManager.world this)) as [[[]|e'] w] eqn:Ew; [done|].
  intros [= <- <- <-]. split; [done|]. by exists entry, f.
Qed.

Lemma removeBot_fuel this clientId why :
  (BotManager.removeBot clientId this).1.1 <> Undetermined why.
Proof.
  rewrite removeBot_cases.
  destruct (BotManager.map_get clientId (BotManager.bots this)) as [entry|]; [|done].
  destruct (BotManager.stop (BotManager.bot entry)) as [f|]; [|done].
  by destruct (f (BotManager.world this)) as [[[]|e'] w].
Qed.

(** What [addBot] does once the bot that was there is removed. *)
Lemma addBot_cases this clientId config BotEngine createAdapter this1 :
  BotManager.removeBot clientId this = (Ok tt, this1, []) ->
  BotManager.addBot clientId config BotEngine createAdapter this =
    match createAdapter config (BotManager.world this1) with
    | (Thrown e, w) => (Throw e, BotManager.set_world w this1, [])
    | (Returned adapter, w1) =>
        match BotEngine adapter config w1 with
        | (Thrown e, w) => (Throw e, BotManager.set_world w this1, [])
        | (Returned bot, w2) =>
            match BotManager.start bot w2 with
            | (Thrown e, w) =>
                (Throw e,
                 BotManager.mk
                   (BotManager.map_set clientId (BotManager.mkEntry bot config "stopped")
                      (BotManager.bots this1)) w, [])
            | (Returned _, w) =>
                (Ok bot,
                 BotManager.mk
                   (BotManager.map_set clientId (BotManager.mkEntry bot config "running")
                      (BotManager.bots this1)) w, [])
            end
        end
    end.
Proof.
  intros Hr. unfold BotManager.addBot. unfold bind at 1. rewrite Hr.
  unfold bind at 1. unfold BotManager.call at 1. simpl.
  destruct (createAdapter config (BotManager.world this1)) as [[adapter|e] w1]; [|done].
  unfold bind at 1. unfold BotManager.call at 1. simpl.
  destruct (BotEngine adapter config w1) as [[bot|e] w2]; [|done].
  unfold bind at 1. unfold modify at 1. simpl.
  unfold bind at 1. unfold BotManager.call at 1. simpl.
  destruct (BotManager.start bot w2) as [[[]|e] w3]; [|done].
  unfold bind, get, modify, ret. simpl.
  rewrite map_get_set, decide_True by done. simpl.
  by rewrite map_set_set.
Qed.

(** X22.  When [removeBot] returns, the client is gone: it has no bot,
    its status is ['not found'] and it is not listed; the other
    clients keep their bots and their status, and their order in the
    list. *)
Theorem removeBot_forgets_client this clientId this' t :
  BotManager.removeBot clientId this = (Ok tt, this', t) ->
  BotManager.getBot this' clientId = None /\
  BotManager.getStatus this' clientId = "not found" /\
  BotManager.listBots this' = filter (.≠ clientId) (BotManager.listBots this) /\
  forall k, k <> clientId ->
    BotManager.getBot this' k = BotManager.getBot this k /\
    BotManager.getStatus this' k = BotManager.getStatus this k.
Proof.
  intros H. apply removeBot_returns in H as [Hb _].
  unfold BotManager.getBot, BotManager.getStatus, BotManager.listBots.
  rewrite Hb, keys_delete. rewrite !map_get_delete, decide_True by done.
  split; [done|]. split; [done|]. split; [done|].
  intros k Hk. by rewrite !map_get_delete, decide_False.
Qed.

(** X23.  [removeBot] throws only what the [stop] of the client's bot
    threw, and then the bot stays registered: the map is left as it
    was.  For a client that is not registered and for a bot without
    [stop] it returns. *)
Theorem removeBot_failure_keeps_bot this clientId :
  (forall e this' t,
     BotManager.removeBot clientId this = (Throw e, this', t) ->
     BotManager.bots this' = BotManager.bots this /\
     exists entry f,
       BotManager.map_get clientId (BotManager.bots this) = Some entry /\
       BotManager.stop (BotManager.bot entry) = Some f /\
       (f (BotManager.world this)).1 = Thrown e) /\
  (BotManager.getBot this clientId = None ->
   BotManager.removeBot clientId this = (Ok tt, this, [])) /\
  (forall entry,
     BotManager.map_get clientId (BotManager.bots this) = Some entry ->
     BotManager.stop (BotManager.bot entry) = None ->
     (BotManager.removeBot clientId this).1.1 = Ok tt).
Proof.
  split; [|split].
  - intros e this' t H. apply removeBot_throws in H as (Hb & entry & f & H1 & H2 & H3).
    split; [done|]. exists entry, f. by rewrite H3.
  - intros H. rewrite removeBot_cases. unfold BotManager.getBot in H.
    by destruct (BotManager.map_get clientId (BotManager.bots this)).
  - intros entry H1 H2. by rewrite removeBot_cases, H1, H2.
Qed.

(** X24.  When [addBot] returns a bot, that bot is the one registered
    for the client, with status ['running'] and the given
    configuration; the client is listed last, after the clients that
    were there, and these keep their bots and their status. *)
Theorem addBot_registers_running_bot this clientId config BotEngine createAdapter
    bot this' t :
  BotManager.addBot clientId config BotEngine createAdapter this = (Ok bot, this', t) ->
  BotManager.map_get clientId (BotManager.bots this') =
    Some (BotManager.mkEntry bot config "running") /\
  BotManager.getBot this' clientId = Some bot /\
  BotManager.getStatus this' clientId = "running" /\
  BotManager.listBots this' =
    filter (.≠ clientId) (BotManager.listBots this) ++ [clientId] /\
  forall k, k <> clientId ->
    BotManager.getBot this' k = BotManager.getBot this k /\
    BotManager.getStatus this' k = BotManager.getStatus this k.
Proof.
  destruct (BotManager.removeBot clientId this) as [[r this1] t1] eqn:Hr.
  destruct r as [[]|e|why].
  - destruct (removeBot_returns _ _ _ _ Hr) as [Hb ->].
    rewrite (addBot_cases _ _ _ _ _ _ Hr).
    destruct (createAdapter config (BotManager.world this1)) as [[adapter|e] w1]; [|done].
    destruct (BotEngine adapter config w1) as [[bot'|e] w2]; [|done].
    destruct (BotManager.start bot' w2) as [[[]|e] w3]; [|done].
    intros [= <- <- <-].
    unfold BotManager.getBot, BotManager.getStatus, BotManager.listBots. simpl.
    rewrite Hb, keys_set, keys_delete.
    rewrite !map_get_set, decide_True by done.
    split; [done|]. split; [done|]. split; [done|]. split.
    + rewrite decide_False; [done|]. rewrite list_elem_of_filter. by intros [? _].
    + intros k Hk. by rewrite !map_get_set, decide_False, map_get_delete, decide_False.
  - unfold BotManager.addBot. unfold bind at 1. by rewrite Hr.
  - unfold BotManager.addBot. unfold bind at 1. by rewrite Hr.
Qed.

(** X25.  When [addBot] throws, the client is not running a new bot:
    either the [stop] of the bot that was there threw and the map is
    as it was; or building the adapter or the bot threw and the client
    is no longer registered; or the [start] of the new bot threw and
    the new bot stays registered with status ['stopped']. *)
Theorem failed_addBot_outcomes this clientId config BotEngine createAdapter e this' t :
  BotManager.addBot clientId config BotEngine createAdapter this = (Throw e, this', t) ->
  (BotManager.bots this' = BotManager.bots this /\
   exists entry f,
     BotManager.map_get clientId (BotManager.bots this) = Some entry /\
     BotManager.stop (BotManager.bot entry) = Some f /\
     (f (BotManager.world this)).1 = Thrown e) \/
  (BotManager.getBot this' clientId = None /\
   BotManager.getStatus this' clientId = "not found" /\
   ((exists w, (createAdapter config w).1 = Thrown e) \/
    (exists adapter w, (BotEngine adapter config w).1 = Thrown e))) \/
  (exists bot w,
     BotManager.map_get clientId (BotManager.bots this') =
       Some (BotManager.mkEntry bot config "stopped") /\
     BotManager.getStatus this' clientId = "stopped" /\
     (BotManager.start bot w).1 = Thrown e).
Proof.
  destruct (BotManager.removeBot clientId this) as [[r this1] t1] eqn:Hr.
  destruct r as [[]|e1|why].
  - destruct (removeBot_returns _ _ _ _ Hr) as [Hb ->].
    rewrite (addBot_cases _ _ _ _ _ _ Hr).
    assert (Hgone : BotManager.map_get clientId (BotManager.bots this1) = None).
    { by rewrite Hb, map_get_delete, decide_True. }
    destruct (createAdapter config (BotManager.world this1)) as [[adapter|e1] w1] eqn:Ea.
    + destruct (BotEngine adapter config w1) as [[bot|e1] w2] eqn:Eb.
      * destruct (BotManager.start bot w2) as [[[]|e1] w3] eqn:Es; [done|].
        intros [= <- <- <-]. right. right. exists bot, w2.
        unfold BotManager.getStatus. simpl.
        rewrite map_get_set, decide_True by done. by rewrite Es.
      * intros [= <- <- <-]. right. left.
        unfold BotManager.getBot, BotManager.getStatus. simpl. rewrite Hgone.
        split; [done|]. split; [done|]. right. exists adapter, w1. by rewrite Eb.
    + intros [= <- <- <-]. right. left.
      unfold BotManager.getBot, BotManager.getStatus. simpl. rewrite Hgone.
      split; [done|]. split; [done|]. left. exists (BotManager.world this1). by rewrite Ea.
  - unfold BotManager.addBot. unfold bind at 1. rewrite Hr. intros [= <- <- <-].
    left. apply removeBot_throws in Hr as (Hb & entry & f & H1 & H2 & H3).
    split; [done|]. exists entry, f. by rewrite H3.
  - pose proof (removeBot_fuel this clientId why) as H. by rewrite Hr in H.
Qed.

(** Once the client is removed, removing it again changes nothing. *)
Lemma addBot_after_removal this clientId config BotEngine createAdapter this1 :
  BotManager.removeBot clientId this = (Ok tt, this1, []) ->
  BotManager.addBot clientId config BotEngine createAdapter this1 =
    BotManager.addBot clientId config BotEngine createAdapter this.
Proof.
  intros Hr. destruct (removeBot_returns _ _ _ _ Hr) as [Hb _].
  assert (Hr1 : BotManager.removeBot clientId this1 = (Ok tt, this1, [])).
  { rewrite removeBot_cases. by rewrite Hb, map_get_delete, decide_True. }
  by rewrite (addBot_cases _ _ _ _ _ _ Hr), (addBot_cases _ _ _ _ _ _ Hr1).
Qed.

(** X26.  [updateBot] is [addBot]: the removal it starts with is the
    one [addBot] performs, and the second removal finds nothing.  The
    two give the same outcome, the same map and the same world, and
    so [updateBot] on a client that is not registered adds it. *)
Theorem updateBot_is_addBot this clientId newConfig BotEngine createAdapter :
  BotManager.updateBot clientId newConfig BotEngine createAdapter this =
    BotManager.addBot clientId newConfig BotEngine createAdapter this.
Proof.
  unfold BotManager.updateBot. unfold bind at 1.
  destruct (BotManager.removeBot clientId this) as [[r this1] t1] eqn:Hr.
  destruct r as [[]|e|why].
  - destruct (removeBot_returns _ _ _ _ Hr) as [_ ->].
    rewrite (addBot_after_removal _ _ _ _ _ _ Hr).
    by destruct (BotManager.addBot clientId newConfig BotEngine createAdapter this)
      as [[? ?] ?].
  - unfold BotManager.addBot. unfold bind at 1. by rewrite Hr.
  - unfold BotManager.addBot. unfold bind at 1. by rewrite Hr.
Qed.

(** What the map can be after [addBot], however it ends. *)
Lemma addBot_bots this clientId config BotEngine createAdapter :
  let this' := (BotManager.addBot clientId config BotEngine createAdapter this).1.2 in
  BotManager.bots this' = BotManager.bots this \/
  BotManager.bots this' = BotManager.map_delete clientId (BotManager.bots this) \/
  exists entry,
    BotManager.bots this' =
      BotManager.map_set clientId entry
        (BotManager.map_delete clientId (BotManager.bots this)).
Proof.
  destruct (BotManager.removeBot clientId this) as [[r this1] t1] eqn:Hr.
  destruct r as [[]|e|why].
  - destruct (removeBot_returns _ _ _ _ Hr) as [Hb ->].
    rewrite (addBot_cases _ _ _ _ _ _ Hr).
    destruct (createAdapter config (BotManager.world this1)) as [[adapter|e] w1];
      [|by right; left].
    destruct (BotEngine adapter config w1) as [[bot|e] w2]; [|by right; left].
    destruct (BotManager.start bot w2) as [[[]|e] w3]; simpl; rewrite Hb;
      right; right; by eexists.
  - unfold BotManager.addBot. unfold bind at 1. rewrite Hr. simpl.
    left. by apply removeBot_throws in Hr as [? _].
  - pose proof (removeBot_fuel this clientId why) as H. by rewrite Hr in H.
Qed.

(** X27.  However [addBot], [updateBot] and [removeBot] end, they
    leave the entries of every other client as they were, and the
    listed client ids stay pairwise distinct. *)
Theorem clients_are_independent this clientId config BotEngine createAdapter this' :
  this' = (BotManager.addBot clientId config BotEngine createAdapter this).1.2 \/
  this' = (BotManager.updateBot clientId config BotEngine createAdapter this).1.2 \/
  this' = (BotManager.removeBot clientId this).1.2 ->
  (forall k, k <> clientId ->
     BotManager.map_get k (BotManager.bots this') =
       BotManager.map_get k (BotManager.bots this)) /\
  (NoDup (BotManager.listBots this) -> NoDup (BotManager.listBots this')).
Proof.
  intros H.
  assert (Hb : BotManager.bots this' = BotManager.bots this \/
               BotManager.bots this' =
                 BotManager.map_delete clientId (BotManager.bots this) \/
               exists entry,
                 BotManager.bots this' =
                   BotManager.map_set clientId entry
                     (BotManager.map_delete clientId (BotManager.bots this))).
  { destruct H as [->|[->| ->]].
    - apply addBot_bots.
    - unfold BotManager.updateBot, bind.
      destruct (BotManager.removeBot clientId this) as [[r this1] t1] eqn:Hr.
      destruct r as [[]|e|]; simpl.
      + destruct (removeBot_returns _ _ _ _ Hr) as [_ ->].
        rewrite (addBot_after_removal _ _ _ _ _ _ Hr).
        pose proof (addBot_bots this clientId config BotEngine createAdapter) as Hb.
        by destruct (BotManager.addBot clientId config BotEngine createAdapter this)
          as [[? ?] ?].
      + left. by apply removeBot_throws in Hr as [? _].
      + pose proof (removeBot_fuel this clientId why) as H. by rewrite Hr in H.
    - destruct (BotManager.removeBot clientId this) as [[r this1] t1] eqn:Hr.
      destruct r as [[]|e|]; simpl.
      + right. left. by apply removeBot_returns in Hr as [? _].
      + left. by apply removeBot_throws in Hr as [? _].
      + pose proof (removeBot_fuel this clientId why) as H. by rewrite Hr in H. }
  unfold BotManager.listBots. split.
  - intros k Hk. destruct Hb as [->|[->|[entry ->]]]; [done|..].
    + by rewrite map_get_delete, decide_False.
    + by rewrite map_get_set, decide_False, map_get_delete, decide_False.
  - intros Hnd. destruct Hb as [->|[->|[entry ->]]]; [done|..].
    + rewrite keys_delete. by apply NoDup_filter.
    + rewrite keys_set, keys_delete. case_decide; [by apply NoDup_filter|].
      apply NoDup_app. split; [by apply NoDup_filter|].
      split; [|apply NoDup_singleton].
      intros x Hx. rewrite list_elem_of_singleton. intros ->. done.
Qed.

End Bots.


(** ** The properties on concrete runs *)
Section Runs.
Import Scenario.

Lemma pairing {A B C : Type} (x : A * B * C) : x = (x.1.1, x.1.2, x.2).
Proof. by destruct x as [[? ?] ?]. Defined.

Lemma unhooked_keeps (this : Pipeline.t W) :
  Pipeline.hooks this = None -> keeps_returned this /\ keeps_result this.
Proof.
  intros Hn. split; intros h callback data s Hh; rewrite Hn in Hh; discriminate Hh.
Defined.







(** A [flakey] that throws [null] is called once: [handle] throws a
    [TypeError] before it looks at the strategy, and the error leaves
    [process]. *)
Example null_flakey_is_not_retried :
  calls_of 0 (Pipeline.process null_flakey_pipeline m0).2 = 1%nat /\
  (Pipeline.process null_flakey_pipeline m0).1.1 =
    Throw (Raised ErrorHandler.no_constructor) /\
  State.total (errorStats (Pipeline.process null_flakey_pipeline m0).1.2) = 1%nat.
Proof. repeat split; vm_compute; reflexivity. Qed.

(** One throwing stage, skipped by default: the emissions are
    [before:pipeline], [before:stage], [error:stage], [after:pipeline]. *)
Lemma process_hook_order_witness :
  (exists body,
      passes body /\
      hook_names (Pipeline.process observed_pipeline m0).2 =
        "before:pipeline" :: body ++
        match (Pipeline.process observed_pipeline m0).1.1 with
        | Ok _ => ["after:pipeline"]
        | _ => []
        end) /\
  closing_hooks (Pipeline.process observed_pipeline m0).2 =
    outcome_hooks (Pipeline.process observed_pipeline m0).2.
Proof.
  apply (process_hook_order observed_pipeline HookManager.new m0 _
           (Pipeline.process observed_pipeline m0).1.2 _).
  - reflexivity.
  - apply pairing.
Defined.

(** C3, as the specification words it, fails on that run: no
    [after:stage] follows the [error:stage] of the throwing stage. *)
Lemma hook_order_counterexample :
  Pipeline.hooks observed_pipeline = Some HookManager.new /\
  ~ spec_hook_order (hook_names (Pipeline.process observed_pipeline m0).2).
Proof.
  split; [reflexivity|].
  assert (Hn : hook_names (Pipeline.process observed_pipeline m0).2 =
               ["before:pipeline"; "before:stage"; "error:stage"; "after:pipeline"])
    by (vm_compute; reflexivity).
  rewrite Hn. intros (body & Heq & Hs).
  injection Heq as Heq.
  change ["before:stage"; "error:stage"; "after:pipeline"]
    with (["before:stage"; "error:stage"] ++ ["after:pipeline"]) in Heq.
  apply app_inj_tail in Heq as [<- _].
  inversion Hs.
Qed.




(** What else makes [process] throw: a stage that throws [null], a
    kind handler that resolves to [undefined], and an error whose
    constructor bears the name of a member of [Object.prototype]; each
    time a [TypeError] leaves [process]. *)
Example type_errors_escape :
  (Pipeline.process null_pipeline m0).1.1 = Throw (Raised ErrorHandler.no_constructor) /\
  (Pipeline.process mute_pipeline m0).1.1 = Throw (Raised Pipeline.no_recovery) /\
  (exists e, (Pipeline.process odd_pipeline m0).1.1 = Throw (Raised e) /\
             ctor_name e = "TypeError").
Proof.
  split; [vm_compute; reflexivity|]. split; [vm_compute; reflexivity|].
  eexists. split; vm_compute; reflexivity.
Qed.

(** [flakey] has a strategy: a [DatabaseError] is resolved by it too,
    without the kind dispatch; in [bad], which has none, the kind
    dispatch is consulted. *)
Lemma strategy_takes_precedence_witness :
  (exists recovery t,
     ErrorHandler.handle retrying refused "flakey" (ErrorHandler.mkContext (Some 1%Z)) m0 =
       (Ok recovery,
        set_errorStats (counted_error refused "flakey" (errorStats m0)) m0, t) /\
     dispatches t = [] /\
     recovery = ErrorHandler.mkRecovery "retry" (Some "stage_error") None) /\
  ErrorHandler.recoveryStrategies crashing !! "bad" = None /\
  EvDispatch (ctor_name boom)
    ∈ (ErrorHandler.handle crashing boom "bad" (ErrorHandler.mkContext (Some 1%Z)) m0).2.
Proof.
  destruct (strategy_takes_precedence retrying "flakey" (ErrorHandler.mkContext (Some 1%Z)))
    as [H1 _].
  destruct (H1 (ErrorHandler.mkStrategy "retry" (Some 3%Z) (Some 0%Z)) refused m0
              ltac:(vm_compute; reflexivity))
    as (recovery & t & Hh & Hd & _ & _ & Hretry & _).
  destruct (strategy_takes_precedence crashing "bad" (ErrorHandler.mkContext (Some 1%Z)))
    as (_ & H2 & H3).
  assert (Hin : EvDispatch (ctor_name boom)
                  ∈ (ErrorHandler.handle crashing boom "bad"
                       (ErrorHandler.mkContext (Some 1%Z)) m0).2).
  { apply (H3 boom m0). vm_compute. reflexivity. }
  split; [|split; [exact (H2 boom m0 _ Hin)|exact Hin]].
  exists recovery, t. split; [exact Hh|]. split; [exact Hd|].
  apply Hretry; [reflexivity|]. vm_compute. reflexivity.
Defined.

(** A fresh handler, a stage name that is no member of
    [Object.prototype]. *)
Lemma unregistered_stage_dispatch_witness :
  (ErrorHandler.handle (ErrorHandler.new (W := W)) refused "dbStage"
     (ErrorHandler.mkContext None) m0).1.1 =
    Ok (ErrorHandler.mkRecovery "stop" (Some "db_connection_failed") None) /\
  (ErrorHandler.handle (ErrorHandler.new (W := W)) weird "someStage"
     (ErrorHandler.mkContext None) m0).1.1 =
    Ok (ErrorHandler.mkRecovery "stop" (Some "unknown_error") None).
Proof.
  split.
  - destruct (unregistered_stage_dispatch (ErrorHandler.new (W := W)) "dbStage" refused
                (ErrorHandler.mkContext None) m0 ltac:(vm_compute; reflexivity))
      as [H _].
    destruct (H eq_refl ltac:(vm_compute; reflexivity)) as (H1 & _).
    by apply H1.
  - destruct (unregistered_stage_dispatch (ErrorHandler.new (W := W)) "someStage" weird
                (ErrorHandler.mkContext None) m0 ltac:(vm_compute; reflexivity))
      as [_ H].
    apply H. vm_compute. reflexivity.
Defined.

(** C6.  For the stage name [toString], for which no recovery strategy
    is registered, [handle] does not map a [DatabaseError] with the
    code [ECONNREFUSED] to [stop]/[db_connection_failed], nor an error of
    an unregistered kind to [stop]/[unknown_error]: the lookup
    [recoveryStrategies['toString']] finds [Object.prototype.toString],
    the kind dispatch is not consulted, and the answer is
    [stop]/[unknown_strategy]. *)
Theorem inherited_stage_name_is_not_dispatched :
  ErrorHandler.recoveryStrategies (ErrorHandler.new (W := W)) !! "toString" = None /\
  ErrorHandler.handle (ErrorHandler.new (W := W)) refused "toString"
    (ErrorHandler.mkContext (Some 1%Z)) m0 =
    (Ok (ErrorHandler.mkRecovery "stop" (Some "unknown_strategy") None),
     set_errorStats (counted_error refused "toString" (errorStats m0)) m0,
     [EvHandle "toString" refused (Some 1%Z)]) /\
  (ErrorHandler.handle (ErrorHandler.new (W := W)) weird "toString"
     (ErrorHandler.mkContext (Some 1%Z)) m0).1.1 =
    Ok (ErrorHandler.mkRecovery "stop" (Some "unknown_strategy") None) /\
  byStage (errorStats (ErrorHandler.handle (ErrorHandler.new (W := W)) refused "toString"
                         (ErrorHandler.mkContext (Some 1%Z)) m0).1.2) !! "toString" =
    Some Text.
Proof. repeat split; vm_compute; reflexivity. Qed.

(** Listeners A, B, C on ['ev'], B throwing: all three ran, in order,
    and B's error went to the console. *)
Lemma emit_runs_every_listener_witness :
  let hm :=
    HookManager.on
      (HookManager.on (HookManager.on HookManager.new "ev" (listener "A" false))
         "ev" (listener "B" true))
      "ev" (listener "C" false) in
  exists m' t,
    HookManager.emit hm "ev" PMessage m0 = (Ok tt, m', t) /\
    world (store m') = ["A"; "B"; "C"] /\
    ("ev", Raised boom) ∈ console_errors t.
Proof.
  intros hm.
  destruct (emit_runs_every_listener (HookManager.new (W := W)) "ev" PMessage m0)
    as [_ H].
  destruct (H (listener "A" false) (listener "B" true) (listener "C" false))
    as (_ & out & m' & t & He & -> & Hs & Hc).
  exists m', t. split; [exact He|]. split.
  - rewrite Hs. reflexivity.
  - apply Hc. reflexivity.
Defined.

(** [handle] on an unknown name, on [null], on [ping] and on [boom]. *)
Lemma handle_action_witness :
  ActionHandler.handle actions_registry (Some "unknown_action") (VObj []) m0 =
    (Ok false, m0, []) /\
  ActionHandler.handle actions_registry None (VObj []) m0 = (Ok false, m0, []) /\
  (exists m',
      ActionHandler.handle actions_registry (Some "ping") VUndefined m0 = (Ok true, m', []) /\
      world (store m') = ["ping"]) /\
  (exists m',
      ActionHandler.handle actions_registry (Some "boom") VUndefined m0 =
        (Throw (Raised boom), m', []) /\
      failed (stats m') = 1%nat).
Proof.
  split; [|split; [|split]].
  - apply (proj1 (handle_action actions_registry (Some "unknown_action") (VObj []) m0)).
    right. right. exists "unknown_action". split; [reflexivity|]. vm_compute. reflexivity.
  - apply (proj1 (handle_action actions_registry None (VObj []) m0)). by left.
  - destruct (proj2 (handle_action actions_registry (Some "ping") VUndefined m0)
                "ping" (fun _ s => (Returned tt, note "ping" s)) eq_refl)
      as [H _]; [done|vm_compute; reflexivity|].
    destruct (H (note "ping" s0) eq_refl) as (m' & He & Hs & _).
    exists m'. split; [exact He|]. by rewrite Hs.
  - destruct (proj2 (handle_action actions_registry (Some "boom") VUndefined m0)
                "boom" (fun _ s => (Thrown (Raised boom), note "boom" s)) eq_refl)
      as [_ H]; [done|vm_compute; reflexivity|].
    destruct (H (Raised boom) (note "boom" s0) eq_refl) as (m' & He & _ & Hf).
    exists m'. split; [exact He|]. by rewrite Hf.
Defined.

(** C8.  With no handler registered, [handle('toString', data)] does
    not return [false]: the lookup [handlers['toString']] finds
    [Object.prototype.toString], which is called and returns, so
    [handle] returns [true] and counts the action as handled; and
    [handle('__proto__', data)] finds [Object.prototype], which is no
    function: the [TypeError] of the call is counted as a failure and
    thrown to the caller. *)
Theorem inherited_action_name_is_handled :
  ActionHandler.handlers (ActionHandler.new (W := W) false) !! "toString" = None /\
  ActionHandler.handle (ActionHandler.new (W := W) false) (Some "toString") VUndefined m0 =
    (Ok true,
     set_stats {| handled := 1; byAction := <["toString" := Text]> ∅; failed := 0 |} m0,
     []) /\
  ActionHandler.handlers (ActionHandler.new (W := W) false) !! "__proto__" = None /\
  (exists e m',
     ActionHandler.handle (ActionHandler.new (W := W) false) (Some "__proto__") VUndefined m0 =
       (Throw (Raised e), m', []) /\
     ctor_name e = "TypeError" /\ failed (stats m') = 1%nat).
Proof.
  split; [reflexivity|]. split; [vm_compute; reflexivity|]. split; [reflexivity|].
  eexists _, _. split; [vm_compute; reflexivity|]. split; reflexivity.
Qed.

(** [flakey] is called three times: three [before:stage] emissions. *)
Lemma before_stage_per_attempt_witness :
  before_stage_count "flakey" (Pipeline.process observed_flakey_pipeline m0).2 = 3%nat /\
  calls_named "flakey" (Pipeline.process observed_flakey_pipeline m0).2 = 3%nat.
Proof.
  destruct (before_stage_per_attempt observed_flakey_pipeline HookManager.new m0 _
              (Pipeline.process observed_flakey_pipeline m0).1.2 _ eq_refl
              (pairing _)) as [_ H].
  rewrite H. split; vm_compute; reflexivity.
Defined.


End Runs.

(** ** Further runs *)
Section FurtherRuns.
Import Scenario Cases.

Lemma calm_stages_return (stage : Pipeline.Stage W) (s : Store W) :
  stage ∈ Pipeline.stages calm_pipeline ->
  exists r s', Pipeline.run stage s = (Returned r, s') /\
               truthy (opt_prop r "stop") = false.
Proof.
  unfold calm_pipeline. simpl. rewrite !elem_of_cons.
  intros [-> | [-> | [-> | H]]]; [by eexists _, _..|by apply elem_of_nil in H].
Defined.

(** [a], [b] and [c] are called once each, in that order. *)
Lemma all_stages_run_once_witness :
  exists result m' t,
    Pipeline.process calm_pipeline m0 = (Ok result, m', t) /\
    invoked t = slots 0 (Pipeline.stages calm_pipeline) /\
    stop result = false /\ metadata result = ∅ /\
    error result = None /\ errorStage result = None.
Proof.
  destruct (all_stages_run_once calm_pipeline m0
              (proj1 (unhooked_keeps calm_pipeline eq_refl)))
    as (result & m' & t & Hp & Hi & Hres).
  - intros stage s Hin. by apply calm_stages_return.
  - exists result, m', t. split; [exact Hp|]. split; [exact Hi|].
    apply Hres. apply (proj2 (unhooked_keeps calm_pipeline eq_refl)).
Defined.

(** [bad] throws and is skipped; [after] is called. *)
Lemma unhandled_errors_are_skipped_witness :
  exists result m' t,
    Pipeline.process mixed_pipeline m0 = (Ok result, m', t) /\
    invoked t = slots 0 (Pipeline.stages mixed_pipeline) /\
    stop result = false /\ error result = None /\ errorStage result = None.
Proof.
  destruct (unhandled_errors_are_skipped mixed_pipeline m0
              (proj1 (unhooked_keeps mixed_pipeline eq_refl)) eq_refl)
    as (result & m' & t & Hp & Hi & Hres).
  - intros stage s r. unfold mixed_pipeline. simpl. rewrite !elem_of_cons.
    intros [-> | [-> | H]]; [done| |by apply elem_of_nil in H].
    simpl. by intros [= <-].
  - exists result, m', t. split; [exact Hp|]. split; [exact Hi|].
    apply Hres. apply (proj2 (unhooked_keeps mixed_pipeline eq_refl)).
Defined.

(** A listener on ['after:stage'] that sets [stop] on what [a]
    returned ends the run after [a], although [a] returned no stop
    signal: the stage [b] is not called. *)
Example listener_stops_the_run :
  EvReturned 0 (Some ∅) ∈ (Pipeline.process blocking_pipeline m0).2 /\
  invoked (Pipeline.process blocking_pipeline m0).2 = [(0%nat, "a")] /\
  (exists result,
      (Pipeline.process blocking_pipeline m0).1.1 = Ok result /\ stop result = true).
Proof.
  split; [|split].
  - apply (list_elem_of_lookup_2 _ 3%nat). vm_compute. reflexivity.
  - vm_compute. reflexivity.
  - eexists. split; vm_compute; reflexivity.
Qed.


(** With the listener on ['after:pipeline'] that clears the result,
    the same run ends on [bad] too, but the result [process] returns
    is not stopped and names no stage. *)
Example listener_clears_the_result :
  EvThrew 0 boom ∈ (Pipeline.process acquitted_stopping_pipeline m0).2 /\
  invoked (Pipeline.process acquitted_stopping_pipeline m0).2 = [(0%nat, "bad")] /\
  (exists result,
      (Pipeline.process acquitted_stopping_pipeline m0).1.1 = Ok result /\
      stop result = false /\ error result = None /\ errorStage result = None).
Proof.
  split; [|split].
  - apply (list_elem_of_lookup_2 _ 3%nat). vm_compute. reflexivity.
  - vm_compute. reflexivity.
  - eexists. repeat split; vm_compute; reflexivity.
Qed.


(** [a] returned without a stop signal: [b] is called. *)
Lemma returned_stage_continues_witness :
  EvInvoke 1 (Pipeline.stage_name (returns "b" (Some reply)))
    ∈ (Pipeline.process calm_pipeline m0).2.
Proof.
  apply (returned_stage_continues calm_pipeline 0%nat (returns "a" None)
           (returns "b" (Some reply)) m0
           (Pipeline.process calm_pipeline m0).1.1
           (Pipeline.process calm_pipeline m0).1.2 _ None).
  - apply (proj1 (unhooked_keeps calm_pipeline eq_refl)).
  - reflexivity.
  - reflexivity.
  - apply pairing.
  - apply (list_elem_of_lookup_2 _ 1%nat). vm_compute. reflexivity.
  - reflexivity.
Defined.

(** The run of [flakey] ends with [errorStage = 'flakey']: the stage
    at position 0 threw the error of the result. *)
Lemma error_stage_names_failed_stage_witness :
  exists result,
    (Pipeline.process flakey_pipeline m0).1.1 = Ok result /\
    exists i stage e,
      Pipeline.stages flakey_pipeline !! i = Some stage /\
      "flakey" = Pipeline.stage_name stage /\
      error result = Some e /\ EvThrew i e ∈ (Pipeline.process flakey_pipeline m0).2 /\
      stop result = true /\
      forall j n', (i < j)%nat -> EvInvoke j n' ∉ (Pipeline.process flakey_pipeline m0).2.
Proof.
  eexists. split; [vm_compute; reflexivity|].
  apply (error_stage_names_failed_stage flakey_pipeline m0 _
           (Pipeline.process flakey_pipeline m0).1.2 _ "flakey").
  - apply (proj2 (unhooked_keeps flakey_pipeline eq_refl)).
  - vm_compute. reflexivity.
  - reflexivity.
Defined.

(** [{ maxRetries: 3, backoffMs: 0 }]: the first failure waits 100. *)
Lemma retry_waits_linear_backoff_witness :
  exists m' t,
    ErrorHandler.handle retrying boom "flakey" (ErrorHandler.mkContext (Some 1%Z)) m0 =
      (Ok (ErrorHandler.mkRecovery "retry" (Some "stage_error") None), m', t) /\
    sleeps t = [100%Z] /\
    store m' = store m0.
Proof.
  apply (retry_waits_linear_backoff ErrorHandler.new "flakey" (Some 3%Z) (Some 0%Z)
           boom 1%Z m0).
  lia.
Defined.

(** A strategy for [flakey] and a handler for [Error] change nothing
    for a [DatabaseError] in [bad]. *)
Lemma registration_is_local_witness :
  ErrorHandler.handle retrying refused "bad" (ErrorHandler.mkContext (Some 1%Z)) m0 =
    ErrorHandler.handle ErrorHandler.new refused "bad" (ErrorHandler.mkContext (Some 1%Z)) m0 /\
  ErrorHandler.handle crashing refused "bad" (ErrorHandler.mkContext (Some 1%Z)) m0 =
    ErrorHandler.handle ErrorHandler.new refused "bad" (ErrorHandler.mkContext (Some 1%Z)) m0.
Proof.
  split.
  - apply (proj1 (registration_is_local ErrorHandler.new refused "bad"
                    (ErrorHandler.mkContext (Some 1%Z)) m0)).
    + intros H. discriminate H.
    + intros H. discriminate H.
  - apply (proj2 (registration_is_local ErrorHandler.new refused "bad"
                    (ErrorHandler.mkContext (Some 1%Z)) m0)).
    + intros e [= <-] H. discriminate H.
    + intros H. discriminate H.
Defined.

(** A strategy registered under [__proto__] is not an entry of the
    table: it becomes the prototype that the lookup for every stage
    without an entry of its own goes through. *)
Example proto_registration_is_not_local :
  get (ErrorHandler.recoveryStrategies (ErrorHandler.new (W := W))) "bad" = Absent /\
  get (ErrorHandler.recoveryStrategies
         (ErrorHandler.registerRecoveryStrategy (ErrorHandler.new (W := W))
            "__proto__" "skip" None None)) "bad" = Beyond.
Proof. split; vm_compute; reflexivity. Qed.

(** A handler registered for [DatabaseError] replaces the built-in one. *)
Lemma registered_handler_is_called_witness :
  exists m' t,
    ErrorHandler.handle
      (ErrorHandler.registerErrorHandler ErrorHandler.new "DatabaseError"
         (ErrorHandler.HCustom lenient))
      refused "bad" (ErrorHandler.mkContext (Some 1%Z)) m0 =
      (Ok (ErrorHandler.mkRecovery "skip" (Some "lenient") None), m', t) /\
    store m' = note "lenient" s0.
Proof.
  apply (registered_handler_is_called ErrorHandler.new "DatabaseError" lenient refused
           "bad" (ErrorHandler.mkContext (Some 1%Z)) m0).
  - vm_compute. reflexivity.
  - reflexivity.
Defined.

(** The strategy ['ignore'], the stage name ['valueOf'], a
    [StageError] and a [ValidationError]. *)
Lemma default_resolutions_witness :
  (ErrorHandler.handle ignoring boom "bad" (ErrorHandler.mkContext (Some 1%Z)) m0).1.1 =
    Ok (ErrorHandler.mkRecovery "stop" (Some "unknown_strategy") None) /\
  (ErrorHandler.handle ErrorHandler.new boom "valueOf"
     (ErrorHandler.mkContext (Some 1%Z)) m0).1.1 =
    Ok (ErrorHandler.mkRecovery "stop" (Some "unknown_strategy") None) /\
  (ErrorHandler.handle ErrorHandler.new stage_error "bad"
     (ErrorHandler.mkContext (Some 1%Z)) m0).1.1 =
    Ok (ErrorHandler.mkRecovery "stop" (Some "no_strategy") None) /\
  (ErrorHandler.handle ErrorHandler.new invalid "bad"
     (ErrorHandler.mkContext (Some 1%Z)) m0).1.1 =
    Ok (ErrorHandler.mkRecovery "skip" (Some "validation_failed") None).
Proof.
  split; [|split; [|split]].
  - apply (proj1 (default_resolutions ignoring boom "bad"
                    (ErrorHandler.mkContext (Some 1%Z)) m0)
             (ErrorHandler.mkStrategy "ignore" None None)).
    + vm_compute. reflexivity.
    + intros H. discriminate H.
    + intros H. discriminate H.
    + intros H. discriminate H.
    + intros H. discriminate H.
  - apply (proj1 (proj2 (default_resolutions ErrorHandler.new boom "valueOf"
                           (ErrorHandler.mkContext (Some 1%Z)) m0))).
    vm_compute. reflexivity.
  - apply (proj1 (proj2 (proj2 (default_resolutions ErrorHandler.new stage_error "bad"
                                  (ErrorHandler.mkContext (Some 1%Z)) m0)))).
    + vm_compute. reflexivity.
    + vm_compute. reflexivity.
  - apply (proj2 (proj2 (proj2 (default_resolutions ErrorHandler.new invalid "bad"
                                  (ErrorHandler.mkContext (Some 1%Z)) m0)))).
    + vm_compute. reflexivity.
    + vm_compute. reflexivity.
Defined.

(** A listener on ['before:stage'] is not called for ['after:stage']. *)
Lemma listeners_are_per_hook_witness :
  HookManager.emit watching "after:stage" PMessage m0 =
    HookManager.emit HookManager.new "after:stage" PMessage m0 /\
  HookManager.getStatus watching !! "after:stage" =
    HookManager.getStatus (HookManager.new : HookManager.t W) !! "after:stage".
Proof.
  apply (listeners_are_per_hook HookManager.new "before:stage" (listener "seen" false)
           "after:stage" PMessage m0).
  intros H. discriminate H.
Defined.

(** One listener on ['before:stage'], a second one registered. *)
Lemma getStatus_counts_listeners_witness :
  HookManager.listeners watching "after:stage" = [] /\
  HookManager.getStatus
    (HookManager.on watching "before:stage" (listener "again" false)) !! "before:stage" =
    Some (S (length (HookManager.listeners watching "before:stage"))).
Proof.
  split.
  - apply (proj1 (proj2 (getStatus_counts_listeners watching "before:stage"
                           (listener "again" false)))).
    + intros H. discriminate H.
    + vm_compute. reflexivity.
  - apply (proj2 (proj2 (getStatus_counts_listeners watching "before:stage"
                           (listener "again" false)))).
    intros H. discriminate H.
Defined.

(** The listener of a hook named [__proto__] is called by [emit] and
    not counted by [getStatus]. *)
Example proto_hook_is_not_counted :
  length (HookManager.listeners odd_hooks "__proto__") = 1%nat /\
  HookManager.getStatus odd_hooks !! "__proto__" = None.
Proof. split; vm_compute; reflexivity. Qed.

(** Two actions without handler around [ping] and [boom]: nothing is
    thrown and two actions are counted. *)
Lemma handleAll_never_throws_witness :
  exists m',
    ActionHandler.handleAll actions_registry
      [(Some "other", VNull); (Some "ping", VNull); (Some "boom", VNull); (None, VNull)] m0 =
      (Ok tt, m', []) /\
    (handled (stats m') + failed (stats m') = 2)%nat.
Proof.
  destruct (handleAll_never_throws actions_registry
              [(Some "other", VNull); (Some "ping", VNull); (Some "boom", VNull); (None, VNull)]
              m0)
    as (m' & Hr & Hc).
  - vm_compute. reflexivity.
  - intros H. discriminate H.
  - exists m'. split; [exact Hr|]. rewrite Hc. vm_compute. reflexivity.
Defined.

(** With a logger, a handler that throws [null] makes [handleAll]
    throw: reading [error.message] in the [catch] block of [handle]
    throws a [TypeError], which nothing catches. *)
Example logged_null_rejection_escapes :
  exists e m',
    ActionHandler.handleAll logged_registry [(Some "void", VNull)] m0 =
      (Throw (Raised e), m', []) /\
    ctor_name e = "TypeError".
Proof. eexists _, _. split; [vm_compute; reflexivity|reflexivity]. Qed.

(** Registering ['pong'] leaves ['ping'] alone; after [clear],
    ['ping'] is answered with [false]. *)
Lemma register_is_local_and_last_wins_witness :
  ActionHandler.handle
    (ActionHandler.register actions_registry "pong" (fun _ s => (Returned tt, s)))
    (Some "ping") VNull m0 =
  ActionHandler.handle actions_registry (Some "ping") VNull m0 /\
  ActionHandler.handle (ActionHandler.clear actions_registry) (Some "ping") VNull m0 =
    (Ok false, m0, []).
Proof.
  destruct (register_is_local_and_last_wins actions_registry "pong"
              (fun _ s => (Returned tt, s)) (fun _ s => (Returned tt, s))
              (Some "ping") VNull m0) as (H1 & _ & H3).
  split.
  - apply H1; intros H; discriminate H.
  - apply H3. intros n [= <-]. vm_compute. reflexivity.
Defined.

(** ['other'] has no handler. *)
Lemma getRegistered_lists_handlers_witness :
  ActionHandler.handle actions_registry (Some "other") VNull m0 = (Ok false, m0, []).
Proof.
  apply (proj2 (proj2 (proj2 (proj2
           (getRegistered_lists_handlers actions_registry "pong"
              (fun _ s => (Returned tt, s))))))).
  - vm_compute. reflexivity.
  - vm_compute. reflexivity.
  - intros Hin.
    apply (proj1 (proj1 (proj2 (getRegistered_lists_handlers actions_registry "pong"
                                  (fun _ s => (Returned tt, s)))) "other")) in Hin.
    destruct Hin as [_ [h H]]. vm_compute in H. discriminate H.
Defined.

(** Removing [c1] leaves [c2]. *)
Lemma removeBot_forgets_client_witness :
  BotManager.getBot (BotManager.removeBot "c1" manager2).1.2 "c1" = None /\
  BotManager.getStatus (BotManager.removeBot "c1" manager2).1.2 "c1" = "not found" /\
  BotManager.listBots (BotManager.removeBot "c1" manager2).1.2 =
    filter (.≠ "c1") (BotManager.listBots manager2) /\
  forall k, k <> "c1" ->
    BotManager.getBot (BotManager.removeBot "c1" manager2).1.2 k =
      BotManager.getBot manager2 k /\
    BotManager.getStatus (BotManager.removeBot "c1" manager2).1.2 k =
      BotManager.getStatus manager2 k.
Proof.
  apply (removeBot_forgets_client manager2 "c1" _ (BotManager.removeBot "c1" manager2).2).
  vm_compute. reflexivity.
Defined.

(** The bot of [c1] refuses to stop: it stays registered.  Nobody is
    registered as [ghost]: removing it changes nothing. *)
Lemma removeBot_failure_keeps_bot_witness :
  (BotManager.bots (BotManager.removeBot "c1" manager_stubborn).1.2 =
     BotManager.bots manager_stubborn /\
   exists entry f,
     BotManager.map_get "c1" (BotManager.bots manager_stubborn) = Some entry /\
     BotManager.stop (BotManager.bot entry) = Some f /\
     (f (BotManager.world manager_stubborn)).1 = Thrown (Raised boom)) /\
  BotManager.removeBot "ghost" manager2 = (Ok tt, manager2, []).
Proof.
  split.
  - apply (proj1 (removeBot_failure_keeps_bot manager_stubborn "c1") (Raised boom) _
             (BotManager.removeBot "c1" manager_stubborn).2).
    vm_compute. reflexivity.
  - apply (proj1 (proj2 (removeBot_failure_keeps_bot manager2 "ghost"))).
    reflexivity.
Defined.

(** [addBot('c1', 'new', ...)] replaces the bot of [c1]: it is listed
    after [c2]. *)
Lemma addBot_registers_running_bot_witness :
  BotManager.getStatus
    (BotManager.addBot "c1" "new" FakeBotEngine createAdapter manager2).1.2 "c1" = "running" /\
  BotManager.listBots
    (BotManager.addBot "c1" "new" FakeBotEngine createAdapter manager2).1.2 =
    filter (.≠ "c1") (BotManager.listBots manager2) ++ ["c1"].
Proof.
  destruct (addBot_registers_running_bot manager2 "c1" "new" FakeBotEngine createAdapter
              (fake_bot "new" true true)
              (BotManager.addBot "c1" "new" FakeBotEngine createAdapter manager2).1.2
              (BotManager.addBot "c1" "new" FakeBotEngine createAdapter manager2).2)
    as (_ & _ & Hs & Hl & _).
  - vm_compute. reflexivity.
  - split; [exact Hs|exact Hl].
Defined.

(** A bot that does not start stays registered as ['stopped']. *)
Lemma failed_addBot_outcomes_witness :
  (BotManager.addBot "c3" "dead" DeadBotEngine createAdapter manager2).1.1 =
    Throw (Raised boom) /\
  BotManager.getStatus
    (BotManager.addBot "c3" "dead" DeadBotEngine createAdapter manager2).1.2 "c3" = "stopped".
Proof.
  split; [vm_compute; reflexivity|].
  destruct (failed_addBot_outcomes manager2 "c3" "dead" DeadBotEngine createAdapter
              (Raised boom)
              (BotManager.addBot "c3" "dead" DeadBotEngine createAdapter manager2).1.2
              (BotManager.addBot "c3" "dead" DeadBotEngine createAdapter manager2).2)
    as [[_ (entry & f & H & _)]|[(_ & H & _)|(bot & w & _ & H & _)]].
  - vm_compute. reflexivity.
  - vm_compute in H. discriminate H.
  - vm_compute in H. discriminate H.
  - exact H.
Defined.

(** Whatever happens to [c1], [c2] keeps its entry. *)
Lemma clients_are_independent_witness :
  BotManager.map_get "c2"
    (BotManager.bots
       (BotManager.addBot "c1" "new" DeadBotEngine createAdapter manager2).1.2) =
  BotManager.map_get "c2" (BotManager.bots manager2).
Proof.
  apply (proj1 (clients_are_independent manager2 "c1" "new" DeadBotEngine createAdapter
                  (BotManager.addBot "c1" "new" DeadBotEngine createAdapter manager2).1.2
                  (or_introl eq_refl))).
  intros H. discriminate H.
Defined.


End FurtherRuns.
